(** * Spectral clustering of tractography fibers: distance.py and cluster.py

    A shallow embedding of the numeric pipeline of the repository
    (pairwise fiber distance, Gaussian kernel similarity, random-walk
    Laplacian, colour derivation, result attachment) together with the
    properties its specification states about it.

    Numbers.  The pipeline is modelled over exact real arithmetic
    ([R]): the coordinates are finite and rounding is left out.  The
    division by the number of points and the division by [2 * sigmasq]
    are real divisions; the statements that depend on them assume at
    least one point per fiber and a kernel width other than 0.  Where
    the code divides by a quantity that depends on the data
    ([np.divide] in the Laplacian and in the colour normalisation) the
    result is an [npfloat], a real number or one of the IEEE special
    values, so that a division by zero stays visible in the model.

    Rounding.  Where rounding decides a statement, distance.py is
    modelled a second time in module [Rounded], over an arithmetic that
    is a parameter: float64 itself (Rocq's primitive binary64 numbers),
    on which the code is evaluated for given fibers, and the reals
    rounded after every operation with a relative error of at most [u],
    for what holds of every input.  Overflow and underflow of the
    arithmetic operations are not modelled there; of [np.exp] the
    underflow to 0 and the rounding to 1 are.

    Library calls.  [np.linalg.eig], [scipy.cluster.vq.kmeans2] and the
    resampling of fibers.py are parameters of the pipeline; the min-max
    scaler of sklearn and the vtk arrays are modelled by what they
    compute. *)

From Stdlib Require Import PrimFloat.
From Stdlib Require Import String.
From Stdlib Require Import Reals List Lra Lia ZArith Bool Arith.
From Stdlib Require Import Zfloor Permutation.
Import ListNotations.
Local Open Scope R_scope.

(** Decimal float64 literals stand for the nearest float64, as in Python. *)
Set Warnings "-inexact-float".

(* ================================================================= *)
(** ** numpy arrays over exact reals *)

Module Np.

Definition vector := list R.
Definition matrix := list (list R).

(** Element-wise combination of two arrays of the same shape.  numpy
    raises on a shape mismatch; every use below is under the shape
    invariant of the fiber container, where no mismatch occurs. *)
Fixpoint zipWith {A B C : Type} (f : A -> B -> C)
         (a : list A) (b : list B) : list C :=
  match a, b with
  | u :: a', v :: b' => f u v :: zipWith f a' b'
  | _, _ => []
  end.

(** [np.square] on a scalar. *)
Definition sq (t : R) : R := t * t.

(** [np.sum] of a one-dimensional array. *)
Definition sum (v : vector) : R := fold_right Rplus 0 v.

(** [M - v] with [v] broadcast over the rows of [M]. *)
Definition sub_rows (M : matrix) (v : vector) : matrix :=
  map (fun row => zipWith Rminus row v) M.

(** [np.square] on a matrix. *)
Definition square (M : matrix) : matrix := map (map sq) M.

(** [A + B] on matrices. *)
Definition add (A B : matrix) : matrix := zipWith (zipWith Rplus) A B.

(** [A - B] on matrices. *)
Definition sub (A B : matrix) : matrix := zipWith (zipWith Rminus) A B.

(** [np.sum(M, 1)]: one sum per row. *)
Definition sum_axis1 (M : matrix) : vector := map sum M.

(** Number of columns and column [j] of a matrix. *)
Definition ncols (M : matrix) : nat := length (hd [] M).

Definition col (j : nat) (M : matrix) : vector :=
  map (fun row => nth j row 0) M.

(** [np.min] and [np.max] of a one-dimensional array (numpy raises on
    an empty one; the pipeline never reduces an empty array). *)
Definition vmin (v : vector) : R :=
  match v with
  | [] => 0
  | a :: l => fold_left Rmin l a
  end.

Definition vmax (v : vector) : R :=
  match v with
  | [] => 0
  | a :: l => fold_left Rmax l a
  end.

(** [np.sum(M, 0)], [np.min(M, axis=0)], [np.max(M, axis=0)]: one value
    per column. *)
Definition sum_axis0 (M : matrix) : vector :=
  map (fun j => sum (col j M)) (seq 0 (ncols M)).

Definition min_axis0 (M : matrix) : vector :=
  map (fun j => vmin (col j M)) (seq 0 (ncols M)).

Definition max_axis0 (M : matrix) : vector :=
  map (fun j => vmax (col j M)) (seq 0 (ncols M)).

(** [np.diag(v)]: the square matrix with [v] on its diagonal. *)
Definition diag {A : Type} (zero : A) (v : list A) : list (list A) :=
  map (fun i =>
         map (fun j => if Nat.eqb i j then nth i v zero else zero)
             (seq 0 (length v)))
      (seq 0 (length v)).

(** [np.argsort(v)]: the indices of [v] in ascending order of value. *)
Fixpoint insert_index (v : vector) (i : nat) (l : list nat) : list nat :=
  match l with
  | [] => [i]
  | j :: l' =>
      if Rle_dec (nth i v 0) (nth j v 0) then i :: l
      else j :: insert_index v i l'
  end.

Definition argsort (v : vector) : list nat :=
  fold_right (insert_index v) [] (seq 0 (length v)).

(** [M[order]]: the rows of [M] picked by a list of indices. *)
Definition take_rows (M : matrix) (order : list nat) : matrix :=
  map (fun i => nth i M []) order.

(** [v / c] for a scalar [c]. *)
Definition div_scalar (v : vector) (c : R) : vector :=
  map (fun t => t / c) v.

(** [np.minimum(a, b)]. *)
Definition minimum (a b : vector) : vector := zipWith Rmin a b.

(** [M[i, j]], with 0 standing for an entry outside the array in
    statements that range over valid indices only. *)
Definition at2 (M : matrix) (i j : nat) : R := nth j (nth i M []) 0.

(** Every row of [M] has [n] entries. *)
Definition row_len (n : nat) (M : matrix) : Prop :=
  Forall (fun row => length row = n) M.

End Np.

(* ================================================================= *)
(** ** float64 values with the IEEE special values *)

Module NpFloat.

(** A float64 without rounding: a real number, an infinity or NaN.
    The sign of zero is not modelled. *)
Inductive npfloat : Type :=
| Fin (r : R)
| PInf
| NInf
| NaN.

Definition is_finite (a : npfloat) : bool :=
  match a with Fin _ => true | _ => false end.

(** The infinity with the sign of [r]; NaN for [r = 0]. *)
Definition signed_inf (r : R) : npfloat :=
  match total_order_T r 0 with
  | inleft (left _) => NInf
  | inleft (right _) => NaN
  | inright _ => PInf
  end.

Definition add (a b : npfloat) : npfloat :=
  match a, b with
  | Fin r, Fin t => Fin (r + t)
  | NaN, _ | _, NaN => NaN
  | PInf, NInf | NInf, PInf => NaN
  | PInf, _ | _, PInf => PInf
  | NInf, _ | _, NInf => NInf
  end.

Definition mul (a b : npfloat) : npfloat :=
  match a, b with
  | Fin r, Fin t => Fin (r * t)
  | NaN, _ | _, NaN => NaN
  | Fin r, PInf | PInf, Fin r => signed_inf r
  | Fin r, NInf | NInf, Fin r => signed_inf (- r)
  | PInf, PInf | NInf, NInf => PInf
  | PInf, NInf | NInf, PInf => NInf
  end.

(** [np.divide(a, b)]: a division by zero does not raise, it gives an
    infinity (or NaN for 0/0) and a warning. *)
Definition div (a b : npfloat) : npfloat :=
  match a, b with
  | Fin r, Fin t =>
      if Req_dec_T t 0 then signed_inf r else Fin (r / t)
  | NaN, _ | _, NaN => NaN
  | Fin _, PInf | Fin _, NInf => Fin 0
  | PInf, Fin t => if Rlt_dec t 0 then NInf else PInf
  | NInf, Fin t => if Rlt_dec t 0 then PInf else NInf
  | PInf, PInf | PInf, NInf | NInf, PInf | NInf, NInf => NaN
  end.

Definition sum (v : list npfloat) : npfloat := fold_right add (Fin 0) v.

(** [np.dot(A, B)] for [A] of floats and [B] of reals: entry (i, j) is
    the sum over k of [A[i, k] * B[k, j]]. *)
Definition vdot (a : list npfloat) (b : Np.vector) : npfloat :=
  sum (Np.zipWith (fun u t => mul u (Fin t)) a b).

Definition dot (A : list (list npfloat)) (B : Np.matrix)
  : list (list npfloat) :=
  map (fun rowA =>
         map (fun j => vdot rowA (Np.col j B)) (seq 0 (Np.ncols B)))
      A.

End NpFloat.

(* ================================================================= *)
(** ** fibers.py: the fiber container *)

Module Fibers.

(** Modelled from the spec: class [Fiber] of fibers.py, a fiber of
    [pts_per_fiber] points held as one coordinate array per axis. *)
Record Fiber := mkFiber {
  x : Np.vector;
  y : Np.vector;
  z : Np.vector;
  pts : nat
}.

(** Modelled from the spec: class [FiberArray] of fibers.py, N fibers of
    P points as three parallel N x P coordinate arrays. *)
Record FiberArray := mkFiberArray {
  fiberArray_x : Np.matrix;
  fiberArray_y : Np.matrix;
  fiberArray_z : Np.matrix;
  pts_per_fiber : nat;
  no_of_fibers : nat
}.

(** Modelled from the spec: [Fiber.getReverseFiber] of fibers.py, the
    same points in reverse order. *)
Definition getReverseFiber (f : Fiber) : Fiber :=
  mkFiber (rev (x f)) (rev (y f)) (rev (z f)) (pts f).

(** Modelled from the spec: [FiberArray.getFiber] of fibers.py, row
    [fidx] of each coordinate array. *)
Definition getFiber (fa : FiberArray) (fidx : nat) : Fiber :=
  mkFiber (nth fidx (fiberArray_x fa) [])
          (nth fidx (fiberArray_y fa) [])
          (nth fidx (fiberArray_z fa) [])
          (pts_per_fiber fa).

(** The collection holding the given fibers, [P] points each. *)
Definition collection (P : nat) (fs : list Fiber) : FiberArray :=
  mkFiberArray (map x fs) (map y fs) (map z fs) P (length fs).

(** Shape invariants the container maintains. *)
Definition Fiber_wf (P : nat) (f : Fiber) : Prop :=
  length (x f) = P /\ length (y f) = P /\ length (z f) = P /\ pts f = P.

Definition FiberArray_wf (fa : FiberArray) : Prop :=
  length (fiberArray_x fa) = no_of_fibers fa /\
  length (fiberArray_y fa) = no_of_fibers fa /\
  length (fiberArray_z fa) = no_of_fibers fa /\
  Np.row_len (pts_per_fiber fa) (fiberArray_x fa) /\
  Np.row_len (pts_per_fiber fa) (fiberArray_y fa) /\
  Np.row_len (pts_per_fiber fa) (fiberArray_z fa).

End Fibers.

(* ================================================================= *)
(** ** distance.py *)

Module Distance.
Import Fibers.

(** [_fiberDistance_internal(fiber, fiberArray)]: mean squared distance
    between corresponding points of [fiber] and of each fiber of the
    array. *)
Definition _fiberDistance_internal (fiber : Fiber)
           (fiberArray : FiberArray) : Np.vector :=
  let dx := Np.sub_rows (fiberArray_x fiberArray) (x fiber) in
  let dy := Np.sub_rows (fiberArray_y fiberArray) (y fiber) in
  let dz := Np.sub_rows (fiberArray_z fiberArray) (z fiber) in
  let dx_sq := Np.square dx in
  let dy_sq := Np.square dy in
  let dz_sq := Np.square dz in
  let distance := Np.add (Np.add dx_sq dy_sq) dz_sq in
  let distance := Np.sum_axis1 distance in
  Np.div_scalar distance (INR (pts_per_fiber fiberArray)).

(** [fiberDistance(fiber, fiberArray)]: the smaller of the distances of
    the fiber as stored and of the fiber traversed backwards. *)
Definition fiberDistance (fiber : Fiber) (fiberArray : FiberArray)
  : Np.vector :=
  let fiberEquiv := getReverseFiber fiber in
  let distance1 := _fiberDistance_internal fiber fiberArray in
  let distance2 := _fiberDistance_internal fiberEquiv fiberArray in
  Np.minimum distance1 distance2.

(** [gausKernel_similarity(distance, sigmasq)] on a scalar and on a
    matrix. *)
Definition gausKernel (distance sigmasq : R) : R :=
  exp (- distance / (2 * sigmasq)).

Definition gausKernel_similarity (distance : Np.matrix) (sigmasq : R)
  : Np.matrix :=
  map (map (fun d => gausKernel d sigmasq)) distance.

(** [_scalarDistance_internal(fiberScalar, fiberScalarArray)]: mean
    squared difference between the scalar profile of one fiber and each
    profile of the array; the divisor is the length of the single
    profile. *)
Definition _scalarDistance_internal (fiberScalar : Np.vector)
           (fiberScalarArray : Np.matrix) : Np.vector :=
  let dq := Np.sub_rows fiberScalarArray fiberScalar in
  let dq_sq := Np.square dq in
  let pts_per_fiber := length fiberScalar in
  let qDistance := Np.sum_axis1 dq_sq in
  Np.div_scalar qDistance (INR pts_per_fiber).

(** [scalarDistance(fiberScalar, fiberScalarArray)]. *)
Definition scalarDistance (fiberScalar : Np.vector)
           (fiberScalarArray : Np.matrix) : Np.vector :=
  _scalarDistance_internal fiberScalar fiberScalarArray.

End Distance.

(* ================================================================= *)
(** ** sklearn.preprocessing.MinMaxScaler *)

Module Sklearn.

(** [_handle_zeros_in_scale]: a zero range is replaced by 1. *)
Definition _handle_zeros_in_scale (scale : Np.vector) : Np.vector :=
  map (fun t => if Req_dec_T t 0 then 1 else t) scale.

(** [MinMaxScaler().fit_transform(X)] with the default feature range
    (0, 1): the library fits one minimum and one range per column
    (feature) and maps [X] to [X * scale_ + min_]. *)
Definition MinMaxScaler_fit_transform (X : Np.matrix) : Np.matrix :=
  let data_min := Np.min_axis0 X in
  let data_max := Np.max_axis0 X in
  let data_range := Np.zipWith Rminus data_max data_min in
  let scale_ :=
    map (fun t => (1 - 0) / t) (_handle_zeros_in_scale data_range) in
  let min_ := Np.zipWith (fun m t => 0 - m * t) data_min scale_ in
  map (fun row => Np.zipWith Rplus (Np.zipWith Rmult row scale_) min_) X.

End Sklearn.

(* ================================================================= *)
(** ** vtk: the geometry object and its attached arrays *)

Module Vtk.

(** A data array attached to the geometry. *)
Inductive vtkArray : Type :=
| vtkUnsignedCharArray (name : string) (components : nat)
                       (tuples : list (list Z))
| vtkIntArray (name : string) (values : list Z).

Definition GetName (a : vtkArray) : string :=
  match a with
  | vtkUnsignedCharArray n _ _ => n
  | vtkIntArray n _ => n
  end.

(** The polydata object: its lines (one per fiber), the arrays of its
    cell data and the active scalars of its point data. *)
Record vtkPolyData := mkPolyData {
  lines : list (list (R * R * R));
  cellData : list vtkArray;
  pointScalars : option vtkArray
}.

Definition GetNumberOfLines (pd : vtkPolyData) : nat := length (lines pd).

(** [GetCellData().AddArray(a)]: an array of the same name is replaced
    where it stands; otherwise the array is added at the end. *)
Fixpoint replace_or_append (a : vtkArray) (l : list vtkArray)
  : list vtkArray :=
  match l with
  | [] => [a]
  | b :: l' =>
      if String.eqb (GetName b) (GetName a) then a :: l'
      else b :: replace_or_append a l'
  end.

Definition AddArray (a : vtkArray) (pd : vtkPolyData) : vtkPolyData :=
  mkPolyData (lines pd) (replace_or_append a (cellData pd))
             (pointScalars pd).

(** [GetPointData().SetScalars(a)]. *)
Definition SetScalars (a : vtkArray) (pd : vtkPolyData) : vtkPolyData :=
  mkPolyData (lines pd) (cellData pd) (Some a).

(** The value an unsigned char array stores for a double: the
    conversion truncates toward zero, so that a value of (-1, 256) is
    stored as its integer part; outside of that range C leaves it
    undefined, and the model takes the low byte of the truncation, and
    0 for an infinity or NaN. *)
Definition to_uchar (v : NpFloat.npfloat) : Z :=
  match v with
  | NpFloat.Fin r =>
      ((if Rlt_dec r 0 then Zceil r else Zfloor r) mod 256)%Z
  | _ => 0%Z
  end.

End Vtk.

(* ================================================================= *)
(** ** cluster.py *)

Module Cluster.
Import Fibers Vtk.

(** *** Effects: printing, exceptions and the shared geometry object *)

Inductive exn : Type :=
| IndexError
| LinAlgError
| ClusterError.

(** One printed line: its text and the integer printed after it. *)
Inductive printed : Type :=
| Line (text : string)
| LineInt (text : string) (n : Z).

(** What a run can observe and change: the lines printed so far, the
    polydata object that [inputVTK] refers to, and (ghost) the matrix
    builders entered so far. *)
Record world := mkWorld {
  stdout : list printed;
  geometry : vtkPolyData;
  entered : list string
}.

Inductive res (A : Type) : Type :=
| Val (a : A)
| Exc (e : exn).
Arguments Val {A} a.
Arguments Exc {A} e.

Definition M (A : Type) : Type := world -> res A * world.

Definition ret {A : Type} (a : A) : M A := fun w => (Val a, w).

Definition bind {A B : Type} (m : M A) (k : A -> M B) : M B :=
  fun w => match m w with
           | (Val a, w') => k a w'
           | (Exc e, w') => (Exc e, w')
           end.

Definition raise {A : Type} (e : exn) : M A := fun w => (Exc e, w).

Definition print (p : printed) : M unit :=
  fun w => (Val tt, mkWorld (stdout w ++ [p]) (geometry w) (entered w)).

Definition enter (name : string) : M unit :=
  fun w => (Val tt, mkWorld (stdout w) (geometry w) (entered w ++ [name])).

Definition get_geometry : M vtkPolyData := fun w => (Val (geometry w), w).

Definition modify_geometry (f : vtkPolyData -> vtkPolyData) : M unit :=
  fun w => (Val tt, mkWorld (stdout w) (f (geometry w)) (entered w)).

(** An exception of a library call or of an index out of range. *)
Definition lift {A : Type} (e : exn) (o : option A) : M A :=
  match o with
  | Some a => ret a
  | None => raise e
  end.

Notation "x <- m ;; k" := (bind m (fun x => k))
  (at level 61, m at next level, right associativity).
Notation "m ;;; k" := (bind m (fun _ => k))
  (at level 61, right associativity).

(** *** The numeric stages *)

(** Rows of the distance matrix before normalisation: row [fidx] is
    [fiberDistance(fiberArray.getFiber(fidx), fiberArray)]; the parallel
    map returns the rows in index order. *)
Definition distance_rows (fiberArray : FiberArray) : Np.matrix :=
  map (fun fidx =>
         Distance.fiberDistance (getFiber fiberArray fidx) fiberArray)
      (seq 0 (no_of_fibers fiberArray)).

(** [_degreeMatrix(inputMatrix)]. *)
Definition _degreeMatrix (inputMatrix : Np.matrix) : Np.matrix :=
  Np.diag 0 (Np.sum_axis0 inputMatrix).

(** Steps 2 to 4 of [spectralClustering]: the degree matrix, the
    unnormalized Laplacian and the random-walk Laplacian
    [np.dot(np.diag(np.divide(1, np.sum(D, 0))), L)]. *)
Definition randomWalkLaplacian (W : Np.matrix)
  : list (list NpFloat.npfloat) :=
  let D := _degreeMatrix W in
  let L := Np.sub D W in
  NpFloat.dot
    (Np.diag (NpFloat.Fin 0)
             (map (fun d => NpFloat.div (NpFloat.Fin 1) (NpFloat.Fin d))
                  (Np.sum_axis0 D)))
    L.

(** [_cluster_to_rgb(data)]. *)
Definition _cluster_to_rgb (data : Np.matrix)
  : list (list NpFloat.npfloat) :=
  let colour := map (firstn 3) data in
  let colour_len :=
    map (fun row => sqrt (Np.sum (map (fun c => c ^ 2) row))) colour in
  let colour :=
    Np.zipWith
      (fun row len =>
         map (fun c => NpFloat.div (NpFloat.Fin c) (NpFloat.Fin len)) row)
      colour colour_len in
  map (map (fun c => NpFloat.add (NpFloat.Fin 127.5)
                                 (NpFloat.mul c (NpFloat.Fin 127.5))))
      colour.

(** [l[0:k]] for a Python integer [k]. *)
Definition slice_to {A : Type} (k : Z) (l : list A) : list A :=
  if (k <? 0)%Z
  then firstn (Z.to_nat (Z.of_nat (length l) + k)) l
  else firstn (Z.to_nat k) l.

(** The loop of [_format_outputVTK]: one colour tuple and one cluster
    number per line of the polydata. *)
Fixpoint format_rows (fidxs : list nat) (clusterIdx : list nat)
         (colour : list (list NpFloat.npfloat))
  : option (list (list Z) * list Z) :=
  match fidxs with
  | [] => Some ([], [])
  | fidx :: rest =>
      match nth_error clusterIdx fidx with
      | None => None
      | Some c =>
          match nth_error colour c with
          | None => None
          | Some row =>
              match nth_error row 0, nth_error row 1, nth_error row 2 with
              | Some c0, Some c1, Some c2 =>
                  match format_rows rest clusterIdx colour with
                  | Some (tuples, numbers) =>
                      Some ([to_uchar c0; to_uchar c1; to_uchar c2]
                              :: tuples,
                            Z.of_nat c :: numbers)
                  | None => None
                  end
              | _, _, _ => None
              end
          end
      end
  end.

(** [_format_outputVTK(polyData, clusterIdx, colour, data)], with
    [polyData] the shared geometry object. *)
Definition _format_outputVTK (clusterIdx : list nat)
           (colour : list (list NpFloat.npfloat)) : M vtkPolyData :=
  polyData <- get_geometry ;;
  rows <- lift IndexError
            (format_rows (seq 0 (GetNumberOfLines polyData))
                         clusterIdx colour) ;;
  let dataColour := vtkUnsignedCharArray "DataColour" 3 (fst rows) in
  let clusterColour := vtkIntArray "ClusterNumber" (snd rows) in
  modify_geometry (AddArray dataColour) ;;;
  modify_geometry (AddArray clusterColour) ;;;
  modify_geometry (SetScalars dataColour) ;;;
  get_geometry.

Section Pipeline.

(** [fibers.FiberArray.convertFromVTK]: the resampling of the lines
    of the polydata to a fixed number of points. *)
Variable convertFromVTK : vtkPolyData -> nat -> FiberArray.

(** [np.linalg.eig]: the eigenvectors as the columns of a matrix, in
    the solver's order, real parts only; the solver may raise. *)
Variable eig : list (list NpFloat.npfloat) -> option Np.matrix.

(** [scipy.cluster.vq.kmeans2(U, k, minit='points')]: one k-means
    solution, the centroids and a label per row of [U]. *)
Variable kmeans2 : Np.matrix -> Z -> option (Np.matrix * list nat).

(** [_pairwiseDistance_matrix(inputVTK, sigma, no_of_jobs)]. *)
Definition _pairwiseDistance_matrix (inputVTK : vtkPolyData)
           (sigma : R) (no_of_jobs : Z) : Np.matrix :=
  let fiberArray := convertFromVTK inputVTK 20 in
  let distances := distance_rows fiberArray in
  Sklearn.MinMaxScaler_fit_transform distances.

(** [_pairwiseSimilarity_matrix(inputVTK, sigma, no_of_jobs)]. *)
Definition _pairwiseSimilarity_matrix (inputVTK : vtkPolyData)
           (sigma : R) (no_of_jobs : Z) : Np.matrix :=
  let distances := _pairwiseDistance_matrix inputVTK sigma no_of_jobs in
  let sigmasq := Np.sq sigma in
  Distance.gausKernel_similarity distances sigmasq.

(** [spectralClustering(inputVTK, k_clusters, no_of_eigvec, sigma,
    no_of_jobs)], with [inputVTK] the shared geometry object; the result
    is [None] for the bare [return].  The parameters [scalarData] and
    [scalarType] are not read by the function; [U.astype('float')] keeps
    the real parts, which is all the model holds; [centroid_order] is
    computed and not read again. *)
Definition spectralClustering (k_clusters no_of_eigvec : Z) (sigma : R)
           (no_of_jobs : Z)
  : M (option (vtkPolyData * list nat * list (list NpFloat.npfloat)
               * Np.matrix)) :=
  if (no_of_eigvec =? 1)%Z then
    print (Line "Clustering cannot be performed with single eigenvector!") ;;;
    ret None
  else
    inputVTK <- get_geometry ;;
    let noFibers := GetNumberOfLines inputVTK in
    if (noFibers =? 0)%nat then
      print (Line "ERROR: Input data has 0 fibers!") ;;;
      ret None
    else
      print (Line "Starting clustering...") ;;;
      print (LineInt "No. of fibers:" (Z.of_nat noFibers)) ;;;
      print (LineInt "No. of clusters:" k_clusters) ;;;
      enter "_pairwiseSimilarity_matrix" ;;;
      let W := _pairwiseSimilarity_matrix inputVTK sigma no_of_jobs in
      let Lrw := randomWalkLaplacian W in
      eigvec <- lift LinAlgError (eig Lrw) ;;
      let U := map (slice_to no_of_eigvec) eigvec in
      km <- lift ClusterError (kmeans2 U k_clusters) ;;
      let centroids := fst km in
      let clusterIdx := snd km in
      let centroid_order := Np.argsort (Np.col 0 centroids) in
      let colour :=
        if (no_of_eigvec =? 2)%Z then _cluster_to_rgb U
        else _cluster_to_rgb centroids in
      outputPolydata <- _format_outputVTK clusterIdx colour ;;
      ret (Some (outputPolydata, clusterIdx, colour, centroids)).

End Pipeline.

Section QuantitativePipeline.

Variable convertFromVTK : vtkPolyData -> nat -> FiberArray.

(** The scalar data handed to the pipeline and the name of a scalar. *)
Variables ScalarData ScalarType : Type.

(** Modelled from the spec: [scalars.FiberArrayScalar.addScalar] of
    scalars.py, which is not part of the sources at hand.  The scalar
    profile of a type is one value per point per fiber, an N x P table
    aligned with the fiber array; [getScalar] gives row [fidx] of it and
    [getScalars] the rows of a list of indices. *)
Variable addScalar :
  vtkPolyData -> FiberArray -> ScalarData -> ScalarType -> Np.matrix.

Definition getScalar (table : Np.matrix) (fidx : nat) : Np.vector :=
  nth fidx table [].

Definition getScalars (table : Np.matrix) (fidxs : list nat) : Np.matrix :=
  map (fun fidx => nth fidx table []) fidxs.

(** Rows of the scalar distance matrix before the conditional
    normalisation. *)
Definition qdistance_rows (table : Np.matrix) (no_of_fibers : nat)
  : Np.matrix :=
  map (fun fidx =>
         Distance.scalarDistance (getScalar table fidx)
           (getScalars table (seq 0 no_of_fibers)))
      (seq 0 no_of_fibers).

(** [np.max] of a whole matrix. *)
Definition max_all (M : Np.matrix) : R := Np.vmax (concat M).

(** The normalisation of [_pairwiseQDistance_matrix]: only when some
    entry exceeds 1. *)
Definition normalize_if_above_one (qDistances : Np.matrix) : Np.matrix :=
  if Rlt_dec 1 (max_all qDistances)
  then Sklearn.MinMaxScaler_fit_transform qDistances
  else qDistances.

(** [_pairwiseQDistance_matrix(inputVTK, scalarData, scalarType,
    no_of_jobs)]. *)
Definition _pairwiseQDistance_matrix (inputVTK : vtkPolyData)
           (scalarData : ScalarData) (scalarType : ScalarType)
           (no_of_jobs : Z) : Np.matrix :=
  let fiberArray := convertFromVTK inputVTK 20 in
  let no_of_fibers := no_of_fibers fiberArray in
  let scalarArray := addScalar inputVTK fiberArray scalarData scalarType in
  let qDistances := qdistance_rows scalarArray no_of_fibers in
  normalize_if_above_one qDistances.

(** [_pairwiseQSimilarity_matrix(inputVTK, scalarData, scalarType, sigma,
    no_of_jobs)]. *)
Definition _pairwiseQSimilarity_matrix (inputVTK : vtkPolyData)
           (scalarData : ScalarData) (scalarType : ScalarType)
           (sigma : R) (no_of_jobs : Z) : Np.matrix :=
  let qDistances :=
    _pairwiseQDistance_matrix inputVTK scalarData scalarType no_of_jobs in
  let sigmasq := Np.sq sigma in
  Distance.gausKernel_similarity qDistances sigmasq.

End QuantitativePipeline.

End Cluster.

(* ================================================================= *)
(** ** distance.py on rounded numbers *)

Module Rounded.

(** The arithmetic an array is computed with.  The definitions of this
    module are those of [Distance] and of the distance rows with every
    numpy operation taken from an instance of this class: float64
    itself, for evaluating the code on given numbers, and the reals
    rounded after every operation, for what holds of every input.
    [sum] is [np.sum] of one row: numpy adds the entries of a row with
    the additions of the arithmetic in an order of its own, the index
    order for a row of fewer than 8 entries and blocks of 8 for a longer
    one. *)
Class Arith (T : Type) := mkArith {
  zero : T;
  add : T -> T -> T;
  sub : T -> T -> T;
  mul : T -> T -> T;
  div : T -> T -> T;
  minimum : T -> T -> T;
  of_nat : nat -> T;
  sum : list T -> T
}.

(** Adding the entries one after the other in index order, starting
    from 0. *)
Definition sum_in_order {T : Type} (add : T -> T -> T) (zero : T)
           (v : list T) : T :=
  fold_left add v zero.

(** The order in which numpy adds a row (its pairwise summation): a row
    of fewer than 8 entries in index order; a row of up to 128 entries
    with 8 accumulators, accumulator j taking the entries j, j + 8,
    j + 16, ..., which are then added as
    [((r0 + r1) + (r2 + r3)) + ((r4 + r5) + (r6 + r7))], followed by the
    entries left over; a longer row as the sum of two parts, the first
    of which holds a multiple of 8 entries.  The reduction starts from 0
    and adds the sum of the row to it. *)
Section Pairwise.

Context {T : Type} (add : T -> T -> T) (zero : T).

Definition sum8 (r : list T) : T :=
  match r with
  | [r0; r1; r2; r3; r4; r5; r6; r7] =>
      add (add (add r0 r1) (add r2 r3)) (add (add r4 r5) (add r6 r7))
  | _ => zero
  end.

Fixpoint add_blocks (fuel : nat) (r l : list T) : list T * list T :=
  match fuel with
  | O => (r, l)
  | S fuel' =>
      if (8 <=? length l)%nat
      then add_blocks fuel' (Np.zipWith add r (firstn 8 l)) (skipn 8 l)
      else (r, l)
  end.

Definition sum_block (l : list T) : T :=
  let (r, rest) := add_blocks (length l) (firstn 8 l) (skipn 8 l) in
  fold_left add rest (sum8 r).

Fixpoint pairwise_sum (fuel : nat) (l : list T) : T :=
  if (length l <? 8)%nat then fold_left add l zero
  else if (length l <=? 128)%nat then sum_block l
  else match fuel with
       | O => zero
       | S fuel' =>
           let n2 := (length l / 2 - (length l / 2) mod 8)%nat in
           add (pairwise_sum fuel' (firstn n2 l))
               (pairwise_sum fuel' (skipn n2 l))
       end.

Definition np_sum (l : list T) : T :=
  add zero (pairwise_sum (length l) l).

End Pairwise.

(** Modelled from the spec: classes [Fiber] and [FiberArray] of
    fibers.py, as in [Fibers], over the numbers of the arithmetic. *)
Record Fiber (T : Type) := mkFiber {
  x : list T;
  y : list T;
  z : list T;
  pts : nat
}.

Arguments mkFiber {T} _ _ _ _.
Arguments x {T} _.
Arguments y {T} _.
Arguments z {T} _.
Arguments pts {T} _.

Record FiberArray (T : Type) := mkFiberArray {
  fiberArray_x : list (list T);
  fiberArray_y : list (list T);
  fiberArray_z : list (list T);
  pts_per_fiber : nat;
  no_of_fibers : nat
}.

Arguments mkFiberArray {T} _ _ _ _ _.
Arguments fiberArray_x {T} _.
Arguments fiberArray_y {T} _.
Arguments fiberArray_z {T} _.
Arguments pts_per_fiber {T} _.
Arguments no_of_fibers {T} _.

Section Arrays.

Context {T : Type} {A : Arith T}.

(** Modelled from the spec: [Fiber.getReverseFiber],
    [FiberArray.getFiber] and the shape invariants of fibers.py. *)
Definition getReverseFiber (f : Fiber T) : Fiber T :=
  mkFiber (rev (x f)) (rev (y f)) (rev (z f)) (pts f).

Definition getFiber (fa : FiberArray T) (fidx : nat) : Fiber T :=
  mkFiber (nth fidx (fiberArray_x fa) [])
          (nth fidx (fiberArray_y fa) [])
          (nth fidx (fiberArray_z fa) [])
          (pts_per_fiber fa).

Definition collection (P : nat) (fs : list (Fiber T)) : FiberArray T :=
  mkFiberArray (map x fs) (map y fs) (map z fs) P (length fs).

Definition Fiber_wf (P : nat) (f : Fiber T) : Prop :=
  length (x f) = P /\ length (y f) = P /\ length (z f) = P /\ pts f = P.

Definition FiberArray_wf (fa : FiberArray T) : Prop :=
  length (fiberArray_x fa) = no_of_fibers fa /\
  length (fiberArray_y fa) = no_of_fibers fa /\
  length (fiberArray_z fa) = no_of_fibers fa /\
  Forall (fun row => length row = pts_per_fiber fa) (fiberArray_x fa) /\
  Forall (fun row => length row = pts_per_fiber fa) (fiberArray_y fa) /\
  Forall (fun row => length row = pts_per_fiber fa) (fiberArray_z fa).

(** [np.square] on a scalar. *)
Definition square (t : T) : T := mul t t.

(** [_fiberDistance_internal(fiber, fiberArray)]. *)
Definition _fiberDistance_internal (fiber : Fiber T)
           (fiberArray : FiberArray T) : list T :=
  let dx := map (fun row => Np.zipWith sub row (x fiber))
                (fiberArray_x fiberArray) in
  let dy := map (fun row => Np.zipWith sub row (y fiber))
                (fiberArray_y fiberArray) in
  let dz := map (fun row => Np.zipWith sub row (z fiber))
                (fiberArray_z fiberArray) in
  let dx_sq := map (map square) dx in
  let dy_sq := map (map square) dy in
  let dz_sq := map (map square) dz in
  let distance :=
    Np.zipWith (Np.zipWith add)
               (Np.zipWith (Np.zipWith add) dx_sq dy_sq) dz_sq in
  let distance := map sum distance in
  map (fun t => div t (of_nat (pts_per_fiber fiberArray))) distance.

(** [fiberDistance(fiber, fiberArray)]. *)
Definition fiberDistance (fiber : Fiber T) (fiberArray : FiberArray T)
  : list T :=
  let fiberEquiv := getReverseFiber fiber in
  let distance1 := _fiberDistance_internal fiber fiberArray in
  let distance2 := _fiberDistance_internal fiberEquiv fiberArray in
  Np.zipWith minimum distance1 distance2.

(** The rows of the distance matrix before normalisation, as
    [_pairwiseDistance_matrix] of cluster.py collects them. *)
Definition distance_rows (fiberArray : FiberArray T) : list (list T) :=
  map (fun fidx => fiberDistance (getFiber fiberArray fidx) fiberArray)
      (seq 0 (no_of_fibers fiberArray)).

(** The squared distances of the corresponding points of two fibers,
    and their mean as [_fiberDistance_internal] computes it. *)
Definition sqdist (g f : Fiber T) : list T :=
  Np.zipWith add
    (Np.zipWith add (map square (Np.zipWith sub (x g) (x f)))
                    (map square (Np.zipWith sub (y g) (y f))))
    (map square (Np.zipWith sub (z g) (z f))).

Definition meanSquared (P : nat) (f g : Fiber T) : T :=
  div (sum (sqdist g f)) (of_nat P).

(** The distance of the pair: the smaller of the two orientations. *)
Definition pairDistance (P : nat) (f g : Fiber T) : T :=
  minimum (meanSquared P f g) (meanSquared P (getReverseFiber f) g).

End Arrays.

(** *** float64 *)

(** [float(n)] for a number of points. *)
Fixpoint float_of_nat (n : nat) : PrimFloat.float :=
  match n with
  | O => PrimFloat.zero
  | S k => PrimFloat.add (float_of_nat k) PrimFloat.one
  end.

(** The IEEE binary64 operations; [np.minimum] returns its first
    argument when it is the smaller one or NaN; [np.sum] adds in
    numpy's order. *)
Definition float64 : Arith PrimFloat.float := {|
  zero := PrimFloat.zero;
  add := PrimFloat.add;
  sub := PrimFloat.sub;
  mul := PrimFloat.mul;
  div := PrimFloat.div;
  minimum := fun a b =>
    if (PrimFloat.leb a b || PrimFloat.is_nan a)%bool then a else b;
  of_nat := float_of_nat;
  sum := np_sum PrimFloat.add PrimFloat.zero
|}.

(** *** Reals rounded after every operation *)

(** Every operation returns the exact result rounded by [rnd]; the
    order in which [np.sum] adds is a parameter. *)
Definition rounded (rnd : R -> R) (row_sum : list R -> R) : Arith R := {|
  zero := 0;
  add := fun a b => rnd (a + b);
  sub := fun a b => rnd (a - b);
  mul := fun a b => rnd (a * b);
  div := fun a b => rnd (a / b);
  minimum := Rmin;
  of_nat := fun n => rnd (INR n);
  sum := row_sum
|}.

(** The rounded arithmetics whose [np.sum] adds in numpy's order and in
    index order. *)
Definition rounded_numpy (rnd : R -> R) : Arith R :=
  rounded rnd (np_sum (fun a b => rnd (a + b)) 0).

Definition rounded_in_order (rnd : R -> R) : Arith R :=
  rounded rnd (sum_in_order (fun a b => rnd (a + b)) 0).

(** The standard model of floating-point arithmetic: a rounded result
    differs from the exact one by a relative error of at most [u], and
    rounding is symmetric about 0.  Rounding to the nearest float64 has
    these properties with u = 2^-53 for every result in the normal
    range. *)
Definition rounding (u : R) (rnd : R -> R) : Prop :=
  0 <= u < 1
  /\ (forall t, Rabs (rnd t - t) <= u * Rabs t)
  /\ (forall t, rnd (- t) = - rnd t).

(** [Summed rnd k l s]: [s] is obtained from the numbers of [l], each
    of them used once, by rounded additions, and no number passes
    through more than [k] additions. *)
Inductive Summed (rnd : R -> R) : nat -> list R -> R -> Prop :=
| Summed_zero : forall k, Summed rnd k [] 0
| Summed_one : forall k t, Summed rnd k [t] t
| Summed_add : forall k l1 l2 s1 s2,
    Summed rnd k l1 s1 -> Summed rnd k l2 s2 ->
    Summed rnd (S k) (l1 ++ l2) (rnd (s1 + s2))
| Summed_perm : forall k l l' s,
    Permutation l l' -> Summed rnd k l s -> Summed rnd k l' s.

(** What is assumed of [np.sum]: it adds the entries of the row with
    rounded additions, in any order and grouping, and an entry passes
    through no more additions than the row has entries, plus one for the
    initial 0.  Adding in numpy's order and adding in index order both
    do so. *)
Definition summation (rnd : R -> R) (row_sum : list R -> R) : Prop :=
  forall l, Summed rnd (S (length l)) l (row_sum l).

(** The factor within which two roundings of the mean of [P] squared
    distances agree: [P + 1] additions at most and one division. *)
Definition tolerance (u : R) (P : nat) : R :=
  ((1 + u) / (1 - u)) ^ (S (S P)).

(** *** The kernel with the underflow and the saturation of [np.exp] *)

(** [np.exp] on float64 at the two ends of the kernel's range: a result
    of at most 2^-1075, half of the smallest positive float64, is
    returned as 0.0, and a result between 1 - 2^-54 and 1 + 2^-53, the
    midpoints between 1 and its neighbours, is returned as 1.0; the
    rounding of the other results is not modelled. *)
Definition np_exp (t : R) : R :=
  if Rle_dec (exp t) (/ 2 ^ 1075) then 0
  else if Rle_dec (1 - / 2 ^ 54) (exp t)
       then if Rle_dec (exp t) (1 + / 2 ^ 53) then 1 else exp t
       else exp t.

(** [gausKernel_similarity(distance, sigmasq)] on a scalar. *)
Definition gausKernel (distance sigmasq : R) : R :=
  np_exp (- distance / (2 * sigmasq)).

End Rounded.

(* ================================================================= *)
(** ** Vocabulary of the statements *)

Module Spec.

(** Sum of squared differences of two coordinate arrays. *)
Definition ssd (a b : Np.vector) : R :=
  Np.sum (map Np.sq (Np.zipWith Rminus a b)).

(** Positional mean squared distance of fiber [g] from fiber [f]. *)
Definition meanSquared (P : nat) (f g : Fibers.Fiber) : R :=
  (ssd (Fibers.x g) (Fibers.x f) + ssd (Fibers.y g) (Fibers.y f)
   + ssd (Fibers.z g) (Fibers.z f)) / INR P.

(** The distance of the pair: the smaller of the two orientations. *)
Definition pairDistance (P : nat) (f g : Fibers.Fiber) : R :=
  Rmin (meanSquared P f g) (meanSquared P (Fibers.getReverseFiber f) g).

(** The scaling as the specification words it: one minimum and one
    maximum taken over all entries of the matrix. *)
Definition global_minmax (X : Np.matrix) : Np.matrix :=
  let lo := Np.vmin (concat X) in
  let hi := Np.vmax (concat X) in
  let range := hi - lo in
  map (map (fun t => (t - lo) / (if Req_dec_T range 0 then 1 else range)))
      X.

(** The centroids in the order the specification describes: ascending
    first coordinate. *)
Definition ordered_centroids (centroids : Np.matrix) : Np.matrix :=
  Np.take_rows centroids (Np.argsort (Np.col 0 centroids)).

(** One colour component as the specification derives it: component
    [k] of the first three dimensions of [row], divided by their
    Euclidean length, mapped by [127.5 + value * 127.5]. *)
Definition colour_norm (row : Np.vector) : R :=
  sqrt (Np.sum (map (fun c => c ^ 2) (firstn 3 row))).

Definition rgb_component (row : Np.vector) (k : nat) : NpFloat.npfloat :=
  NpFloat.add (NpFloat.Fin 127.5)
    (NpFloat.mul
       (NpFloat.div (NpFloat.Fin (nth k row 0))
                    (NpFloat.Fin (colour_norm row)))
       (NpFloat.Fin 127.5)).

End Spec.

(* ================================================================= *)
(** ** A small data set: three parallel straight fibers *)

Module Example.

(** A line of 20 points [(a, 0, k)], k = 0 .. 19. *)
Definition line_at (a : R) : list (R * R * R) :=
  map (fun k => (a, 0, IZR k))
      [0; 1; 2; 3; 4; 5; 6; 7; 8; 9;
       10; 11; 12; 13; 14; 15; 16; 17; 18; 19]%Z.

Definition fiber_of_line (P : nat) (l : list (R * R * R)) : Fibers.Fiber :=
  Fibers.mkFiber (map (fun p => fst (fst p)) l)
                 (map (fun p => snd (fst p)) l)
                 (map snd l) P.

(** The conversion for a polydata whose lines already hold [P] evenly
    spaced points each: nothing is to be resampled. *)
Definition resampled (pd : Vtk.vtkPolyData) (P : nat) : Fibers.FiberArray :=
  Fibers.collection P (map (fiber_of_line P) (Vtk.lines pd)).

(** Three lines at x = 0, 1 and 3. *)
Definition polydata : Vtk.vtkPolyData :=
  Vtk.mkPolyData [line_at 0; line_at 1; line_at 3] [] None.

Definition raw : Np.matrix := [[0; 1; 9]; [1; 0; 4]; [9; 4; 0]].

Definition normalized : Np.matrix :=
  [[0; 1 / 4; 1]; [1 / 9; 0; 4 / 9]; [1; 1; 0]].

(** A solver answer and a k-means solution for the three fibers: every
    fiber is a cluster of its own, the centroids are the rows of the
    embedding. *)
Definition eigvec : Np.matrix := [[1; 0; 0]; [0; 1; 0]; [0; 0; 1]].

Definition centroids : Np.matrix := [[1; 0; 0]; [0; 1; 0]; [0; 0; 1]].

Definition labels : list nat := [0; 1; 2]%nat.

Definition eig (Lrw : list (list NpFloat.npfloat)) : option Np.matrix :=
  Some eigvec.

Definition kmeans2 (U : Np.matrix) (k : Z) : option (Np.matrix * list nat) :=
  Some (centroids, labels).

(** A k-means solution with two clusters on the first two eigenvectors:
    the first fiber alone, the other two together. *)
Definition kmeans2_two (U : Np.matrix) (k : Z)
  : option (Np.matrix * list nat) :=
  Some ([[1; 0]; [0; 1 / 2]], [0; 1; 1]%nat).

Definition world : Cluster.world := Cluster.mkWorld [] polydata [].

(** The colour of a unit vector along each of the three axes. *)
Definition colours : list (list NpFloat.npfloat) :=
  [[NpFloat.Fin 255; NpFloat.Fin 127.5; NpFloat.Fin 127.5];
   [NpFloat.Fin 127.5; NpFloat.Fin 255; NpFloat.Fin 127.5];
   [NpFloat.Fin 127.5; NpFloat.Fin 127.5; NpFloat.Fin 255]].

(** Two fibers of three float64 points each: a straight one along the
    z axis, and one running the other way at x = 0.2, 0.7 and 1. *)
Definition fiberA : Rounded.Fiber PrimFloat.float :=
  Rounded.mkFiber [0; 0; 0]%float [0; 0; 0]%float [0; 1; 2]%float 3.

Definition fiberB : Rounded.Fiber PrimFloat.float :=
  Rounded.mkFiber [0.2; 0.7; 1]%float [0; 0; 0]%float [2; 1; 0]%float 3.

End Example.


(* ================================================================= *)
(** * Properties *)

Import Distance.

(** ** List and sum lemmas *)

Lemma zipWith_length {A B C} (f : A -> B -> C) (a : list A) (b : list B) :
  length a = length b -> length (Np.zipWith f a b) = length a.
Proof.
  revert b; induction a as [|u a IH]; intros [|v b] H; simpl in *;
    try reflexivity; try discriminate.
  f_equal. apply IH. lia.
Qed.

Lemma zipWith_app {A B C} (f : A -> B -> C) (a1 a2 : list A) (b1 b2 : list B) :
  length a1 = length b1 ->
  Np.zipWith f (a1 ++ a2) (b1 ++ b2) = Np.zipWith f a1 b1 ++ Np.zipWith f a2 b2.
Proof.
  revert b1; induction a1 as [|u a1 IH]; intros [|v b1] H; simpl in *;
    try reflexivity; try discriminate.
  f_equal. apply IH. lia.
Qed.

Lemma zipWith_rev {A B C} (f : A -> B -> C) (a : list A) (b : list B) :
  length a = length b ->
  Np.zipWith f (rev a) (rev b) = rev (Np.zipWith f a b).
Proof.
  revert b; induction a as [|u a IH]; intros [|v b] H; simpl in *;
    try reflexivity; try discriminate.
  rewrite zipWith_app by (rewrite !length_rev; lia).
  rewrite IH by lia. reflexivity.
Qed.

Lemma sum_nil : Np.sum [] = 0.
Proof. reflexivity. Qed.

Lemma sum_cons (u : R) (a : Np.vector) : Np.sum (u :: a) = u + Np.sum a.
Proof. reflexivity. Qed.

Lemma sum_app (a b : Np.vector) : Np.sum (a ++ b) = Np.sum a + Np.sum b.
Proof.
  induction a as [|u a IH].
  - rewrite sum_nil. simpl. lra.
  - rewrite <- app_comm_cons, !sum_cons, IH. lra.
Qed.

Lemma sum_rev (a : Np.vector) : Np.sum (rev a) = Np.sum a.
Proof.
  induction a as [|u a IH]; [reflexivity|].
  cbn [rev]. rewrite sum_app, IH, !sum_cons, sum_nil. lra.
Qed.

Lemma sum_zipWith_plus (a b : Np.vector) :
  length a = length b ->
  Np.sum (Np.zipWith Rplus a b) = Np.sum a + Np.sum b.
Proof.
  revert b; induction a as [|u a IH]; intros [|v b] H;
    try discriminate H; cbn [Np.zipWith].
  - rewrite sum_nil. lra.
  - rewrite !sum_cons, IH by (simpl in H; lia). lra.
Qed.

(** ** The fiber distance *)

Lemma ssd_cons (u v : R) (a b : Np.vector) :
  Spec.ssd (u :: a) (v :: b) = (u - v) * (u - v) + Spec.ssd a b.
Proof. reflexivity. Qed.

Lemma ssd_sym (a b : Np.vector) : Spec.ssd a b = Spec.ssd b a.
Proof.
  revert b; induction a as [|u a IH]; intros [|v b]; try reflexivity.
  rewrite !ssd_cons, IH. ring.
Qed.

Lemma ssd_nonneg (a b : Np.vector) : 0 <= Spec.ssd a b.
Proof.
  revert b; induction a as [|u a IH]; intros [|v b];
    try (unfold Spec.ssd; cbn; lra).
  rewrite ssd_cons. specialize (IH b).
  pose proof (Rle_0_sqr (u - v)) as Hs. unfold Rsqr in Hs. lra.
Qed.

Lemma ssd_refl (a : Np.vector) : Spec.ssd a a = 0.
Proof.
  induction a as [|u a IH]; [reflexivity|].
  rewrite ssd_cons, IH. ring.
Qed.

Lemma ssd_rev_rev (a b : Np.vector) :
  length a = length b -> Spec.ssd (rev a) (rev b) = Spec.ssd a b.
Proof.
  intros H. unfold Spec.ssd.
  rewrite zipWith_rev by exact H.
  rewrite map_rev. apply sum_rev.
Qed.

Lemma ssd_rev_swap (a b : Np.vector) :
  length a = length b -> Spec.ssd a (rev b) = Spec.ssd (rev a) b.
Proof.
  intros H. rewrite <- (rev_involutive a) at 1.
  apply ssd_rev_rev. rewrite length_rev. exact H.
Qed.

Lemma meanSquared_sym (P : nat) (f g : Fibers.Fiber) :
  Spec.meanSquared P f g = Spec.meanSquared P g f.
Proof.
  unfold Spec.meanSquared.
  rewrite (ssd_sym (Fibers.x g)), (ssd_sym (Fibers.y g)), (ssd_sym (Fibers.z g)).
  reflexivity.
Qed.

Lemma meanSquared_rev (P : nat) (f g : Fibers.Fiber) :
  Fibers.Fiber_wf P f -> Fibers.Fiber_wf P g ->
  Spec.meanSquared P (Fibers.getReverseFiber f) g =
  Spec.meanSquared P (Fibers.getReverseFiber g) f.
Proof.
  intros (Hx & Hy & Hz & _) (Gx & Gy & Gz & _).
  unfold Spec.meanSquared, Fibers.getReverseFiber. cbn.
  rewrite (ssd_rev_swap (Fibers.x g)), (ssd_rev_swap (Fibers.y g)),
    (ssd_rev_swap (Fibers.z g)) by congruence.
  rewrite (ssd_sym (rev (Fibers.x g))), (ssd_sym (rev (Fibers.y g))),
    (ssd_sym (rev (Fibers.z g))).
  reflexivity.
Qed.

Lemma meanSquared_nonneg (P : nat) (f g : Fibers.Fiber) :
  0 <= Spec.meanSquared P f g.
Proof.
  unfold Spec.meanSquared.
  pose proof (ssd_nonneg (Fibers.x g) (Fibers.x f)).
  pose proof (ssd_nonneg (Fibers.y g) (Fibers.y f)).
  pose proof (ssd_nonneg (Fibers.z g) (Fibers.z f)).
  destruct P as [|P].
  - cbn [INR]. unfold Rdiv. rewrite Rinv_0. lra.
  - apply Rmult_le_pos; [lra|].
    left. apply Rinv_0_lt_compat. apply lt_0_INR. lia.
Qed.

Lemma meanSquared_refl (P : nat) (f : Fibers.Fiber) :
  Spec.meanSquared P f f = 0.
Proof.
  unfold Spec.meanSquared. rewrite !ssd_refl. unfold Rdiv. ring.
Qed.

Lemma pairDistance_sym (P : nat) (f g : Fibers.Fiber) :
  Fibers.Fiber_wf P f -> Fibers.Fiber_wf P g ->
  Spec.pairDistance P f g = Spec.pairDistance P g f.
Proof.
  intros Hf Hg. unfold Spec.pairDistance.
  rewrite (meanSquared_sym P f g), (meanSquared_rev P f g Hf Hg).
  reflexivity.
Qed.

Lemma pairDistance_nonneg (P : nat) (f g : Fibers.Fiber) :
  0 <= Spec.pairDistance P f g.
Proof.
  unfold Spec.pairDistance. apply Rmin_glb; apply meanSquared_nonneg.
Qed.

Lemma pairDistance_refl (P : nat) (f : Fibers.Fiber) :
  Spec.pairDistance P f f = 0.
Proof.
  unfold Spec.pairDistance. rewrite meanSquared_refl.
  apply Rmin_left. apply meanSquared_nonneg.
Qed.

(** The code's array computation, entry by entry. *)

Lemma zipWith_nth {A B C} (f : A -> B -> C) (a : list A) (b : list B)
      (j : nat) (da : A) (db : B) (dc : C) :
  (j < length a)%nat -> length a = length b ->
  nth j (Np.zipWith f a b) dc = f (nth j a da) (nth j b db).
Proof.
  revert b j; induction a as [|u a IH]; intros [|v b] [|j] Hj H;
    simpl in *; try lia; try reflexivity.
  apply IH; lia.
Qed.

Lemma row_sum_sq (rx ry rz fx fy fz : Np.vector) (P : nat) :
  length rx = P -> length ry = P -> length rz = P ->
  length fx = P -> length fy = P -> length fz = P ->
  Np.sum (Np.zipWith Rplus
            (Np.zipWith Rplus (map Np.sq (Np.zipWith Rminus rx fx))
                              (map Np.sq (Np.zipWith Rminus ry fy)))
            (map Np.sq (Np.zipWith Rminus rz fz)))
  = Spec.ssd rx fx + Spec.ssd ry fy + Spec.ssd rz fz.
Proof.
  intros Hrx Hry Hrz Hfx Hfy Hfz. unfold Spec.ssd.
  assert (Lx : length (map Np.sq (Np.zipWith Rminus rx fx)) = P)
    by (rewrite length_map, zipWith_length; congruence).
  assert (Ly : length (map Np.sq (Np.zipWith Rminus ry fy)) = P)
    by (rewrite length_map, zipWith_length; congruence).
  assert (Lz : length (map Np.sq (Np.zipWith Rminus rz fz)) = P)
    by (rewrite length_map, zipWith_length; congruence).
  rewrite sum_zipWith_plus.
  - rewrite sum_zipWith_plus by congruence. reflexivity.
  - rewrite zipWith_length; congruence.
Qed.

Lemma rows_nth (P : nat) (fx fy fz : Np.vector) :
  length fx = P -> length fy = P -> length fz = P ->
  forall (X Y Z : Np.matrix) (j : nat),
    length X = length Y -> length Y = length Z ->
    Np.row_len P X -> Np.row_len P Y -> Np.row_len P Z ->
    (j < length X)%nat ->
    nth j (Np.sum_axis1
             (Np.add (Np.add (Np.square (Np.sub_rows X fx))
                             (Np.square (Np.sub_rows Y fy)))
                     (Np.square (Np.sub_rows Z fz)))) 0
    = Spec.ssd (nth j X []) fx + Spec.ssd (nth j Y []) fy
      + Spec.ssd (nth j Z []) fz.
Proof.
  intros Hfx Hfy Hfz.
  induction X as [|rx X IH]; intros [|ry Y] [|rz Z] j HXY HYZ HX HY HZ Hj;
    simpl in HXY, HYZ, Hj; try lia.
  inversion HX; inversion HY; inversion HZ; subst.
  destruct j as [|j].
  - cbn. apply (row_sum_sq rx ry rz fx fy fz (length fx)); congruence.
  - cbn [nth]. rewrite <- (IH Y Z j) by (assumption || lia).
    reflexivity.
Qed.

Lemma rows_length (fx fy fz : Np.vector) (X Y Z : Np.matrix) :
  length X = length Y -> length Y = length Z ->
  length (Np.sum_axis1
            (Np.add (Np.add (Np.square (Np.sub_rows X fx))
                            (Np.square (Np.sub_rows Y fy)))
                    (Np.square (Np.sub_rows Z fz)))) = length X.
Proof.
  intros HXY HYZ. unfold Np.sum_axis1, Np.add, Np.square, Np.sub_rows.
  assert (Lxy : length (Np.zipWith (Np.zipWith Rplus)
            (map (map Np.sq) (map (fun row => Np.zipWith Rminus row fx) X))
            (map (map Np.sq) (map (fun row => Np.zipWith Rminus row fy) Y)))
          = length X).
  { rewrite zipWith_length; rewrite !length_map; congruence. }
  rewrite length_map, zipWith_length; rewrite ?Lxy, ?length_map; congruence.
Qed.

Lemma fiberDistance_internal_length (f : Fibers.Fiber) (fa : Fibers.FiberArray) :
  Fibers.FiberArray_wf fa ->
  length (_fiberDistance_internal f fa) = Fibers.no_of_fibers fa.
Proof.
  intros (Hx & Hy & Hz & _).
  unfold _fiberDistance_internal, Np.div_scalar.
  rewrite length_map, rows_length; congruence.
Qed.

Lemma fiberDistance_internal_nth (f : Fibers.Fiber) (fa : Fibers.FiberArray)
      (j : nat) :
  Fibers.FiberArray_wf fa ->
  Fibers.Fiber_wf (Fibers.pts_per_fiber fa) f ->
  (j < Fibers.no_of_fibers fa)%nat ->
  nth j (_fiberDistance_internal f fa) 0
  = Spec.meanSquared (Fibers.pts_per_fiber fa) f (Fibers.getFiber fa j).
Proof.
  intros (Hx & Hy & Hz & Rx & Ry & Rz) (Fx & Fy & Fz & _) Hj.
  unfold _fiberDistance_internal, Np.div_scalar, Spec.meanSquared.
  cbn [Fibers.getFiber Fibers.x Fibers.y Fibers.z].
  set (c := INR (Fibers.pts_per_fiber fa)).
  replace 0 with (0 / c) at 1 by (unfold Rdiv; ring).
  rewrite (map_nth (fun t => t / c)).
  f_equal.
  apply (rows_nth (Fibers.pts_per_fiber fa)); try assumption; try congruence.
Qed.

Lemma fiberDistance_length (f : Fibers.Fiber) (fa : Fibers.FiberArray) :
  Fibers.FiberArray_wf fa ->
  length (fiberDistance f fa) = Fibers.no_of_fibers fa.
Proof.
  intros H. unfold fiberDistance, Np.minimum.
  rewrite zipWith_length; rewrite !fiberDistance_internal_length by exact H;
    reflexivity.
Qed.

Lemma getReverseFiber_wf (P : nat) (f : Fibers.Fiber) :
  Fibers.Fiber_wf P f -> Fibers.Fiber_wf P (Fibers.getReverseFiber f).
Proof.
  intros (Hx & Hy & Hz & Hp). unfold Fibers.Fiber_wf. cbn.
  rewrite !length_rev. auto.
Qed.

Lemma fiberDistance_nth (f : Fibers.Fiber) (fa : Fibers.FiberArray) (j : nat) :
  Fibers.FiberArray_wf fa ->
  Fibers.Fiber_wf (Fibers.pts_per_fiber fa) f ->
  (j < Fibers.no_of_fibers fa)%nat ->
  nth j (fiberDistance f fa) 0
  = Spec.pairDistance (Fibers.pts_per_fiber fa) f (Fibers.getFiber fa j).
Proof.
  intros Hfa Hf Hj. unfold fiberDistance, Np.minimum, Spec.pairDistance.
  rewrite (zipWith_nth Rmin _ _ j 0 0 0).
  - rewrite !fiberDistance_internal_nth;
      auto using getReverseFiber_wf.
  - rewrite fiberDistance_internal_length; assumption.
  - rewrite !fiberDistance_internal_length; auto.
Qed.

Lemma collection_single_wf (P : nat) (g : Fibers.Fiber) :
  Fibers.Fiber_wf P g -> Fibers.FiberArray_wf (Fibers.collection P [g]).
Proof.
  intros (Hx & Hy & Hz & _). unfold Fibers.FiberArray_wf, Np.row_len. cbn.
  repeat split; try reflexivity; constructor; auto.
Qed.

Lemma fiberDistance_single (P : nat) (f g : Fibers.Fiber) :
  Fibers.Fiber_wf P f -> Fibers.Fiber_wf P g ->
  fiberDistance f (Fibers.collection P [g]) = [Spec.pairDistance P f g].
Proof.
  intros Hf Hg.
  pose proof (collection_single_wf P g Hg) as Hwf.
  pose proof (fiberDistance_length f _ Hwf) as Hlen.
  pose proof (fiberDistance_nth f _ 0%nat Hwf Hf) as Hn.
  change (Fibers.no_of_fibers (Fibers.collection P [g])) with 1%nat in Hlen, Hn.
  change (Fibers.pts_per_fiber (Fibers.collection P [g])) with P in Hn.
  specialize (Hn (Nat.lt_0_succ 0)).
  destruct (fiberDistance f (Fibers.collection P [g])) as [|d [|e l]];
    try discriminate Hlen.
  cbn [nth] in Hn. rewrite Hn. reflexivity.
Qed.

(** ** The Gaussian kernel *)

Lemma kernel_arg_neg (d sigma : R) :
  0 < sigma -> 0 < d -> - d / (2 * Np.sq sigma) < 0.
Proof.
  intros Hs Hd. unfold Np.sq, Rdiv.
  assert (0 < / (2 * (sigma * sigma))) by (apply Rinv_0_lt_compat; nra).
  nra.
Qed.

Lemma kernel_arg_decr (d d' sigma : R) :
  0 < sigma -> d < d' ->
  - d' / (2 * Np.sq sigma) < - d / (2 * Np.sq sigma).
Proof.
  intros Hs Hd. unfold Np.sq, Rdiv.
  assert (0 < / (2 * (sigma * sigma))) by (apply Rinv_0_lt_compat; nra).
  nra.
Qed.

Lemma gausKernel_zero (sigmasq : R) : gausKernel 0 sigmasq = 1.
Proof.
  unfold gausKernel, Rdiv. rewrite Ropp_0, Rmult_0_l. apply exp_0.
Qed.

Lemma gausKernel_pos (d sigmasq : R) : 0 < gausKernel d sigmasq.
Proof. apply exp_pos. Qed.

Lemma gausKernel_unit_range (d sigma : R) :
  sigma <> 0 -> 0 <= d <= 1 ->
  gausKernel 1 (Np.sq sigma) <= gausKernel d (Np.sq sigma) <= 1.
Proof.
  intros Hs [Hd0 Hd1]. unfold gausKernel, Np.sq.
  assert (Hsq : 0 < sigma * sigma) by nra.
  assert (Hinv : 0 < / (2 * (sigma * sigma)))
    by (apply Rinv_0_lt_compat; lra).
  split.
  - destruct Hd1 as [Hlt | ->]; [|lra].
    left. apply exp_increasing. unfold Rdiv. nra.
  - rewrite <- exp_0. destruct Hd0 as [Hlt | <-].
    + left. apply exp_increasing. unfold Rdiv. nra.
    + right. f_equal. unfold Rdiv. ring.
Qed.

(** Over the reals, that is without the rounding, the underflow and the
    saturation of [np.exp], the similarity lies in (0, 1], equals 1
    exactly when [d = 0], and is strictly smaller at every larger
    distance. *)
Lemma gausKernel_real_bounds_monotone (d d' sigma : R) :
  0 <= d -> 0 < sigma ->
  (0 < gausKernel d (Np.sq sigma) <= 1)
  /\ (gausKernel d (Np.sq sigma) = 1 <-> d = 0)
  /\ (d < d' -> gausKernel d' (Np.sq sigma) < gausKernel d (Np.sq sigma)).
Proof.
  intros Hd Hs.
  assert (Hle : gausKernel d (Np.sq sigma) <= 1).
  { destruct Hd as [Hd | <-].
    - left. unfold gausKernel. rewrite <- exp_0.
      apply exp_increasing, kernel_arg_neg; assumption.
    - right. apply gausKernel_zero. }
  repeat split.
  - apply gausKernel_pos.
  - exact Hle.
  - intros H1. destruct Hd as [Hd | Hd]; [|symmetry; exact Hd].
    exfalso.
    assert (gausKernel d (Np.sq sigma) < 1).
    { unfold gausKernel. rewrite <- exp_0.
      apply exp_increasing, kernel_arg_neg; assumption. }
    lra.
  - intros ->. apply gausKernel_zero.
  - intros Hlt. unfold gausKernel.
    apply exp_increasing, kernel_arg_decr; assumption.
Qed.

(** ** Rejected configurations *)

(** C7.  With [no_of_eigvec = 1], or with a polydata of 0 lines, the
    run prints one error line and returns [None]; no matrix builder has
    been entered and the geometry object is the one the run started
    with, so no colour or cluster-number array has been attached. *)
Theorem spectralClustering_rejects
        (convertFromVTK : Vtk.vtkPolyData -> nat -> Fibers.FiberArray)
        (eig : list (list NpFloat.npfloat) -> option Np.matrix)
        (kmeans2 : Np.matrix -> Z -> option (Np.matrix * list nat))
        (k_clusters no_of_eigvec : Z) (sigma : R) (no_of_jobs : Z)
        (w : Cluster.world) :
  no_of_eigvec = 1%Z \/ Vtk.GetNumberOfLines (Cluster.geometry w) = 0%nat ->
  Cluster.spectralClustering convertFromVTK eig kmeans2
    k_clusters no_of_eigvec sigma no_of_jobs w
  = (Cluster.Val None,
     Cluster.mkWorld
       (Cluster.stdout w ++
          [Cluster.Line
             (if (no_of_eigvec =? 1)%Z
              then "Clustering cannot be performed with single eigenvector!"
              else "ERROR: Input data has 0 fibers!")])
       (Cluster.geometry w) (Cluster.entered w)).
Proof.
  intros H. unfold Cluster.spectralClustering.
  destruct (no_of_eigvec =? 1)%Z eqn:HK.
  - reflexivity.
  - destruct H as [H | H]; [apply Z.eqb_neq in HK; contradiction|].
    unfold Cluster.bind at 1. unfold Cluster.get_geometry at 1.
    rewrite H. reflexivity.
Qed.

Lemma spectralClustering_rejects_witness :
  Cluster.spectralClustering
    (fun _ P => Fibers.collection P []) (fun _ => None) (fun _ _ => None)
    3 20 60 2
    (Cluster.mkWorld [] (Vtk.mkPolyData [] [] None) [])
  = (Cluster.Val None,
     Cluster.mkWorld [Cluster.Line "ERROR: Input data has 0 fibers!"]
                     (Vtk.mkPolyData [] [] None) []).
Proof.
  apply (spectralClustering_rejects
           (fun _ P => Fibers.collection P []) (fun _ => None)
           (fun _ _ => None) 3 20 60 2
           (Cluster.mkWorld [] (Vtk.mkPolyData [] [] None) [])).
  right. reflexivity.
Defined.

(** ** Indexing lemmas *)

Lemma nth_map_seq {A} (f : nat -> A) (s n j : nat) (d : A) :
  (j < n)%nat -> nth j (map f (seq s n)) d = f (s + j)%nat.
Proof.
  intros Hj.
  rewrite (nth_indep _ d (f 0%nat)) by (rewrite length_map, length_seq; exact Hj).
  rewrite (map_nth f), seq_nth by exact Hj. reflexivity.
Qed.

Lemma nth_map_in {A B} (f : A -> B) (l : list A) (i : nat) (da : A) (db : B) :
  (i < length l)%nat -> nth i (map f l) db = f (nth i l da).
Proof.
  intros Hi.
  rewrite (nth_indep _ db (f da)) by (rewrite length_map; exact Hi).
  apply map_nth.
Qed.

Lemma row_len_nth (n : nat) (M : Np.matrix) (i : nat) :
  Np.row_len n M -> (i < length M)%nat -> length (nth i M []) = n.
Proof.
  intros H Hi. unfold Np.row_len in H. rewrite Forall_forall in H.
  apply H, nth_In, Hi.
Qed.

Lemma ncols_row_len (n : nat) (M : Np.matrix) :
  Np.row_len n M -> (0 < length M)%nat -> Np.ncols M = n.
Proof.
  intros H Hpos. destruct M as [|r M]; [simpl in Hpos; lia|].
  inversion H; subst. reflexivity.
Qed.

Lemma col_length (j : nat) (M : Np.matrix) : length (Np.col j M) = length M.
Proof. apply length_map. Qed.

Lemma col_nth (j i : nat) (M : Np.matrix) :
  (i < length M)%nat -> nth i (Np.col j M) 0 = Np.at2 M i j.
Proof.
  intros Hi. unfold Np.col, Np.at2.
  apply (nth_map_in (fun row => nth j row 0) M i [] 0 Hi).
Qed.

Lemma col_in (j i : nat) (M : Np.matrix) :
  (i < length M)%nat -> In (Np.at2 M i j) (Np.col j M).
Proof.
  intros Hi. rewrite <- col_nth by exact Hi.
  apply nth_In. rewrite col_length. exact Hi.
Qed.

(** ** Minimum and maximum of an array *)

Lemma fold_min_le_init (l : Np.vector) (a : R) : fold_left Rmin l a <= a.
Proof.
  revert a; induction l as [|u l IH]; intros a; cbn [fold_left]; [lra|].
  eapply Rle_trans; [apply IH | apply Rmin_l].
Qed.

Lemma fold_min_le_in (l : Np.vector) (a t : R) :
  In t l -> fold_left Rmin l a <= t.
Proof.
  revert a; induction l as [|u l IH]; intros a Ht; [destruct Ht|].
  destruct Ht as [Ht | Ht]; cbn [fold_left].
  - subst. eapply Rle_trans; [apply fold_min_le_init | apply Rmin_r].
  - apply IH, Ht.
Qed.

Lemma fold_min_glb (l : Np.vector) (a lb : R) :
  lb <= a -> Forall (fun t => lb <= t) l -> lb <= fold_left Rmin l a.
Proof.
  revert a; induction l as [|u l IH]; intros a Ha Hl; cbn [fold_left];
    [exact Ha|].
  inversion Hl; subst. apply IH; [apply Rmin_glb|]; assumption.
Qed.

Lemma fold_max_ge_init (l : Np.vector) (a : R) : a <= fold_left Rmax l a.
Proof.
  revert a; induction l as [|u l IH]; intros a; cbn [fold_left]; [lra|].
  eapply Rle_trans; [apply Rmax_l | apply IH].
Qed.

Lemma fold_max_ge_in (l : Np.vector) (a t : R) :
  In t l -> t <= fold_left Rmax l a.
Proof.
  revert a; induction l as [|u l IH]; intros a Ht; [destruct Ht|].
  destruct Ht as [Ht | Ht]; cbn [fold_left].
  - subst. eapply Rle_trans; [apply Rmax_r | apply fold_max_ge_init].
  - apply IH, Ht.
Qed.

Lemma vmin_le (v : Np.vector) (t : R) : In t v -> Np.vmin v <= t.
Proof.
  destruct v as [|a l]; intros Ht; [destruct Ht|].
  destruct Ht as [Ht | Ht]; cbn [Np.vmin].
  - subst. apply fold_min_le_init.
  - apply fold_min_le_in, Ht.
Qed.

Lemma vmax_ge (v : Np.vector) (t : R) : In t v -> t <= Np.vmax v.
Proof.
  destruct v as [|a l]; intros Ht; [destruct Ht|].
  destruct Ht as [Ht | Ht]; cbn [Np.vmax].
  - subst. apply fold_max_ge_init.
  - apply fold_max_ge_in, Ht.
Qed.

Lemma vmin_glb (v : Np.vector) (lb : R) :
  v <> [] -> Forall (fun t => lb <= t) v -> lb <= Np.vmin v.
Proof.
  destruct v as [|a l]; intros Hne Hv; [contradiction|].
  inversion Hv; subst. cbn [Np.vmin]. apply fold_min_glb; assumption.
Qed.

Lemma vmin_zero (v : Np.vector) :
  In 0 v -> Forall (fun t => 0 <= t) v -> Np.vmin v = 0.
Proof.
  intros Hin Hv. apply Rle_antisym.
  - apply vmin_le, Hin.
  - apply vmin_glb; [|exact Hv]. intros ->. contradiction.
Qed.

(** ** The matrix of fiber distances before normalisation *)

Lemma getFiber_wf (fa : Fibers.FiberArray) (i : nat) :
  Fibers.FiberArray_wf fa -> (i < Fibers.no_of_fibers fa)%nat ->
  Fibers.Fiber_wf (Fibers.pts_per_fiber fa) (Fibers.getFiber fa i).
Proof.
  intros (Hx & Hy & Hz & Rx & Ry & Rz) Hi.
  unfold Fibers.Fiber_wf. cbn.
  repeat split; try reflexivity; apply row_len_nth; try assumption; lia.
Qed.

Lemma distance_rows_length (fa : Fibers.FiberArray) :
  length (Cluster.distance_rows fa) = Fibers.no_of_fibers fa.
Proof.
  unfold Cluster.distance_rows. rewrite length_map, length_seq. reflexivity.
Qed.

Lemma distance_rows_nth (fa : Fibers.FiberArray) (i : nat) :
  (i < Fibers.no_of_fibers fa)%nat ->
  nth i (Cluster.distance_rows fa) []
  = fiberDistance (Fibers.getFiber fa i) fa.
Proof.
  intros Hi. unfold Cluster.distance_rows.
  rewrite nth_map_seq by exact Hi. reflexivity.
Qed.

Lemma distance_rows_row_len (fa : Fibers.FiberArray) :
  Fibers.FiberArray_wf fa ->
  Np.row_len (Fibers.no_of_fibers fa) (Cluster.distance_rows fa).
Proof.
  intros Hwf. unfold Np.row_len, Cluster.distance_rows.
  rewrite Forall_forall. intros row Hin.
  apply in_map_iff in Hin. destruct Hin as (i & <- & _).
  apply fiberDistance_length, Hwf.
Qed.

Lemma distance_rows_at2 (fa : Fibers.FiberArray) (i j : nat) :
  Fibers.FiberArray_wf fa ->
  (i < Fibers.no_of_fibers fa)%nat -> (j < Fibers.no_of_fibers fa)%nat ->
  Np.at2 (Cluster.distance_rows fa) i j
  = Spec.pairDistance (Fibers.pts_per_fiber fa)
      (Fibers.getFiber fa i) (Fibers.getFiber fa j).
Proof.
  intros Hwf Hi Hj. unfold Np.at2.
  rewrite distance_rows_nth by exact Hi.
  apply fiberDistance_nth; auto using getFiber_wf.
Qed.

Lemma distance_rows_sym (fa : Fibers.FiberArray) (i j : nat) :
  Fibers.FiberArray_wf fa ->
  (i < Fibers.no_of_fibers fa)%nat -> (j < Fibers.no_of_fibers fa)%nat ->
  Np.at2 (Cluster.distance_rows fa) i j
  = Np.at2 (Cluster.distance_rows fa) j i.
Proof.
  intros Hwf Hi Hj. rewrite !distance_rows_at2 by assumption.
  apply pairDistance_sym; auto using getFiber_wf.
Qed.

Lemma distance_rows_diag (fa : Fibers.FiberArray) (i : nat) :
  Fibers.FiberArray_wf fa -> (i < Fibers.no_of_fibers fa)%nat ->
  Np.at2 (Cluster.distance_rows fa) i i = 0.
Proof.
  intros Hwf Hi. rewrite distance_rows_at2 by assumption.
  apply pairDistance_refl.
Qed.

Lemma distance_rows_nonneg (fa : Fibers.FiberArray) (i j : nat) :
  Fibers.FiberArray_wf fa ->
  (i < Fibers.no_of_fibers fa)%nat -> (j < Fibers.no_of_fibers fa)%nat ->
  0 <= Np.at2 (Cluster.distance_rows fa) i j.
Proof.
  intros Hwf Hi Hj. rewrite distance_rows_at2 by assumption.
  apply pairDistance_nonneg.
Qed.

Lemma distance_rows_col_min (fa : Fibers.FiberArray) (j : nat) :
  Fibers.FiberArray_wf fa -> (j < Fibers.no_of_fibers fa)%nat ->
  Np.vmin (Np.col j (Cluster.distance_rows fa)) = 0.
Proof.
  intros Hwf Hj. apply vmin_zero.
  - rewrite <- (distance_rows_diag fa j Hwf Hj).
    apply col_in. rewrite distance_rows_length. exact Hj.
  - rewrite Forall_forall. intros t Hin.
    destruct (In_nth _ _ 0 Hin) as (i & Hi & <-).
    rewrite col_length, distance_rows_length in Hi.
    rewrite col_nth by (rewrite distance_rows_length; exact Hi).
    apply distance_rows_nonneg; assumption.
Qed.

(** ** The min-max scaler, entry by entry *)

Lemma MinMaxScaler_length (X : Np.matrix) :
  length (Sklearn.MinMaxScaler_fit_transform X) = length X.
Proof. unfold Sklearn.MinMaxScaler_fit_transform. apply length_map. Qed.

Lemma MinMaxScaler_at2 (X : Np.matrix) (m i j : nat) :
  Np.row_len m X -> (i < length X)%nat -> (j < m)%nat ->
  Np.at2 (Sklearn.MinMaxScaler_fit_transform X) i j
  = (Np.at2 X i j - Np.vmin (Np.col j X))
    / (let range := Np.vmax (Np.col j X) - Np.vmin (Np.col j X) in
       if Req_dec_T range 0 then 1 else range).
Proof.
  intros Hrows Hi Hj.
  assert (Hc : Np.ncols X = m) by (apply (ncols_row_len m X Hrows); lia).
  unfold Sklearn.MinMaxScaler_fit_transform, Sklearn._handle_zeros_in_scale,
    Np.min_axis0, Np.max_axis0, Np.at2.
  rewrite Hc.
  set (mins := map (fun j0 => Np.vmin (Np.col j0 X)) (seq 0 m)).
  set (maxs := map (fun j0 => Np.vmax (Np.col j0 X)) (seq 0 m)).
  set (scale := map (fun t => (1 - 0) / t)
                    (map (fun t => if Req_dec_T t 0 then 1 else t)
                         (Np.zipWith Rminus maxs mins))).
  assert (Lmin : length mins = m)
    by (unfold mins; rewrite length_map, length_seq; reflexivity).
  assert (Lmax : length maxs = m)
    by (unfold maxs; rewrite length_map, length_seq; reflexivity).
  assert (Lscale : length scale = m).
  { unfold scale. rewrite !length_map, zipWith_length; congruence. }
  assert (Lrow : length (nth i X []) = m) by (apply row_len_nth; assumption).
  rewrite (nth_map_in _ X i [] []) by exact Hi.
  rewrite (zipWith_nth Rplus _ _ j 0 0 0);
    [| rewrite zipWith_length; congruence
     | rewrite !zipWith_length; congruence ].
  rewrite (zipWith_nth Rmult _ _ j 0 0 0) by congruence.
  rewrite (zipWith_nth (fun m0 t => 0 - m0 * t) _ _ j 0 0 0) by congruence.
  assert (Hmin : nth j mins 0 = Np.vmin (Np.col j X))
    by (unfold mins; rewrite nth_map_seq by exact Hj; reflexivity).
  assert (Hmax : nth j maxs 0 = Np.vmax (Np.col j X))
    by (unfold maxs; rewrite nth_map_seq by exact Hj; reflexivity).
  assert (Hscale : nth j scale 0
                   = (1 - 0) / (if Req_dec_T (Np.vmax (Np.col j X)
                                              - Np.vmin (Np.col j X)) 0
                                then 1
                                else Np.vmax (Np.col j X)
                                     - Np.vmin (Np.col j X))).
  { unfold scale.
    rewrite (nth_map_in (fun t => (1 - 0) / t) _ j 0 0)
      by (rewrite length_map, zipWith_length; congruence).
    rewrite (nth_map_in (fun t => if Req_dec_T t 0 then 1 else t) _ j 0 0)
      by (rewrite zipWith_length; congruence).
    rewrite (zipWith_nth Rminus _ _ j 0 0 0) by congruence.
    rewrite Hmin, Hmax. reflexivity. }
  rewrite Hscale, Hmin. cbv zeta. unfold Rdiv. ring.
Qed.

(** ** The three parallel fibers *)

Lemma matrix_ext (A B : Np.matrix) :
  length A = length B ->
  (forall i, (i < length A)%nat ->
             length (nth i A []) = length (nth i B [])) ->
  (forall i j, (i < length A)%nat -> (j < length (nth i A []))%nat ->
               Np.at2 A i j = Np.at2 B i j) ->
  A = B.
Proof.
  intros HL HR HE. apply (nth_ext A B [] [] HL). intros i Hi.
  apply (nth_ext _ _ 0 0 (HR i Hi)). intros j Hj.
  apply HE; assumption.
Qed.

Lemma example_wf : Fibers.FiberArray_wf (Example.resampled Example.polydata 20).
Proof.
  unfold Fibers.FiberArray_wf, Np.row_len. cbn.
  repeat split; repeat constructor.
Qed.

Lemma line_meanSquared (a b : R) :
  Spec.meanSquared 20 (Example.fiber_of_line 20 (Example.line_at a))
                      (Example.fiber_of_line 20 (Example.line_at b))
  = (b - a) * (b - a).
Proof.
  unfold Spec.meanSquared, Spec.ssd, Np.sum, Np.sq. cbn. field.
Qed.

Lemma line_meanSquared_rev (a b : R) :
  Spec.meanSquared 20
    (Fibers.getReverseFiber (Example.fiber_of_line 20 (Example.line_at a)))
    (Example.fiber_of_line 20 (Example.line_at b))
  = (b - a) * (b - a) + 133.
Proof.
  unfold Spec.meanSquared, Spec.ssd, Np.sum, Np.sq. cbn. field.
Qed.

Lemma line_pairDistance (a b : R) :
  Spec.pairDistance 20 (Example.fiber_of_line 20 (Example.line_at a))
                       (Example.fiber_of_line 20 (Example.line_at b))
  = (b - a) * (b - a).
Proof.
  unfold Spec.pairDistance.
  rewrite line_meanSquared, line_meanSquared_rev.
  apply Rmin_left. lra.
Qed.

Lemma example_getFiber_0 :
  Fibers.getFiber (Example.resampled Example.polydata 20) 0
  = Example.fiber_of_line 20 (Example.line_at 0).
Proof. reflexivity. Qed.

Lemma example_getFiber_1 :
  Fibers.getFiber (Example.resampled Example.polydata 20) 1
  = Example.fiber_of_line 20 (Example.line_at 1).
Proof. reflexivity. Qed.

Lemma example_getFiber_2 :
  Fibers.getFiber (Example.resampled Example.polydata 20) 2
  = Example.fiber_of_line 20 (Example.line_at 3).
Proof. reflexivity. Qed.

Lemma example_raw :
  Cluster.distance_rows (Example.resampled Example.polydata 20) = Example.raw.
Proof.
  pose proof example_wf as Hwf.
  pose proof (distance_rows_row_len _ Hwf) as Hrows.
  pose proof (distance_rows_length (Example.resampled Example.polydata 20))
    as Hlen.
  change (Fibers.no_of_fibers (Example.resampled Example.polydata 20))
    with 3%nat in Hrows, Hlen.
  apply matrix_ext.
  - rewrite Hlen. reflexivity.
  - intros i Hi. rewrite (row_len_nth 3) by assumption.
    rewrite Hlen in Hi.
    destruct i as [|[|[|i]]]; try reflexivity; lia.
  - intros i j Hi Hj. rewrite (row_len_nth 3) in Hj by assumption.
    rewrite Hlen in Hi.
    rewrite distance_rows_at2
      by (try exact Hwf;
          change (Fibers.no_of_fibers (Example.resampled Example.polydata 20))
            with 3%nat; assumption).
    change (Fibers.pts_per_fiber (Example.resampled Example.polydata 20))
      with 20%nat.
    destruct i as [|[|[|i]]]; try lia;
      destruct j as [|[|[|j]]]; try lia;
      rewrite ?example_getFiber_0, ?example_getFiber_1, ?example_getFiber_2,
        line_pairDistance;
      unfold Np.at2, Example.raw; cbn [nth]; lra.
Qed.

(** Evaluation of [Rmin], [Rmax] and of the zero test on numerals. *)
Ltac eval_minmax :=
  repeat match goal with
    | |- context [Rmin ?a ?b] =>
        first [ rewrite (Rmin_left a b) by lra
              | rewrite (Rmin_right a b) by lra ]
    | |- context [Rmax ?a ?b] =>
        first [ rewrite (Rmax_left a b) by lra
              | rewrite (Rmax_right a b) by lra ]
    | |- context [Req_dec_T ?a ?b] =>
        destruct (Req_dec_T a b); [ exfalso; lra | ]
    end.

Lemma example_normalized :
  Sklearn.MinMaxScaler_fit_transform Example.raw = Example.normalized.
Proof.
  unfold Sklearn.MinMaxScaler_fit_transform, Sklearn._handle_zeros_in_scale,
    Np.min_axis0, Np.max_axis0, Example.raw, Example.normalized.
  cbn. eval_minmax.
  repeat (f_equal; try lra).
Qed.

Lemma example_pairwiseDistance (sigma : R) (no_of_jobs : Z) :
  Cluster._pairwiseDistance_matrix Example.resampled Example.polydata
    sigma no_of_jobs
  = Example.normalized.
Proof.
  unfold Cluster._pairwiseDistance_matrix.
  rewrite example_raw. apply example_normalized.
Qed.

(** ** C2: the normalisation of the distance matrix *)

Lemma example_global :
  Spec.global_minmax Example.raw
  = [[0; 1 / 9; 1]; [1 / 9; 0; 4 / 9]; [1; 4 / 9; 0]].
Proof.
  unfold Spec.global_minmax, Example.raw. cbn. eval_minmax.
  repeat (f_equal; try lra).
Qed.

(** C2, as stated, fails: for the three parallel fibers the matrix the
    builder returns is not the raw matrix scaled by one minimum and one
    maximum taken over all its entries (entry (0, 1) is 1/4, not 1/9). *)
Lemma pairwiseDistance_not_global :
  Cluster._pairwiseDistance_matrix Example.resampled Example.polydata 60 2
  <> Spec.global_minmax
       (Cluster.distance_rows (Example.resampled Example.polydata 20)).
Proof.
  rewrite example_pairwiseDistance, example_raw, example_global.
  unfold Example.normalized. intros H.
  apply (f_equal (fun M => Np.at2 M 0 1)) in H.
  unfold Np.at2 in H. cbn [nth] in H. lra.
Qed.

Lemma scaled_in_unit (t lo hi : R) :
  lo <= t -> t <= hi ->
  0 <= (t - lo) / (if Req_dec_T (hi - lo) 0 then 1 else hi - lo) <= 1.
Proof.
  intros Hlo Hhi. destruct (Req_dec_T (hi - lo) 0) as [E | E].
  - replace (t - lo) with 0 by lra. unfold Rdiv. rewrite Rmult_0_l. lra.
  - assert (Hpos : 0 < hi - lo) by lra.
    split.
    + apply Rmult_le_pos; [lra | left; apply Rinv_0_lt_compat, Hpos].
    + apply (Rmult_le_reg_r (hi - lo)); [exact Hpos|].
      unfold Rdiv. rewrite Rmult_assoc, Rinv_l by exact E. lra.
Qed.

(** C2, amended.  Every entry (i, j) of the matrix returned by
    [_pairwiseDistance_matrix] is the raw distance rescaled with the
    minimum and the maximum of column j of the raw matrix (a zero range
    counting as 1), and lies between 0 and 1. *)
Theorem pairwiseDistance_columnwise
        (convertFromVTK : Vtk.vtkPolyData -> nat -> Fibers.FiberArray)
        (inputVTK : Vtk.vtkPolyData) (sigma : R) (no_of_jobs : Z)
        (i j : nat) :
  let fiberArray := convertFromVTK inputVTK 20%nat in
  let raw := Cluster.distance_rows fiberArray in
  let lo := Np.vmin (Np.col j raw) in
  let hi := Np.vmax (Np.col j raw) in
  Fibers.FiberArray_wf fiberArray ->
  (i < Fibers.no_of_fibers fiberArray)%nat ->
  (j < Fibers.no_of_fibers fiberArray)%nat ->
  Np.at2 (Cluster._pairwiseDistance_matrix convertFromVTK inputVTK
            sigma no_of_jobs) i j
  = (Np.at2 raw i j - lo) / (if Req_dec_T (hi - lo) 0 then 1 else hi - lo)
  /\ 0 <= Np.at2 (Cluster._pairwiseDistance_matrix convertFromVTK inputVTK
                    sigma no_of_jobs) i j <= 1.
Proof.
  intros fa raw lo hi Hwf Hi Hj.
  assert (Hlen : length raw = Fibers.no_of_fibers fa)
    by apply distance_rows_length.
  assert (Heq : Np.at2 (Cluster._pairwiseDistance_matrix convertFromVTK
                          inputVTK sigma no_of_jobs) i j
                = (Np.at2 raw i j - lo)
                  / (if Req_dec_T (hi - lo) 0 then 1 else hi - lo)).
  { unfold Cluster._pairwiseDistance_matrix. fold fa. fold raw.
    rewrite (MinMaxScaler_at2 raw (Fibers.no_of_fibers fa) i j);
      [ reflexivity | apply distance_rows_row_len, Hwf | lia | exact Hj ]. }
  split; [exact Heq|]. rewrite Heq.
  apply scaled_in_unit.
  - apply vmin_le, col_in. lia.
  - apply vmax_ge, col_in. lia.
Qed.

Lemma pairwiseDistance_columnwise_witness :
  Fibers.FiberArray_wf (Example.resampled Example.polydata 20)
  /\ 0 <= Np.at2 (Cluster._pairwiseDistance_matrix Example.resampled
                    Example.polydata 60 2) 0 1 <= 1.
Proof.
  split; [exact example_wf|].
  apply (pairwiseDistance_columnwise Example.resampled Example.polydata
           60 2 0 1).
  - exact example_wf.
  - cbn. lia.
  - cbn. lia.
Defined.

(** ** Shape and entries of the normalised and of the similarity matrix *)

Lemma MinMaxScaler_row_len (X : Np.matrix) (m : nat) :
  Np.row_len m X -> (0 < length X)%nat ->
  Np.row_len m (Sklearn.MinMaxScaler_fit_transform X).
Proof.
  intros Hrows Hpos.
  assert (Hc : Np.ncols X = m) by (apply (ncols_row_len m X Hrows Hpos)).
  unfold Sklearn.MinMaxScaler_fit_transform, Sklearn._handle_zeros_in_scale,
    Np.min_axis0, Np.max_axis0, Np.row_len.
  rewrite Hc. rewrite Forall_forall. intros row Hin.
  apply in_map_iff in Hin. destruct Hin as (r & <- & Hr).
  unfold Np.row_len in Hrows. rewrite Forall_forall in Hrows.
  specialize (Hrows r Hr).
  repeat (rewrite ?zipWith_length, ?length_map, ?length_seq; try congruence).
Qed.

Lemma pairwiseDistance_shape
      (convertFromVTK : Vtk.vtkPolyData -> nat -> Fibers.FiberArray)
      (inputVTK : Vtk.vtkPolyData) (sigma : R) (no_of_jobs : Z) :
  let fiberArray := convertFromVTK inputVTK 20%nat in
  Fibers.FiberArray_wf fiberArray ->
  (0 < Fibers.no_of_fibers fiberArray)%nat ->
  length (Cluster._pairwiseDistance_matrix convertFromVTK inputVTK
            sigma no_of_jobs) = Fibers.no_of_fibers fiberArray
  /\ Np.row_len (Fibers.no_of_fibers fiberArray)
       (Cluster._pairwiseDistance_matrix convertFromVTK inputVTK
          sigma no_of_jobs).
Proof.
  intros fa Hwf Hpos. unfold Cluster._pairwiseDistance_matrix. fold fa.
  split.
  - rewrite MinMaxScaler_length. apply distance_rows_length.
  - apply MinMaxScaler_row_len.
    + apply distance_rows_row_len, Hwf.
    + rewrite distance_rows_length. exact Hpos.
Qed.

Lemma gausKernel_similarity_at2 (D : Np.matrix) (sigmasq : R) (i j : nat) :
  (i < length D)%nat -> (j < length (nth i D []))%nat ->
  Np.at2 (gausKernel_similarity D sigmasq) i j
  = gausKernel (Np.at2 D i j) sigmasq.
Proof.
  intros Hi Hj. unfold gausKernel_similarity, Np.at2.
  rewrite (nth_map_in _ D i [] []) by exact Hi.
  apply (nth_map_in (fun d => gausKernel d sigmasq) (nth i D []) j 0 0 Hj).
Qed.

Lemma gausKernel_similarity_shape (D : Np.matrix) (sigmasq : R) (m : nat) :
  Np.row_len m D ->
  length (gausKernel_similarity D sigmasq) = length D
  /\ Np.row_len m (gausKernel_similarity D sigmasq).
Proof.
  intros Hrows. unfold gausKernel_similarity. split; [apply length_map|].
  unfold Np.row_len in *. rewrite Forall_forall in *. intros row Hin.
  apply in_map_iff in Hin. destruct Hin as (r & <- & Hr).
  rewrite length_map. apply Hrows, Hr.
Qed.

Lemma pairwiseSimilarity_at2
      (convertFromVTK : Vtk.vtkPolyData -> nat -> Fibers.FiberArray)
      (inputVTK : Vtk.vtkPolyData) (sigma : R) (no_of_jobs : Z) (i j : nat) :
  let fiberArray := convertFromVTK inputVTK 20%nat in
  Fibers.FiberArray_wf fiberArray ->
  (i < Fibers.no_of_fibers fiberArray)%nat ->
  (j < Fibers.no_of_fibers fiberArray)%nat ->
  Np.at2 (Cluster._pairwiseSimilarity_matrix convertFromVTK inputVTK
            sigma no_of_jobs) i j
  = gausKernel
      (Np.at2 (Cluster._pairwiseDistance_matrix convertFromVTK inputVTK
                 sigma no_of_jobs) i j)
      (Np.sq sigma).
Proof.
  intros fa Hwf Hi Hj. unfold Cluster._pairwiseSimilarity_matrix.
  destruct (pairwiseDistance_shape convertFromVTK inputVTK sigma no_of_jobs
              Hwf) as [Hlen Hrows]; [unfold fa in Hi; lia|].
  fold fa in Hlen, Hrows.
  apply gausKernel_similarity_at2.
  - rewrite Hlen. exact Hi.
  - rewrite (row_len_nth _ _ _ Hrows) by (rewrite Hlen; exact Hi). exact Hj.
Qed.

Lemma pairwiseDistance_at2
      (convertFromVTK : Vtk.vtkPolyData -> nat -> Fibers.FiberArray)
      (inputVTK : Vtk.vtkPolyData) (sigma : R) (no_of_jobs : Z) (i j : nat) :
  let fiberArray := convertFromVTK inputVTK 20%nat in
  let raw := Cluster.distance_rows fiberArray in
  Fibers.FiberArray_wf fiberArray ->
  (i < Fibers.no_of_fibers fiberArray)%nat ->
  (j < Fibers.no_of_fibers fiberArray)%nat ->
  Np.at2 (Cluster._pairwiseDistance_matrix convertFromVTK inputVTK
            sigma no_of_jobs) i j
  = Np.at2 raw i j
    / (if Req_dec_T (Np.vmax (Np.col j raw)) 0 then 1
       else Np.vmax (Np.col j raw)).
Proof.
  intros fa raw Hwf Hi Hj.
  unfold Cluster._pairwiseDistance_matrix. fold fa. fold raw.
  rewrite (MinMaxScaler_at2 raw (Fibers.no_of_fibers fa) i j);
    [ | apply distance_rows_row_len, Hwf
      | unfold raw; rewrite distance_rows_length; exact Hi
      | exact Hj ].
  cbv zeta. unfold raw. rewrite (distance_rows_col_min fa j Hwf Hj).
  rewrite !Rminus_0_r. reflexivity.
Qed.

(** C9.  For a nonempty fiber collection and a kernel width other than
    0, every diagonal entry of the normalised distance matrix is 0 and
    every diagonal entry of the similarity matrix is 1. *)
Theorem distance_similarity_diagonal
        (convertFromVTK : Vtk.vtkPolyData -> nat -> Fibers.FiberArray)
        (inputVTK : Vtk.vtkPolyData) (sigma : R) (no_of_jobs : Z) (i : nat) :
  let fiberArray := convertFromVTK inputVTK 20%nat in
  Fibers.FiberArray_wf fiberArray ->
  (i < Fibers.no_of_fibers fiberArray)%nat ->
  sigma <> 0 ->
  Np.at2 (Cluster._pairwiseDistance_matrix convertFromVTK inputVTK
            sigma no_of_jobs) i i = 0
  /\ Np.at2 (Cluster._pairwiseSimilarity_matrix convertFromVTK inputVTK
               sigma no_of_jobs) i i = 1.
Proof.
  intros fa Hwf Hi _.
  assert (H0 : Np.at2 (Cluster._pairwiseDistance_matrix convertFromVTK
                         inputVTK sigma no_of_jobs) i i = 0).
  { rewrite (pairwiseDistance_at2 convertFromVTK inputVTK sigma no_of_jobs
               i i Hwf Hi Hi).
    fold fa. rewrite (distance_rows_diag fa i Hwf Hi).
    unfold Rdiv. apply Rmult_0_l. }
  split; [exact H0|].
  rewrite (pairwiseSimilarity_at2 convertFromVTK inputVTK sigma no_of_jobs
             i i Hwf Hi Hi).
  rewrite H0. apply gausKernel_zero.
Qed.

Lemma distance_similarity_diagonal_witness :
  Np.at2 (Cluster._pairwiseDistance_matrix Example.resampled Example.polydata
            60 2) 1 1 = 0
  /\ Np.at2 (Cluster._pairwiseSimilarity_matrix Example.resampled
               Example.polydata 60 2) 1 1 = 1.
Proof.
  apply (distance_similarity_diagonal Example.resampled Example.polydata
           60 2 1).
  - exact example_wf.
  - cbn. lia.
  - lra.
Defined.

(** ** C3: symmetry *)

Lemma example_similarity_at2 (sigma : R) (no_of_jobs : Z) (i j : nat) :
  (i < 3)%nat -> (j < 3)%nat ->
  Np.at2 (Cluster._pairwiseSimilarity_matrix Example.resampled
            Example.polydata sigma no_of_jobs) i j
  = gausKernel (Np.at2 Example.normalized i j) (Np.sq sigma).
Proof.
  intros Hi Hj.
  rewrite (pairwiseSimilarity_at2 Example.resampled Example.polydata
             sigma no_of_jobs i j example_wf Hi Hj).
  rewrite example_pairwiseDistance. reflexivity.
Qed.

Lemma gausKernel_decr (d d' sigma : R) :
  0 < sigma -> d < d' ->
  gausKernel d' (Np.sq sigma) < gausKernel d (Np.sq sigma).
Proof.
  intros Hs Hd. unfold gausKernel.
  apply exp_increasing, kernel_arg_decr; assumption.
Qed.

(** C3, as stated, fails: for the three parallel fibers the normalised
    distance matrix has 1/4 at (0, 1) and 1/9 at (1, 0), and the
    similarity matrix differs at these two places as well. *)
Lemma pairwiseDistance_not_symmetric :
  Np.at2 (Cluster._pairwiseDistance_matrix Example.resampled
            Example.polydata 60 2) 0 1
  <> Np.at2 (Cluster._pairwiseDistance_matrix Example.resampled
               Example.polydata 60 2) 1 0
  /\ Np.at2 (Cluster._pairwiseSimilarity_matrix Example.resampled
               Example.polydata 60 2) 0 1
     <> Np.at2 (Cluster._pairwiseSimilarity_matrix Example.resampled
                  Example.polydata 60 2) 1 0.
Proof.
  split.
  - rewrite example_pairwiseDistance.
    unfold Example.normalized, Np.at2. cbn [nth]. lra.
  - rewrite !example_similarity_at2 by lia.
    unfold Example.normalized, Np.at2. cbn [nth].
    pose proof (gausKernel_decr (1 / 9) (1 / 4) 60) as H. lra.
Qed.

(** ** Diagonal matrices and the degree matrix *)

Lemma diag_length {A} (zero : A) (v : list A) :
  length (Np.diag zero v) = length v.
Proof. unfold Np.diag. rewrite length_map, length_seq. reflexivity. Qed.

Lemma diag_nth {A} (zero : A) (v : list A) (i : nat) :
  (i < length v)%nat ->
  nth i (Np.diag zero v) []
  = map (fun j => if Nat.eqb i j then nth i v zero else zero)
        (seq 0 (length v)).
Proof.
  intros Hi. unfold Np.diag. rewrite nth_map_seq by exact Hi. reflexivity.
Qed.

Lemma diag_row_len {A} (zero : A) (v : list A) :
  Forall (fun row => length row = length v) (Np.diag zero v).
Proof.
  unfold Np.diag. rewrite Forall_forall. intros row Hin.
  apply in_map_iff in Hin. destruct Hin as (i & <- & _).
  rewrite length_map, length_seq. reflexivity.
Qed.

Lemma sum_indicator (a : R) (i s n : nat) :
  Np.sum (map (fun j => if Nat.eqb i j then a else 0) (seq s n))
  = if (s <=? i)%nat && (i <? s + n)%nat then a else 0.
Proof.
  revert s; induction n as [|n IH]; intros s.
  - cbn [seq map]. rewrite sum_nil.
    destruct (s <=? i)%nat eqn:E1, (i <? s + 0)%nat eqn:E2; try reflexivity.
    apply Nat.leb_le in E1. apply Nat.ltb_lt in E2. lia.
  - cbn [seq map]. rewrite sum_cons, IH.
    destruct (Nat.eqb i s) eqn:E.
    + apply Nat.eqb_eq in E. subst s.
      replace (S i <=? i)%nat with false by (symmetry; apply Nat.leb_gt; lia).
      replace (i <=? i)%nat with true by (symmetry; apply Nat.leb_le; lia).
      replace (i <? i + S n)%nat with true by (symmetry; apply Nat.ltb_lt; lia).
      cbn. lra.
    + apply Nat.eqb_neq in E.
      destruct (S s <=? i)%nat eqn:E1, (i <? S s + n)%nat eqn:E2;
        destruct (s <=? i)%nat eqn:E3, (i <? s + S n)%nat eqn:E4;
        cbn; try lra;
        rewrite ?Nat.leb_le, ?Nat.leb_gt, ?Nat.ltb_lt, ?Nat.ltb_ge in *; lia.
Qed.

Lemma col_diag (c : Np.vector) (j : nat) :
  (j < length c)%nat ->
  Np.col j (Np.diag 0 c)
  = map (fun i => if Nat.eqb j i then nth j c 0 else 0) (seq 0 (length c)).
Proof.
  intros Hj. unfold Np.col, Np.diag. rewrite map_map.
  apply map_ext_in. intros i Hin. apply in_seq in Hin.
  rewrite nth_map_seq by exact Hj. cbn [Nat.add].
  destruct (Nat.eqb i j) eqn:E.
  - apply Nat.eqb_eq in E. subst. rewrite Nat.eqb_refl. reflexivity.
  - rewrite Nat.eqb_sym, E. reflexivity.
Qed.

Lemma ncols_diag (c : Np.vector) :
  Np.ncols (Np.diag 0 c) = length c.
Proof.
  unfold Np.ncols, Np.diag. destruct c as [|a c]; [reflexivity|].
  cbn [length seq map hd]. rewrite length_map, length_seq. reflexivity.
Qed.

Lemma sum_axis0_diag (c : Np.vector) :
  Np.sum_axis0 (Np.diag 0 c) = c.
Proof.
  unfold Np.sum_axis0. rewrite ncols_diag.
  apply (nth_ext _ _ 0 0).
  - rewrite length_map, length_seq. reflexivity.
  - intros j Hj. rewrite length_map, length_seq in Hj.
    rewrite nth_map_seq by exact Hj. cbn [Nat.add].
    rewrite col_diag by exact Hj. rewrite sum_indicator.
    replace (0 <=? j)%nat with true by (symmetry; apply Nat.leb_le; lia).
    replace (j <? 0 + length c)%nat with true
      by (symmetry; apply Nat.ltb_lt; lia).
    reflexivity.
Qed.

Lemma sum_diag_row (c : Np.vector) (i : nat) :
  (i < length c)%nat -> Np.sum (nth i (Np.diag 0 c) []) = nth i c 0.
Proof.
  intros Hi. rewrite diag_nth by exact Hi. rewrite sum_indicator.
  replace (0 <=? i)%nat with true by (symmetry; apply Nat.leb_le; lia).
  replace (i <? 0 + length c)%nat with true
    by (symmetry; apply Nat.ltb_lt; lia).
  reflexivity.
Qed.

Lemma sum_axis0_length (W : Np.matrix) :
  length (Np.sum_axis0 W) = Np.ncols W.
Proof. unfold Np.sum_axis0. rewrite length_map, length_seq. reflexivity. Qed.

Lemma sum_axis0_nth (W : Np.matrix) (j : nat) :
  (j < Np.ncols W)%nat -> nth j (Np.sum_axis0 W) 0 = Np.sum (Np.col j W).
Proof.
  intros Hj. unfold Np.sum_axis0. rewrite nth_map_seq by exact Hj.
  reflexivity.
Qed.

(** ** Sums of floats *)

Lemma npsum_fin {A} (f : A -> R) (l : list A) :
  NpFloat.sum (map (fun j => NpFloat.Fin (f j)) l)
  = NpFloat.Fin (Np.sum (map f l)).
Proof.
  induction l as [|a l IH]; [reflexivity|].
  cbn [map]. unfold NpFloat.sum in *. cbn [fold_right].
  rewrite IH. rewrite sum_cons. reflexivity.
Qed.

Lemma sum_scale {A} (u : R) (g : A -> R) (l : list A) :
  Np.sum (map (fun j => u * g j) l) = u * Np.sum (map g l).
Proof.
  induction l as [|a l IH]; cbn [map].
  - rewrite sum_nil. ring.
  - rewrite !sum_cons, IH. ring.
Qed.

Lemma sum_zipWith_minus (a b : Np.vector) :
  length a = length b ->
  Np.sum (Np.zipWith Rminus a b) = Np.sum a - Np.sum b.
Proof.
  revert b; induction a as [|u a IH]; intros [|v b] H;
    try discriminate H; cbn [Np.zipWith].
  - rewrite sum_nil. lra.
  - rewrite !sum_cons, IH by (simpl in H; lia). lra.
Qed.

Lemma map_nth_seq {A} (l : list A) (d : A) :
  map (fun j => nth j l d) (seq 0 (length l)) = l.
Proof.
  apply (nth_ext _ _ d d).
  - rewrite length_map, length_seq. reflexivity.
  - intros j Hj. rewrite length_map, length_seq in Hj.
    rewrite nth_map_seq by exact Hj. reflexivity.
Qed.

Lemma Fin_inj (a b : R) : NpFloat.Fin a = NpFloat.Fin b -> a = b.
Proof. intros H. injection H as H. exact H. Qed.

Lemma is_finite_add (a b : NpFloat.npfloat) :
  NpFloat.is_finite (NpFloat.add a b)
  = NpFloat.is_finite a && NpFloat.is_finite b.
Proof. destruct a, b; reflexivity. Qed.

Lemma is_finite_signed_inf (r : R) :
  NpFloat.is_finite (NpFloat.signed_inf r) = false.
Proof.
  unfold NpFloat.signed_inf.
  destruct (total_order_T r 0) as [[?|?]|?]; reflexivity.
Qed.

Lemma is_finite_mul (a b : NpFloat.npfloat) :
  NpFloat.is_finite (NpFloat.mul a b)
  = NpFloat.is_finite a && NpFloat.is_finite b.
Proof.
  destruct a, b; cbn; try reflexivity; apply is_finite_signed_inf.
Qed.

Lemma is_finite_sum (l : list NpFloat.npfloat) :
  NpFloat.is_finite (NpFloat.sum l) = forallb NpFloat.is_finite l.
Proof.
  induction l as [|a l IH]; [reflexivity|].
  unfold NpFloat.sum in *. cbn [fold_right forallb].
  rewrite is_finite_add, IH. reflexivity.
Qed.

Lemma vdot_nonfinite (a : list NpFloat.npfloat) (b : Np.vector) (i : nat) :
  (i < length a)%nat -> (i < length b)%nat ->
  NpFloat.is_finite (nth i a (NpFloat.Fin 0)) = false ->
  NpFloat.is_finite (NpFloat.vdot a b) = false.
Proof.
  unfold NpFloat.vdot. rewrite is_finite_sum.
  revert b i; induction a as [|u a IH]; intros [|t b] i Ha Hb Hu;
    simpl in Ha, Hb; try lia.
  cbn [Np.zipWith forallb]. destruct i as [|i].
  - cbn [nth] in Hu. rewrite is_finite_mul, Hu. reflexivity.
  - cbn [nth] in Hu. rewrite (IH b i) by (assumption || lia).
    apply andb_false_r.
Qed.

Lemma vdot_indicator (u : R) (i : nat) (b : Np.vector) (s n : nat) :
  NpFloat.vdot
    (map (fun k => if Nat.eqb i k then NpFloat.Fin u else NpFloat.Fin 0)
         (seq s n)) b
  = NpFloat.Fin (if (s <=? i)%nat && (i <? s + n)%nat
                 then u * nth (i - s) b 0 else 0).
Proof.
  revert s b; induction n as [|n IH]; intros s b.
  - cbn [seq map]. unfold NpFloat.vdot, NpFloat.sum.
    cbn [Np.zipWith fold_right].
    replace ((s <=? i)%nat && (i <? s + 0)%nat) with false; [reflexivity|].
    symmetry. apply andb_false_iff.
    destruct (Nat.le_gt_cases s i);
      [right; apply Nat.ltb_ge; lia | left; apply Nat.leb_gt; lia].
  - cbn [seq map]. destruct b as [|t b].
    + unfold NpFloat.vdot, NpFloat.sum. cbn [Np.zipWith fold_right]. f_equal.
      destruct ((s <=? i)%nat && (i <? s + S n)%nat); [|reflexivity].
      destruct (i - s)%nat; cbn [nth]; ring.
    + unfold NpFloat.vdot in *. cbn [Np.zipWith].
      unfold NpFloat.sum in *. cbn [fold_right]. rewrite IH.
      destruct (Nat.eqb i s) eqn:E.
      * apply Nat.eqb_eq in E. subst s. cbn [NpFloat.mul NpFloat.add].
        f_equal.
        replace (S i <=? i)%nat with false
          by (symmetry; apply Nat.leb_gt; lia).
        replace (i <=? i)%nat with true by (symmetry; apply Nat.leb_le; lia).
        replace (i <? i + S n)%nat with true
          by (symmetry; apply Nat.ltb_lt; lia).
        rewrite Nat.sub_diag. cbn [andb nth]. ring.
      * apply Nat.eqb_neq in E. cbn [NpFloat.mul NpFloat.add]. f_equal.
        destruct (S s <=? i)%nat eqn:E1.
        -- apply Nat.leb_le in E1.
           replace (s <=? i)%nat with true
             by (symmetry; apply Nat.leb_le; lia).
           replace (i <? s + S n)%nat with (i <? S s + n)%nat
             by (f_equal; lia).
           cbn [andb].
           destruct (i <? S s + n)%nat; [|ring].
           replace (i - s)%nat with (S (i - S s)) by lia. cbn [nth]. ring.
        -- apply Nat.leb_gt in E1. cbn [andb].
           replace (s <=? i)%nat with false
             by (symmetry; apply Nat.leb_gt; lia).
           cbn [andb]. ring.
Qed.

(** ** The random-walk Laplacian, row by row *)

Section Laplacian.

Variable W : Np.matrix.
Variable n : nat.
Hypothesis W_length : length W = n.
Hypothesis W_rows : Np.row_len n W.
Hypothesis n_pos : (0 < n)%nat.

Let D := Cluster._degreeMatrix W.
Let L := Np.sub D W.

Lemma W_ncols : Np.ncols W = n.
Proof. apply ncols_row_len; [exact W_rows | lia]. Qed.

Lemma degrees_length : length (Np.sum_axis0 W) = n.
Proof. rewrite sum_axis0_length. apply W_ncols. Qed.

Lemma degree_colsums : Np.sum_axis0 (Cluster._degreeMatrix W) = Np.sum_axis0 W.
Proof. unfold Cluster._degreeMatrix. apply sum_axis0_diag. Qed.

Lemma degree_length : length D = n.
Proof.
  unfold D, Cluster._degreeMatrix. rewrite diag_length. apply degrees_length.
Qed.

Lemma degree_row_len : Np.row_len n D.
Proof.
  unfold D, Cluster._degreeMatrix, Np.row_len.
  rewrite <- degrees_length. apply diag_row_len.
Qed.

Lemma laplacian_length : length L = n.
Proof.
  unfold L, Np.sub. rewrite zipWith_length; rewrite degree_length; congruence.
Qed.

Lemma laplacian_nth (i : nat) :
  (i < n)%nat ->
  nth i L [] = Np.zipWith Rminus (nth i D []) (nth i W []).
Proof.
  intros Hi. unfold L, Np.sub.
  apply (zipWith_nth (Np.zipWith Rminus) D W i [] [] []).
  - rewrite degree_length. exact Hi.
  - rewrite degree_length. congruence.
Qed.

Lemma laplacian_row_len : Np.row_len n L.
Proof.
  unfold Np.row_len. rewrite Forall_forall. intros row Hin.
  destruct (In_nth _ _ [] Hin) as (i & Hi & <-).
  rewrite laplacian_length in Hi. rewrite laplacian_nth by exact Hi.
  rewrite zipWith_length;
    rewrite (row_len_nth n D i degree_row_len)
      by (rewrite degree_length; exact Hi);
    [reflexivity|].
  symmetry. apply row_len_nth; [exact W_rows | lia].
Qed.

Lemma laplacian_ncols : Np.ncols L = n.
Proof.
  apply ncols_row_len; [apply laplacian_row_len|].
  rewrite laplacian_length. exact n_pos.
Qed.

Lemma laplacian_row_sum (i : nat) :
  (i < n)%nat ->
  Np.sum (nth i L []) = Np.sum (Np.col i W) - Np.sum (nth i W []).
Proof.
  intros Hi. rewrite laplacian_nth by exact Hi.
  rewrite sum_zipWith_minus.
  - unfold D, Cluster._degreeMatrix.
    rewrite sum_diag_row by (rewrite degrees_length; exact Hi).
    rewrite sum_axis0_nth by (rewrite W_ncols; exact Hi). reflexivity.
  - rewrite (row_len_nth n D i degree_row_len)
      by (rewrite degree_length; exact Hi).
    symmetry. apply row_len_nth; [exact W_rows | lia].
Qed.

(** Row [i] of the random-walk Laplacian: entry [j] is the product of
    [1 / degree i] with entry (i, j) of [D - W], plus zeros. *)
Lemma randomWalkLaplacian_nth (i : nat) :
  (i < n)%nat ->
  nth i (Cluster.randomWalkLaplacian W) []
  = map (fun j =>
           NpFloat.vdot
             (map (fun k =>
                     if Nat.eqb i k
                     then NpFloat.div (NpFloat.Fin 1)
                            (NpFloat.Fin (Np.sum (Np.col i W)))
                     else NpFloat.Fin 0)
                  (seq 0 n))
             (Np.col j L))
        (seq 0 n).
Proof.
  intros Hi. unfold Cluster.randomWalkLaplacian, NpFloat.dot.
  fold D. fold L. rewrite laplacian_ncols.
  unfold D at 1. rewrite degree_colsums.
  set (v := map (fun d => NpFloat.div (NpFloat.Fin 1) (NpFloat.Fin d))
                (Np.sum_axis0 W)).
  assert (Lv : length v = n)
    by (unfold v; rewrite length_map; apply degrees_length).
  rewrite (nth_map_in _ (Np.diag (NpFloat.Fin 0) v) i [] [])
    by (rewrite diag_length, Lv; exact Hi).
  rewrite diag_nth by (rewrite Lv; exact Hi). rewrite Lv.
  assert (Hv : nth i v (NpFloat.Fin 0)
               = NpFloat.div (NpFloat.Fin 1)
                   (NpFloat.Fin (Np.sum (Np.col i W)))).
  { unfold v.
    rewrite (nth_map_in _ (Np.sum_axis0 W) i 0 (NpFloat.Fin 0))
      by (rewrite degrees_length; exact Hi).
    rewrite sum_axis0_nth by (rewrite W_ncols; exact Hi). reflexivity. }
  rewrite Hv. reflexivity.
Qed.

Lemma randomWalkLaplacian_row_length (i : nat) :
  (i < n)%nat -> length (nth i (Cluster.randomWalkLaplacian W) []) = n.
Proof.
  intros Hi. rewrite randomWalkLaplacian_nth by exact Hi.
  rewrite length_map, length_seq. reflexivity.
Qed.

(** With a degree other than 0 the row sums to
    [(degree - row sum of W) / degree]. *)
Lemma randomWalkLaplacian_row_sum (i : nat) :
  (i < n)%nat -> Np.sum (Np.col i W) <> 0 ->
  NpFloat.sum (nth i (Cluster.randomWalkLaplacian W) [])
  = NpFloat.Fin ((Np.sum (Np.col i W) - Np.sum (nth i W []))
                 / Np.sum (Np.col i W)).
Proof.
  intros Hi Hc. rewrite randomWalkLaplacian_nth by exact Hi.
  unfold NpFloat.div. destruct (Req_dec_T (Np.sum (Np.col i W)) 0) as [E|_];
    [contradiction|].
  set (u := 1 / Np.sum (Np.col i W)).
  rewrite (map_ext_in _ (fun j => NpFloat.Fin (u * nth j (nth i L []) 0))).
  - rewrite npsum_fin, sum_scale.
    rewrite <- (row_len_nth n L i laplacian_row_len)
      by (rewrite laplacian_length; exact Hi).
    rewrite map_nth_seq, laplacian_row_sum by exact Hi.
    f_equal. unfold u, Rdiv. ring.
  - intros j Hj. rewrite vdot_indicator.
    replace (0 <=? i)%nat with true by (symmetry; apply Nat.leb_le; lia).
    replace (i <? 0 + n)%nat with true by (symmetry; apply Nat.ltb_lt; lia).
    cbn [andb]. rewrite Nat.sub_0_r.
    rewrite col_nth by (rewrite laplacian_length; exact Hi).
    reflexivity.
Qed.

(** With a degree of 0 the division is carried out all the same and
    every entry of the row is an infinity or NaN. *)
Lemma randomWalkLaplacian_zero_degree (i : nat) :
  (i < n)%nat -> Np.sum (Np.col i W) = 0 ->
  Forall (fun e => NpFloat.is_finite e = false)
         (nth i (Cluster.randomWalkLaplacian W) []).
Proof.
  intros Hi Hc. rewrite randomWalkLaplacian_nth by exact Hi.
  rewrite Forall_forall. intros e Hin.
  apply in_map_iff in Hin. destruct Hin as (j & <- & _).
  apply (vdot_nonfinite _ _ i).
  - rewrite length_map, length_seq. exact Hi.
  - rewrite col_length, laplacian_length. exact Hi.
  - rewrite nth_map_seq by exact Hi. cbn [Nat.add].
    rewrite Nat.eqb_refl, Hc. unfold NpFloat.div.
    destruct (Req_dec_T 0 0) as [_|E]; [|contradiction].
    apply is_finite_signed_inf.
Qed.

End Laplacian.

(** ** The similarity matrix of the pipeline: shape and positivity *)

Lemma pairwiseSimilarity_shape
      (convertFromVTK : Vtk.vtkPolyData -> nat -> Fibers.FiberArray)
      (inputVTK : Vtk.vtkPolyData) (sigma : R) (no_of_jobs : Z) :
  let fiberArray := convertFromVTK inputVTK 20%nat in
  Fibers.FiberArray_wf fiberArray ->
  (0 < Fibers.no_of_fibers fiberArray)%nat ->
  length (Cluster._pairwiseSimilarity_matrix convertFromVTK inputVTK
            sigma no_of_jobs) = Fibers.no_of_fibers fiberArray
  /\ Np.row_len (Fibers.no_of_fibers fiberArray)
       (Cluster._pairwiseSimilarity_matrix convertFromVTK inputVTK
          sigma no_of_jobs).
Proof.
  intros fa Hwf Hpos.
  destruct (pairwiseDistance_shape convertFromVTK inputVTK sigma no_of_jobs
              Hwf Hpos) as [Hlen Hrows].
  unfold Cluster._pairwiseSimilarity_matrix.
  destruct (gausKernel_similarity_shape _ (Np.sq sigma) _ Hrows) as [H1 H2].
  split; [rewrite H1; exact Hlen | exact H2].
Qed.

Lemma sum_pos (v : Np.vector) :
  v <> [] -> Forall (fun t => 0 < t) v -> 0 < Np.sum v.
Proof.
  intros Hne Hv. destruct v as [|a v]; [contradiction|].
  clear Hne. revert a Hv. induction v as [|b v IH]; intros a Hv.
  - inversion Hv; subst. rewrite sum_cons, sum_nil. lra.
  - inversion Hv; subst. rewrite sum_cons.
    specialize (IH b H2). lra.
Qed.

Lemma pairwiseSimilarity_degree_pos
      (convertFromVTK : Vtk.vtkPolyData -> nat -> Fibers.FiberArray)
      (inputVTK : Vtk.vtkPolyData) (sigma : R) (no_of_jobs : Z) (i : nat) :
  let fiberArray := convertFromVTK inputVTK 20%nat in
  Fibers.FiberArray_wf fiberArray ->
  (i < Fibers.no_of_fibers fiberArray)%nat ->
  0 < Np.sum (Np.col i (Cluster._pairwiseSimilarity_matrix convertFromVTK
                          inputVTK sigma no_of_jobs)).
Proof.
  intros fa Hwf Hi.
  destruct (pairwiseSimilarity_shape convertFromVTK inputVTK sigma no_of_jobs
              Hwf) as [Hlen Hrows]; [unfold fa in Hi; lia|].
  fold fa in Hlen, Hrows.
  apply sum_pos.
  - intros E. apply (f_equal (@length R)) in E.
    rewrite col_length, Hlen in E. simpl in E. lia.
  - rewrite Forall_forall. intros t Hin.
    destruct (In_nth _ _ 0 Hin) as (k & Hk & <-).
    rewrite col_length in Hk. rewrite col_nth by exact Hk.
    rewrite Hlen in Hk.
    rewrite (pairwiseSimilarity_at2 convertFromVTK inputVTK sigma no_of_jobs
               k i Hwf Hk Hi).
    apply gausKernel_pos.
Qed.

(** ** C4: row sums of the random-walk Laplacian *)

Lemma example_similarity (sigma : R) (no_of_jobs : Z) :
  Cluster._pairwiseSimilarity_matrix Example.resampled Example.polydata
    sigma no_of_jobs
  = map (map (fun d => gausKernel d (Np.sq sigma))) Example.normalized.
Proof.
  unfold Cluster._pairwiseSimilarity_matrix.
  rewrite example_pairwiseDistance. reflexivity.
Qed.

Lemma gausKernel_gap :
  / 60000 <= gausKernel (1 / 9) (Np.sq 60) - gausKernel (1 / 4) (Np.sq 60).
Proof.
  unfold gausKernel, Np.sq.
  replace (- (1 / 9) / (2 * (60 * 60)))
    with (- (1 / 28800) + (1 / 28800 - 1 / 64800)) by lra.
  replace (- (1 / 4) / (2 * (60 * 60))) with (- (1 / 28800)) by lra.
  rewrite exp_plus.
  pose proof (exp_ineq1_le (- (1 / 28800))) as H1.
  pose proof (exp_ineq1_le (1 / 28800 - 1 / 64800)) as H2.
  nra.
Qed.

(** C4 fails on the code.  For the three parallel fibers at x = 0, 1
    and 3 and [sigma = 60], row 0 of the random-walk Laplacian the code
    builds sums to more than 10^-6, far above the rounding of a sum of
    three numbers of size 1: [_degreeMatrix] takes the sums of the
    columns of the similarity matrix, the product with the inverse
    degrees scales its rows, and the similarity matrix is not
    symmetric. *)
Lemma laplacian_row_sum_above_tolerance :
  exists t : R,
    NpFloat.sum
      (nth 0 (Cluster.randomWalkLaplacian
                (Cluster._pairwiseSimilarity_matrix Example.resampled
                   Example.polydata 60 2)) [])
    = NpFloat.Fin t
    /\ / 1000000 < t.
Proof.
  pose proof (pairwiseSimilarity_degree_pos Example.resampled
                Example.polydata 60 2 0 example_wf) as Hpos.
  specialize (Hpos ltac:(cbn; lia)).
  destruct (pairwiseSimilarity_shape Example.resampled Example.polydata 60 2
              example_wf) as [Hlen Hrows]; [cbn; lia|].
  change (Fibers.no_of_fibers (Example.resampled Example.polydata 20))
    with 3%nat in Hlen, Hrows.
  rewrite (randomWalkLaplacian_row_sum _ 3 Hlen Hrows) by (lia || lra).
  eexists. split; [reflexivity|].
  assert (Hd : Np.sum (Np.col 0 (Cluster._pairwiseSimilarity_matrix
                                   Example.resampled Example.polydata 60 2))
               - Np.sum (nth 0 (Cluster._pairwiseSimilarity_matrix
                                  Example.resampled Example.polydata 60 2) [])
               = gausKernel (1 / 9) (Np.sq 60) - gausKernel (1 / 4) (Np.sq 60)).
  { rewrite example_similarity. unfold Example.normalized, Np.col.
    cbn [map nth]. rewrite !sum_cons, sum_nil. lra. }
  assert (Hc : Np.sum (Np.col 0 (Cluster._pairwiseSimilarity_matrix
                                   Example.resampled Example.polydata 60 2))
               <= 3).
  { rewrite example_similarity. unfold Example.normalized, Np.col.
    cbn [map nth]. rewrite !sum_cons, sum_nil.
    pose proof (gausKernel_unit_range 0 60 ltac:(lra) ltac:(lra)).
    pose proof (gausKernel_unit_range (1 / 9) 60 ltac:(lra) ltac:(lra)).
    pose proof (gausKernel_unit_range 1 60 ltac:(lra) ltac:(lra)).
    lra. }
  rewrite Hd. pose proof gausKernel_gap as Hg.
  set (c := Np.sum (Np.col 0 (Cluster._pairwiseSimilarity_matrix
                                Example.resampled Example.polydata 60 2))) in *.
  set (g := gausKernel (1 / 9) (Np.sq 60) - gausKernel (1 / 4) (Np.sq 60)) in *.
  apply Rlt_le_trans with (/ 60000 / 3); [lra|].
  unfold Rdiv.
  assert (Hi : / 3 <= / c) by (apply Rinv_le_contravar; lra).
  assert (0 < / c) by (apply Rinv_0_lt_compat; lra).
  nra.
Qed.

(** ** Colours *)

Lemma zipWith_map_same {A B C D} (g : B -> C -> D) (a : A -> B) (b : A -> C)
      (l : list A) :
  Np.zipWith g (map a l) (map b l) = map (fun t => g (a t) (b t)) l.
Proof.
  induction l as [|t l IH]; [reflexivity|].
  cbn [map Np.zipWith]. rewrite IH. reflexivity.
Qed.

Lemma cluster_to_rgb_rows (data : Np.matrix) :
  Cluster._cluster_to_rgb data
  = map (fun drow =>
           map (fun c =>
                  NpFloat.add (NpFloat.Fin 127.5)
                    (NpFloat.mul
                       (NpFloat.div (NpFloat.Fin c)
                                    (NpFloat.Fin (Spec.colour_norm drow)))
                       (NpFloat.Fin 127.5)))
               (firstn 3 drow))
        data.
Proof.
  unfold Cluster._cluster_to_rgb, Spec.colour_norm.
  rewrite (map_map (firstn 3)).
  rewrite (zipWith_map_same
             (fun row len =>
                map (fun c => NpFloat.div (NpFloat.Fin c) (NpFloat.Fin len))
                    row)).
  rewrite map_map. apply map_ext. intros drow.
  rewrite map_map. reflexivity.
Qed.

Lemma nth_error_firstn_lt {A} (l : list A) (k m : nat) (a : A) :
  nth_error (firstn m l) k = Some a -> (k < m)%nat /\ nth_error l k = Some a.
Proof.
  revert l k; induction m as [|m IH]; intros l k H.
  - rewrite firstn_O in H. destruct k; discriminate H.
  - destruct l as [|t l]; [destruct k; discriminate H|].
    cbn [firstn] in H. destruct k as [|k].
    + split; [lia | exact H].
    + cbn [nth_error] in H. destruct (IH l k H) as [Hk Hn].
      split; [lia | exact Hn].
Qed.

Lemma Some_inj {A} (a b : A) : Some a = Some b -> a = b.
Proof. congruence. Qed.

Lemma cluster_to_rgb_entry (data : Np.matrix) (c k : nat)
      (row : list NpFloat.npfloat) (v : NpFloat.npfloat) :
  nth_error (Cluster._cluster_to_rgb data) c = Some row ->
  nth_error row k = Some v ->
  exists drow : Np.vector,
    nth_error data c = Some drow
    /\ (k < length drow)%nat
    /\ v = Spec.rgb_component drow k.
Proof.
  rewrite cluster_to_rgb_rows. intros Hrow Hv.
  rewrite nth_error_map in Hrow. unfold Np.matrix, Np.vector in *.
  destruct (nth_error data c) as [drow|]; cbn [option_map] in Hrow;
    [|discriminate Hrow].
  apply Some_inj in Hrow. subst row.
  rewrite nth_error_map in Hv.
  destruct (nth_error (firstn 3 drow) k) as [t|] eqn:Ht;
    cbn [option_map] in Hv; [|discriminate Hv].
  apply Some_inj in Hv. subst v.
  exists drow. destruct (nth_error_firstn_lt _ _ _ _ Ht) as [_ Hk].
  split; [reflexivity|]. split.
  - apply nth_error_Some. rewrite Hk. discriminate.
  - unfold Spec.rgb_component.
    rewrite (nth_error_nth drow k 0 Hk). reflexivity.
Qed.

Lemma to_uchar_byte (v : NpFloat.npfloat) : (0 <= Vtk.to_uchar v <= 255)%Z.
Proof.
  destruct v as [r| | |]; cbn [Vtk.to_uchar]; try lia.
  pose proof (Z.mod_pos_bound (if Rlt_dec r 0 then Zceil r else Zfloor r)
                256 ltac:(lia)).
  lia.
Qed.

Lemma sq_le_sum (l : Np.vector) (t : R) :
  In t l -> t ^ 2 <= Np.sum (map (fun c => c ^ 2) l).
Proof.
  induction l as [|a l IH]; intros Hin; [destruct Hin|].
  cbn [map]. rewrite sum_cons.
  assert (Hnn : 0 <= Np.sum (map (fun c => c ^ 2) l)).
  { clear. induction l as [|b l IH]; cbn [map].
    - rewrite sum_nil. lra.
    - rewrite sum_cons. pose proof (pow2_ge_0 b). lra. }
  destruct Hin as [-> | Hin].
  - lra.
  - specialize (IH Hin). pose proof (pow2_ge_0 a). lra.
Qed.

Lemma abs_le_colour_norm (row : Np.vector) (k : nat) :
  (k < 3)%nat -> (k < length row)%nat ->
  Rabs (nth k row 0) <= Spec.colour_norm row.
Proof.
  intros Hk3 Hk. unfold Spec.colour_norm.
  rewrite <- (sqrt_pow2 (Rabs (nth k row 0))) by apply Rabs_pos.
  apply sqrt_le_1_alt. rewrite RPow_abs, Rabs_pos_eq by apply pow2_ge_0.
  apply sq_le_sum.
  rewrite <- (firstn_skipn 3 row) at 1.
  rewrite app_nth1 by (rewrite length_firstn; lia).
  apply nth_In. rewrite length_firstn. lia.
Qed.

Lemma rgb_component_range (row : Np.vector) (k : nat) :
  (k < 3)%nat -> (k < length row)%nat -> Spec.colour_norm row <> 0 ->
  exists t : R,
    Spec.rgb_component row k = NpFloat.Fin t
    /\ 0 <= t <= 255
    /\ Vtk.to_uchar (NpFloat.Fin t) = Zfloor t.
Proof.
  intros Hk3 Hk Hn.
  pose proof (abs_le_colour_norm row k Hk3 Hk) as Habs.
  assert (Hpos : 0 < Spec.colour_norm row).
  { pose proof (Rabs_pos (nth k row 0)). lra. }
  unfold Spec.rgb_component, NpFloat.div.
  destruct (Req_dec_T (Spec.colour_norm row) 0) as [E|_]; [contradiction|].
  cbn [NpFloat.mul NpFloat.add].
  set (q := nth k row 0 / Spec.colour_norm row).
  assert (Hq : -1 <= q <= 1).
  { assert (Hx : - Spec.colour_norm row <= nth k row 0
                 <= Spec.colour_norm row).
    { unfold Rabs in Habs.
      destruct (Rcase_abs (nth k row 0)); lra. }
    unfold q, Rdiv. split.
    - apply (Rmult_le_reg_r (Spec.colour_norm row)); [exact Hpos|].
      rewrite Rmult_assoc, Rinv_l by lra. lra.
    - apply (Rmult_le_reg_r (Spec.colour_norm row)); [exact Hpos|].
      rewrite Rmult_assoc, Rinv_l by lra. lra. }
  exists (127.5 + q * 127.5). split; [reflexivity|]. split; [lra|].
  cbn [Vtk.to_uchar].
  destruct (Rlt_dec (127.5 + q * 127.5) 0) as [Hneg|_]; [lra|].
  assert (Hf : (0 <= Zfloor (127.5 + q * 127.5) <= 255)%Z).
  { split.
    - apply Zfloor_lub. lra.
    - apply le_IZR.
      pose proof (Zfloor_bound (127.5 + q * 127.5)) as Hb. lra. }
  apply Z.mod_small. lia.
Qed.

(** ** The output loop and the whole run *)

Lemma format_rows_nth (clusterIdx : list nat)
      (colour : list (list NpFloat.npfloat)) :
  forall (fidxs : list nat) (tuples : list (list Z)) (numbers : list Z),
    Cluster.format_rows fidxs clusterIdx colour = Some (tuples, numbers) ->
    forall (p fidx : nat),
      nth_error fidxs p = Some fidx ->
      exists (c : nat) (row : list NpFloat.npfloat)
             (c0 c1 c2 : NpFloat.npfloat),
        nth_error clusterIdx fidx = Some c
        /\ nth_error colour c = Some row
        /\ nth_error row 0 = Some c0
        /\ nth_error row 1 = Some c1
        /\ nth_error row 2 = Some c2
        /\ nth_error tuples p
           = Some [Vtk.to_uchar c0; Vtk.to_uchar c1; Vtk.to_uchar c2]
        /\ nth_error numbers p = Some (Z.of_nat c).
Proof.
  induction fidxs as [|f fidxs IH]; intros tuples numbers H p fidx Hp.
  - destruct p; discriminate Hp.
  - cbn [Cluster.format_rows] in H.
    destruct (nth_error clusterIdx f) as [c|] eqn:Hc; [|discriminate H].
    destruct (nth_error colour c) as [row|] eqn:Hrow; [|discriminate H].
    destruct (nth_error row 0) as [c0|] eqn:H0; [|discriminate H].
    destruct (nth_error row 1) as [c1|] eqn:H1; [|discriminate H].
    destruct (nth_error row 2) as [c2|] eqn:H2; [|discriminate H].
    destruct (Cluster.format_rows fidxs clusterIdx colour)
      as [[tuples' numbers']|] eqn:Hrest; [|discriminate H].
    apply Some_inj in H.
    assert (Ht : tuples = [Vtk.to_uchar c0; Vtk.to_uchar c1; Vtk.to_uchar c2]
                          :: tuples') by congruence.
    assert (Hn : numbers = Z.of_nat c :: numbers') by congruence.
    subst tuples numbers. destruct p as [|p].
    + cbn [nth_error] in Hp. apply Some_inj in Hp. subst f.
      exists c, row, c0, c1, c2. repeat split; assumption || reflexivity.
    + cbn [nth_error] in Hp |- *.
      apply (IH tuples' numbers' eq_refl p fidx Hp).
Qed.

Lemma format_rows_needs_three (clusterIdx : list nat)
      (colour : list (list NpFloat.npfloat)) (fidxs : list nat) :
  fidxs <> [] ->
  Forall (fun row => (length row < 3)%nat) colour ->
  Cluster.format_rows fidxs clusterIdx colour = None.
Proof.
  intros Hne Hshort. destruct fidxs as [|f fidxs]; [contradiction|].
  cbn [Cluster.format_rows].
  destruct (nth_error clusterIdx f) as [c|]; [|reflexivity].
  destruct (nth_error colour c) as [row|] eqn:Hrow; [|reflexivity].
  rewrite Forall_forall in Hshort.
  specialize (Hshort row (nth_error_In _ _ Hrow)).
  destruct (nth_error row 0); [|reflexivity].
  destruct (nth_error row 1); [|reflexivity].
  replace (nth_error row 2) with (@None NpFloat.npfloat); [reflexivity|].
  symmetry. apply nth_error_None. lia.
Qed.

(** One step of a run: the monad operations unfolded and reduced. *)
Ltac run_step :=
  cbv beta iota zeta
      delta [Cluster.bind Cluster.print Cluster.enter Cluster.lift
             Cluster.ret Cluster.raise Cluster._format_outputVTK
             Cluster.get_geometry Cluster.modify_geometry];
  cbn [Cluster.geometry Cluster.stdout Cluster.entered fst snd].

Section Run.

Variable convertFromVTK : Vtk.vtkPolyData -> nat -> Fibers.FiberArray.
Variable eig : list (list NpFloat.npfloat) -> option Np.matrix.
Variable kmeans2 : Np.matrix -> Z -> option (Np.matrix * list nat).
Variables (k_clusters no_of_eigvec : Z) (sigma : R) (no_of_jobs : Z).

(** What a run that returns a result has gone through. *)
Lemma spectralClustering_returns
      (w w' : Cluster.world) (pd : Vtk.vtkPolyData) (clusterIdx : list nat)
      (colour : list (list NpFloat.npfloat)) (centroids : Np.matrix) :
  Cluster.spectralClustering convertFromVTK eig kmeans2
    k_clusters no_of_eigvec sigma no_of_jobs w
  = (Cluster.Val (Some (pd, clusterIdx, colour, centroids)), w') ->
  exists (eigvec : Np.matrix) (tuples : list (list Z)) (numbers : list Z),
    no_of_eigvec <> 1%Z
    /\ Vtk.GetNumberOfLines (Cluster.geometry w) <> 0%nat
    /\ eig (Cluster.randomWalkLaplacian
              (Cluster._pairwiseSimilarity_matrix convertFromVTK
                 (Cluster.geometry w) sigma no_of_jobs)) = Some eigvec
    /\ kmeans2 (map (Cluster.slice_to no_of_eigvec) eigvec) k_clusters
       = Some (centroids, clusterIdx)
    /\ colour
       = Cluster._cluster_to_rgb
           (if (no_of_eigvec =? 2)%Z
            then map (Cluster.slice_to no_of_eigvec) eigvec
            else centroids)
    /\ Cluster.format_rows
         (seq 0 (Vtk.GetNumberOfLines (Cluster.geometry w)))
         clusterIdx colour = Some (tuples, numbers)
    /\ pd = Vtk.SetScalars (Vtk.vtkUnsignedCharArray "DataColour" 3 tuples)
              (Vtk.AddArray (Vtk.vtkIntArray "ClusterNumber" numbers)
                 (Vtk.AddArray
                    (Vtk.vtkUnsignedCharArray "DataColour" 3 tuples)
                    (Cluster.geometry w)))
    /\ Cluster.geometry w' = pd.
Proof.
  unfold Cluster.spectralClustering.
  destruct (no_of_eigvec =? 1)%Z eqn:HK1.
  { intros H. discriminate H. }
  run_step.
  destruct (Vtk.GetNumberOfLines (Cluster.geometry w) =? 0)%nat eqn:HN;
    run_step; [intros H; discriminate H|].
  destruct (eig (Cluster.randomWalkLaplacian
                   (Cluster._pairwiseSimilarity_matrix convertFromVTK
                      (Cluster.geometry w) sigma no_of_jobs)))
    as [eigvec|] eqn:Heig; run_step; [|intros H; discriminate H].
  destruct (kmeans2 (map (Cluster.slice_to no_of_eigvec) eigvec) k_clusters)
    as [[cen idx]|] eqn:Hkm; run_step; [|intros H; discriminate H].
  destruct (Cluster.format_rows
              (seq 0 (Vtk.GetNumberOfLines (Cluster.geometry w))) idx
              (if (no_of_eigvec =? 2)%Z
               then Cluster._cluster_to_rgb
                      (map (Cluster.slice_to no_of_eigvec) eigvec)
               else Cluster._cluster_to_rgb cen))
    as [[tuples numbers]|] eqn:Hfmt; run_step; [|intros H; discriminate H].
  intros H.
  assert (Hpd : Vtk.SetScalars
                  (Vtk.vtkUnsignedCharArray "DataColour" 3 tuples)
                  (Vtk.AddArray (Vtk.vtkIntArray "ClusterNumber" numbers)
                     (Vtk.AddArray
                        (Vtk.vtkUnsignedCharArray "DataColour" 3 tuples)
                        (Cluster.geometry w))) = pd) by congruence.
  assert (Hidx : idx = clusterIdx) by congruence.
  assert (Hcen : cen = centroids) by congruence.
  assert (Hcol : (if (no_of_eigvec =? 2)%Z
                  then Cluster._cluster_to_rgb
                         (map (Cluster.slice_to no_of_eigvec) eigvec)
                  else Cluster._cluster_to_rgb cen) = colour) by congruence.
  assert (Hw : Cluster.geometry w' = pd).
  { rewrite <- Hpd.
    apply (f_equal (fun r => Cluster.geometry (snd r))) in H.
    symmetry. exact H. }
  subst idx cen.
  exists eigvec, tuples, numbers.
  repeat split.
  - apply Z.eqb_neq, HK1.
  - apply Nat.eqb_neq, HN.
  - exact Hkm.
  - rewrite <- Hcol. destruct (no_of_eigvec =? 2)%Z; reflexivity.
  - rewrite <- Hcol. exact Hfmt.
  - symmetry. exact Hpd.
  - exact Hw.
Qed.

(** A run whose library calls answer and whose output loop finds every
    index in range returns the result. *)
Lemma spectralClustering_run
      (w : Cluster.world) (eigvec : Np.matrix) (centroids : Np.matrix)
      (clusterIdx : list nat) (tuples : list (list Z)) (numbers : list Z) :
  let colour :=
    Cluster._cluster_to_rgb
      (if (no_of_eigvec =? 2)%Z
       then map (Cluster.slice_to no_of_eigvec) eigvec
       else centroids) in
  let pd :=
    Vtk.SetScalars (Vtk.vtkUnsignedCharArray "DataColour" 3 tuples)
      (Vtk.AddArray (Vtk.vtkIntArray "ClusterNumber" numbers)
         (Vtk.AddArray (Vtk.vtkUnsignedCharArray "DataColour" 3 tuples)
            (Cluster.geometry w))) in
  no_of_eigvec <> 1%Z ->
  Vtk.GetNumberOfLines (Cluster.geometry w) <> 0%nat ->
  eig (Cluster.randomWalkLaplacian
         (Cluster._pairwiseSimilarity_matrix convertFromVTK
            (Cluster.geometry w) sigma no_of_jobs)) = Some eigvec ->
  kmeans2 (map (Cluster.slice_to no_of_eigvec) eigvec) k_clusters
  = Some (centroids, clusterIdx) ->
  Cluster.format_rows (seq 0 (Vtk.GetNumberOfLines (Cluster.geometry w)))
    clusterIdx colour = Some (tuples, numbers) ->
  Cluster.spectralClustering convertFromVTK eig kmeans2
    k_clusters no_of_eigvec sigma no_of_jobs w
  = (Cluster.Val (Some (pd, clusterIdx, colour, centroids)),
     Cluster.mkWorld
       (((Cluster.stdout w ++ [Cluster.Line "Starting clustering..."])
         ++ [Cluster.LineInt "No. of fibers:"
               (Z.of_nat (Vtk.GetNumberOfLines (Cluster.geometry w)))])
        ++ [Cluster.LineInt "No. of clusters:" k_clusters])
       pd
       (Cluster.entered w ++ ["_pairwiseSimilarity_matrix"%string])).
Proof.
  intros colour pd HK HN Heig Hkm Hfmt.
  unfold Cluster.spectralClustering.
  apply Z.eqb_neq in HK. rewrite HK. run_step.
  apply Nat.eqb_neq in HN. rewrite HN. run_step.
  rewrite Heig. run_step. rewrite Hkm. run_step.
  replace (if (no_of_eigvec =? 2)%Z
           then Cluster._cluster_to_rgb
                  (map (Cluster.slice_to no_of_eigvec) eigvec)
           else Cluster._cluster_to_rgb centroids) with colour
    by (unfold colour; destruct (no_of_eigvec =? 2)%Z; reflexivity).
  rewrite Hfmt. run_step. reflexivity.
Qed.

(** A run whose output loop meets an index out of range raises
    [IndexError]; the geometry object is as it was. *)
Lemma spectralClustering_index_error
      (w : Cluster.world) (eigvec : Np.matrix) (centroids : Np.matrix)
      (clusterIdx : list nat) :
  no_of_eigvec <> 1%Z ->
  Vtk.GetNumberOfLines (Cluster.geometry w) <> 0%nat ->
  eig (Cluster.randomWalkLaplacian
         (Cluster._pairwiseSimilarity_matrix convertFromVTK
            (Cluster.geometry w) sigma no_of_jobs)) = Some eigvec ->
  kmeans2 (map (Cluster.slice_to no_of_eigvec) eigvec) k_clusters
  = Some (centroids, clusterIdx) ->
  Cluster.format_rows (seq 0 (Vtk.GetNumberOfLines (Cluster.geometry w)))
    clusterIdx
    (Cluster._cluster_to_rgb
       (if (no_of_eigvec =? 2)%Z
        then map (Cluster.slice_to no_of_eigvec) eigvec
        else centroids)) = None ->
  Cluster.spectralClustering convertFromVTK eig kmeans2
    k_clusters no_of_eigvec sigma no_of_jobs w
  = (Cluster.Exc Cluster.IndexError,
     Cluster.mkWorld
       (((Cluster.stdout w ++ [Cluster.Line "Starting clustering..."])
         ++ [Cluster.LineInt "No. of fibers:"
               (Z.of_nat (Vtk.GetNumberOfLines (Cluster.geometry w)))])
        ++ [Cluster.LineInt "No. of clusters:" k_clusters])
       (Cluster.geometry w)
       (Cluster.entered w ++ ["_pairwiseSimilarity_matrix"%string])).
Proof.
  intros HK HN Heig Hkm Hfmt.
  unfold Cluster.spectralClustering.
  apply Z.eqb_neq in HK. rewrite HK. run_step.
  apply Nat.eqb_neq in HN. rewrite HN. run_step.
  rewrite Heig. run_step. rewrite Hkm. run_step.
  replace (if (no_of_eigvec =? 2)%Z
           then Cluster._cluster_to_rgb
                  (map (Cluster.slice_to no_of_eigvec) eigvec)
           else Cluster._cluster_to_rgb centroids)
    with (Cluster._cluster_to_rgb
            (if (no_of_eigvec =? 2)%Z
             then map (Cluster.slice_to no_of_eigvec) eigvec
             else centroids))
    by (destruct (no_of_eigvec =? 2)%Z; reflexivity).
  rewrite Hfmt. run_step. reflexivity.
Qed.

(** With two eigenvectors the coloured matrix has two columns and the
    output loop never finds a third colour component. *)
Lemma two_eigvec_no_result
      (w w' : Cluster.world) (pd : Vtk.vtkPolyData) (clusterIdx : list nat)
      (colour : list (list NpFloat.npfloat)) (centroids : Np.matrix) :
  no_of_eigvec = 2%Z ->
  Cluster.spectralClustering convertFromVTK eig kmeans2
    k_clusters no_of_eigvec sigma no_of_jobs w
  <> (Cluster.Val (Some (pd, clusterIdx, colour, centroids)), w').
Proof.
  intros HK H.
  destruct (spectralClustering_returns _ _ _ _ _ _ H)
    as (eigvec & tuples & numbers & _ & HN & _ & _ & Hcol & Hfmt & _).
  rewrite HK in Hcol. cbn [Z.eqb Pos.eqb] in Hcol.
  rewrite format_rows_needs_three in Hfmt; [discriminate Hfmt | | ].
  - destruct (Vtk.GetNumberOfLines (Cluster.geometry w)); [contradiction|].
    discriminate.
  - rewrite Hcol, cluster_to_rgb_rows. rewrite Forall_forall.
    intros row Hin. apply in_map_iff in Hin. destruct Hin as (drow & <- & Hd).
    apply in_map_iff in Hd. destruct Hd as (r & <- & _).
    rewrite length_map, length_firstn.
    unfold Cluster.slice_to. cbn [Z.ltb Z.compare].
    rewrite length_firstn. change (Z.to_nat 2) with 2%nat. lia.
Qed.

End Run.

(** ** What is emitted for a fiber *)

Lemma nth_error_seq0 (n p : nat) :
  (p < n)%nat -> nth_error (seq 0 n) p = Some p.
Proof.
  intros Hp. rewrite (nth_error_nth' (seq 0 n) 0%nat)
    by (rewrite length_seq; exact Hp).
  rewrite seq_nth by exact Hp. reflexivity.
Qed.

Lemma replace_or_append_in (a : Vtk.vtkArray) (l : list Vtk.vtkArray) :
  In a (Vtk.replace_or_append a l).
Proof.
  induction l as [|b l IH]; cbn [Vtk.replace_or_append]; [left; reflexivity|].
  destruct (String.eqb (Vtk.GetName b) (Vtk.GetName a));
    [left; reflexivity | right; exact IH].
Qed.

Lemma replace_or_append_keeps (a b : Vtk.vtkArray) (l : list Vtk.vtkArray) :
  In b l -> String.eqb (Vtk.GetName b) (Vtk.GetName a) = false ->
  In b (Vtk.replace_or_append a l).
Proof.
  intros Hin Hne. induction l as [|c l IH]; [destruct Hin|].
  cbn [Vtk.replace_or_append].
  destruct Hin as [-> | Hin].
  - rewrite Hne. left. reflexivity.
  - destruct (String.eqb (Vtk.GetName c) (Vtk.GetName a));
      right; [|apply IH; exact Hin].
    (* [c] is replaced by [a]; [b] stands behind it *)
    exact Hin.
Qed.

Lemma cellData_after_attach (pd : Vtk.vtkPolyData) (tuples : list (list Z))
      (numbers : list Z) :
  let dataColour := Vtk.vtkUnsignedCharArray "DataColour" 3 tuples in
  let clusterColour := Vtk.vtkIntArray "ClusterNumber" numbers in
  let out := Vtk.SetScalars dataColour
               (Vtk.AddArray clusterColour (Vtk.AddArray dataColour pd)) in
  In dataColour (Vtk.cellData out)
  /\ In clusterColour (Vtk.cellData out)
  /\ Vtk.pointScalars out = Some dataColour
  /\ Vtk.lines out = Vtk.lines pd.
Proof.
  intros dc cc out. unfold out, Vtk.SetScalars, Vtk.AddArray. cbn [Vtk.cellData
    Vtk.pointScalars Vtk.lines].
  repeat split.
  - apply replace_or_append_keeps; [apply replace_or_append_in|].
    reflexivity.
  - apply replace_or_append_in.
Qed.

(** In a run that returns a result, every fiber index below the
    number of lines gets one entry in the attached arrays: the cluster
    number is the k-means label [c] of the fiber, and the colour tuple
    has exactly three components, each a byte in [0, 255], component k
    being the stored value of [127.5 + (row[k] / |row|) * 127.5] where
    [row] is row [c] of the matrix being coloured (the embedding when
    [no_of_eigvec = 2], the centroids otherwise) and [|row|] the
    Euclidean length of its first three components; when that length is
    not 0 the value before storage lies in [0, 255] and is stored
    truncated. *)
Theorem emitted_cluster_and_colour
        (convertFromVTK : Vtk.vtkPolyData -> nat -> Fibers.FiberArray)
        (eig : list (list NpFloat.npfloat) -> option Np.matrix)
        (kmeans2 : Np.matrix -> Z -> option (Np.matrix * list nat))
        (k_clusters no_of_eigvec : Z) (sigma : R) (no_of_jobs : Z)
        (w w' : Cluster.world) (pd : Vtk.vtkPolyData)
        (clusterIdx : list nat) (colour : list (list NpFloat.npfloat))
        (centroids : Np.matrix) (fidx : nat) :
  Cluster.spectralClustering convertFromVTK eig kmeans2
    k_clusters no_of_eigvec sigma no_of_jobs w
  = (Cluster.Val (Some (pd, clusterIdx, colour, centroids)), w') ->
  (fidx < Vtk.GetNumberOfLines (Cluster.geometry w))%nat ->
  exists (eigvec : Np.matrix) (tuples : list (list Z)) (numbers : list Z)
         (c : nat) (row : Np.vector),
    eig (Cluster.randomWalkLaplacian
           (Cluster._pairwiseSimilarity_matrix convertFromVTK
              (Cluster.geometry w) sigma no_of_jobs)) = Some eigvec
    /\ In (Vtk.vtkUnsignedCharArray "DataColour" 3 tuples) (Vtk.cellData pd)
    /\ In (Vtk.vtkIntArray "ClusterNumber" numbers) (Vtk.cellData pd)
    /\ nth_error clusterIdx fidx = Some c
    /\ nth_error numbers fidx = Some (Z.of_nat c)
    /\ nth_error (if (no_of_eigvec =? 2)%Z
                  then map (Cluster.slice_to no_of_eigvec) eigvec
                  else centroids) c = Some row
    /\ nth_error tuples fidx
       = Some [Vtk.to_uchar (Spec.rgb_component row 0);
               Vtk.to_uchar (Spec.rgb_component row 1);
               Vtk.to_uchar (Spec.rgb_component row 2)]
    /\ (forall k : nat,
           (0 <= Vtk.to_uchar (Spec.rgb_component row k) <= 255)%Z)
    /\ (Spec.colour_norm row <> 0 ->
        forall k : nat, (k < 3)%nat ->
          exists t : R,
            Spec.rgb_component row k = NpFloat.Fin t
            /\ 0 <= t <= 255
            /\ Vtk.to_uchar (NpFloat.Fin t) = Zfloor t).
Proof.
  intros Hrun Hfidx.
  destruct (spectralClustering_returns _ _ _ _ _ _ _ _ _ _ _ _ _ Hrun)
    as (eigvec & tuples & numbers & _ & _ & Heig & _ & Hcol & Hfmt & Hpd & _).
  destruct (format_rows_nth _ _ _ _ _ Hfmt fidx fidx
              (nth_error_seq0 _ _ Hfidx))
    as (c & crow & c0 & c1 & c2 & Hc & Hrow & H0 & H1 & H2 & Ht & Hn).
  rewrite Hcol in Hrow.
  destruct (cluster_to_rgb_entry _ _ _ _ _ Hrow H0) as (row & Hd & L0 & E0).
  destruct (cluster_to_rgb_entry _ _ _ _ _ Hrow H1) as (row1 & Hd1 & L1 & E1).
  destruct (cluster_to_rgb_entry _ _ _ _ _ Hrow H2) as (row2 & Hd2 & L2 & E2).
  rewrite Hd in Hd1, Hd2. apply Some_inj in Hd1, Hd2.
  subst row1 row2 c0 c1 c2.
  destruct (cellData_after_attach (Cluster.geometry w) tuples numbers)
    as (Hin1 & Hin2 & _ & _).
  exists eigvec, tuples, numbers, c, row.
  rewrite Hpd.
  split; [exact Heig|]. split; [exact Hin1|]. split; [exact Hin2|].
  split; [exact Hc|]. split; [exact Hn|]. split; [exact Hd|].
  split; [exact Ht|]. split; [intros k; apply to_uchar_byte|].
  intros Hnorm k Hk. apply rgb_component_range; try assumption.
  destruct k as [|[|[|k]]]; (assumption || lia).
Qed.

(** ** A run on the three parallel fibers *)

Lemma example_run :
  exists (tuples : list (list Z)) (numbers : list Z) (w' : Cluster.world),
    Cluster.spectralClustering Example.resampled Example.eig Example.kmeans2
      3 3 60 2 Example.world
    = (Cluster.Val
         (Some (Vtk.SetScalars
                  (Vtk.vtkUnsignedCharArray "DataColour" 3 tuples)
                  (Vtk.AddArray (Vtk.vtkIntArray "ClusterNumber" numbers)
                     (Vtk.AddArray
                        (Vtk.vtkUnsignedCharArray "DataColour" 3 tuples)
                        Example.polydata)),
                Example.labels,
                Cluster._cluster_to_rgb Example.centroids,
                Example.centroids)),
       w').
Proof.
  eexists. eexists. eexists.
  apply (spectralClustering_run Example.resampled Example.eig
           Example.kmeans2 3 3 60 2 Example.world Example.eigvec
           Example.centroids Example.labels).
  - discriminate.
  - discriminate.
  - reflexivity.
  - reflexivity.
  - change (Vtk.GetNumberOfLines (Cluster.geometry Example.world))
      with 3%nat.
    change (if (3 =? 2)%Z
            then map (Cluster.slice_to 3) Example.eigvec
            else Example.centroids) with Example.centroids.
    rewrite cluster_to_rgb_rows. unfold Example.centroids, Example.labels.
    cbn [map firstn seq Cluster.format_rows nth_error]. reflexivity.
Qed.

(** The second fiber of the example run: its label, its cluster number
    and its colour tuple. *)
Lemma example_emitted_pair :
  exists (pd : Vtk.vtkPolyData) (w' : Cluster.world)
         (eigvec : Np.matrix) (tuples : list (list Z)) (numbers : list Z)
         (c : nat) (row : Np.vector),
    Cluster.spectralClustering Example.resampled Example.eig Example.kmeans2
      3 3 60 2 Example.world
    = (Cluster.Val (Some (pd, Example.labels,
                          Cluster._cluster_to_rgb Example.centroids,
                          Example.centroids)), w')
    /\ nth_error Example.labels 1 = Some c
    /\ nth_error numbers 1 = Some (Z.of_nat c)
    /\ nth_error Example.centroids c = Some row
    /\ nth_error tuples 1
       = Some [Vtk.to_uchar (Spec.rgb_component row 0);
               Vtk.to_uchar (Spec.rgb_component row 1);
               Vtk.to_uchar (Spec.rgb_component row 2)].
Proof.
  destruct example_run as (tuples0 & numbers0 & w' & Hrun).
  destruct (emitted_cluster_and_colour Example.resampled Example.eig
              Example.kmeans2 3 3 60 2 Example.world w' _ _ _ _ 1%nat Hrun)
    as (eigvec & tuples & numbers & c & row & _ & _ & _ & Hc & Hn & Hrow
        & Ht & _).
  - cbn. lia.
  - eexists. exists w', eigvec, tuples, numbers, c, row.
    split; [exact Hrun|]. split; [exact Hc|]. split; [exact Hn|].
    split; [exact Hrow|]. exact Ht.
Qed.

(** ** C5: the order of the colour table *)

Lemma rgb_row_unit (drow : Np.vector) :
  Spec.colour_norm drow = 1 ->
  map (fun c =>
         NpFloat.add (NpFloat.Fin 127.5)
           (NpFloat.mul
              (NpFloat.div (NpFloat.Fin c)
                           (NpFloat.Fin (Spec.colour_norm drow)))
              (NpFloat.Fin 127.5)))
      (firstn 3 drow)
  = map (fun c => NpFloat.Fin (127.5 + c / 1 * 127.5)) (firstn 3 drow).
Proof.
  intros ->. apply map_ext. intros c. unfold NpFloat.div.
  destruct (Req_dec_T 1 0) as [E|_]; [exfalso; lra|]. reflexivity.
Qed.

Lemma colour_norm_axis (a b c : R) :
  a * a + b * b + c * c = 1 -> Spec.colour_norm [a; b; c] = 1.
Proof.
  intros H. unfold Spec.colour_norm. cbn [firstn map].
  rewrite !sum_cons, sum_nil.
  replace (a ^ 2 + (b ^ 2 + (c ^ 2 + 0))) with 1 by (simpl; lra).
  apply sqrt_1.
Qed.

Lemma example_colours :
  Cluster._cluster_to_rgb Example.centroids = Example.colours.
Proof.
  rewrite cluster_to_rgb_rows. unfold Example.centroids, Example.colours.
  cbn [map].
  rewrite !rgb_row_unit by (apply colour_norm_axis; lra).
  cbn [map firstn].
  repeat (f_equal; try lra).
Qed.

Lemma example_centroid_order :
  Np.argsort (Np.col 0 Example.centroids) = [1; 2; 0]%nat.
Proof.
  unfold Np.argsort, Np.col, Example.centroids.
  cbn [map nth length seq fold_right Np.insert_index].
  repeat (match goal with
          | |- context [Rle_dec ?a ?b] =>
              destruct (Rle_dec a b); try (exfalso; lra)
          end; cbn [Np.insert_index nth]).
  reflexivity.
Qed.

Lemma example_ordered_colours :
  Cluster._cluster_to_rgb (Spec.ordered_centroids Example.centroids)
  = [[NpFloat.Fin 127.5; NpFloat.Fin 255; NpFloat.Fin 127.5];
     [NpFloat.Fin 127.5; NpFloat.Fin 127.5; NpFloat.Fin 255];
     [NpFloat.Fin 255; NpFloat.Fin 127.5; NpFloat.Fin 127.5]].
Proof.
  unfold Spec.ordered_centroids. rewrite example_centroid_order.
  rewrite cluster_to_rgb_rows. unfold Example.centroids, Np.take_rows.
  cbn [map nth].
  rewrite !rgb_row_unit by (apply colour_norm_axis; lra).
  cbn [map firstn].
  repeat (f_equal; try lra).
Qed.

(** C5 fails on the code.  For the three fibers with one cluster each and
    centroids (1,0,0), (0,1,0), (0,0,1), the run returns the colour table
    in the order of the k-means labels: row 0 is the colour of the first
    centroid, although ascending first coordinate puts that centroid
    last ([centroid_order] is [1; 2; 0]); the table derived from the
    ordered centroids is a different one. *)
Theorem colour_table_in_kmeans_order :
  exists (pd : Vtk.vtkPolyData) (w' : Cluster.world),
    Cluster.spectralClustering Example.resampled Example.eig Example.kmeans2
      3 3 60 2 Example.world
    = (Cluster.Val (Some (pd, Example.labels, Example.colours,
                          Example.centroids)), w')
    /\ Np.argsort (Np.col 0 Example.centroids) = [1; 2; 0]%nat
    /\ Example.colours
       <> Cluster._cluster_to_rgb (Spec.ordered_centroids Example.centroids).
Proof.
  destruct example_run as (tuples & numbers & w' & Hrun).
  rewrite example_colours in Hrun.
  eexists. exists w'. split; [exact Hrun|].
  split; [exact example_centroid_order|].
  rewrite example_ordered_colours. unfold Example.colours. intros H.
  apply (f_equal (fun t => nth 0 (nth 0 t []) NpFloat.NaN)) in H.
  cbn [nth] in H. apply Fin_inj in H. lra.
Qed.

(** ** C6 with two eigenvectors *)

(** C6 fails on the code for [no_of_eigvec = 2].  On the three fibers,
    with two clusters, the run colours the embedding, whose rows have two
    entries; the output loop asks for a third colour component and the
    run ends in [IndexError]: nothing is returned and no array is
    attached to the geometry.  (For a run that returns a result the
    emitted pairs are as the claim describes them, see
    [emitted_cluster_and_colour].) *)
Theorem two_eigvec_run_raises :
  exists w' : Cluster.world,
    Cluster.spectralClustering Example.resampled Example.eig
      Example.kmeans2_two 2 2 60 2 Example.world
    = (Cluster.Exc Cluster.IndexError, w')
    /\ Cluster.geometry w' = Example.polydata
    /\ Cluster._cluster_to_rgb (map (Cluster.slice_to 2) Example.eigvec)
       = map (fun row => [Spec.rgb_component row 0; Spec.rgb_component row 1])
             [[1; 0]; [0; 1]; [0; 0]].
Proof.
  eexists. split; [|split].
  - apply (spectralClustering_index_error Example.resampled Example.eig
             Example.kmeans2_two 2 2 60 2 Example.world Example.eigvec
             [[1; 0]; [0; 1 / 2]] [0; 1; 1]%nat).
    + discriminate.
    + discriminate.
    + reflexivity.
    + reflexivity.
    + apply format_rows_needs_three.
      * discriminate.
      * change (if (2 =? 2)%Z
                then map (Cluster.slice_to 2) Example.eigvec
                else [[1; 0]; [0; 1 / 2]])
          with [[1; 0]; [0; 1]; [0; 0]].
        rewrite cluster_to_rgb_rows. cbn [map firstn length].
        repeat constructor.
  - reflexivity.
  - rewrite cluster_to_rgb_rows. reflexivity.
Qed.

(* ================================================================= *)
(** * Further properties of distance.py *)

Lemma ssd_zero_iff (a b : Np.vector) :
  length a = length b -> (Spec.ssd a b = 0 <-> a = b).
Proof.
  revert b; induction a as [|u a IH]; intros [|v b] H;
    try discriminate H.
  - split; reflexivity.
  - rewrite ssd_cons. simpl in H.
    pose proof (ssd_nonneg a b) as Hn.
    pose proof (Rle_0_sqr (u - v)) as Hs. unfold Rsqr in Hs.
    split.
    + intros E.
      assert (Hsq : (u - v) * (u - v) = 0) by lra.
      assert (Hab : Spec.ssd a b = 0) by lra.
      apply Rmult_integral in Hsq.
      assert (u = v) by (destruct Hsq; lra).
      apply IH in Hab; [|lia]. congruence.
    + intros E. injection E as -> ->.
      rewrite ssd_refl. ring.
Qed.

Lemma meanSquared_zero_iff (P : nat) (f g : Fibers.Fiber) :
  (1 <= P)%nat -> Fibers.Fiber_wf P f -> Fibers.Fiber_wf P g ->
  (Spec.meanSquared P f g = 0
   <-> Fibers.x g = Fibers.x f /\ Fibers.y g = Fibers.y f
       /\ Fibers.z g = Fibers.z f).
Proof.
  intros HP (Fx & Fy & Fz & _) (Gx & Gy & Gz & _).
  unfold Spec.meanSquared.
  pose proof (ssd_nonneg (Fibers.x g) (Fibers.x f)) as Hx.
  pose proof (ssd_nonneg (Fibers.y g) (Fibers.y f)) as Hy.
  pose proof (ssd_nonneg (Fibers.z g) (Fibers.z f)) as Hz.
  assert (HPpos : 0 < INR P) by (apply lt_0_INR; lia).
  split.
  - intros E.
    apply (f_equal (fun t => t * INR P)) in E.
    unfold Rdiv in E. rewrite Rmult_assoc, Rinv_l, Rmult_0_l in E by lra.
    repeat split; apply ssd_zero_iff; (congruence || lra).
  - intros (Ex & Ey & Ez). rewrite Ex, Ey, Ez, !ssd_refl.
    unfold Rdiv. ring.
Qed.

(** X1.  Every entry of [_fiberDistance_internal] is non-negative, and
    entry j is 0 exactly when fiber j of the array has the same points,
    in the same order, as the single fiber. *)
Theorem fiberDistance_internal_definite
        (f : Fibers.Fiber) (fa : Fibers.FiberArray) (j : nat) :
  Fibers.FiberArray_wf fa ->
  Fibers.Fiber_wf (Fibers.pts_per_fiber fa) f ->
  (1 <= Fibers.pts_per_fiber fa)%nat ->
  (j < Fibers.no_of_fibers fa)%nat ->
  0 <= nth j (_fiberDistance_internal f fa) 0
  /\ (nth j (_fiberDistance_internal f fa) 0 = 0
      <-> Fibers.x (Fibers.getFiber fa j) = Fibers.x f
          /\ Fibers.y (Fibers.getFiber fa j) = Fibers.y f
          /\ Fibers.z (Fibers.getFiber fa j) = Fibers.z f).
Proof.
  intros Hfa Hf HP Hj.
  rewrite (fiberDistance_internal_nth f fa j Hfa Hf Hj).
  split; [apply meanSquared_nonneg|].
  apply meanSquared_zero_iff; auto using getFiber_wf.
Qed.

Lemma fiberDistance_internal_definite_witness :
  0 <= nth 0 (_fiberDistance_internal
                (Fibers.mkFiber [0; 1] [0; 0] [0; 2] 2)
                (Fibers.collection 2 [Fibers.mkFiber [3; 1] [1; 0] [0; 0] 2]))
             0.
Proof.
  apply (fiberDistance_internal_definite
           (Fibers.mkFiber [0; 1] [0; 0] [0; 2] 2)
           (Fibers.collection 2 [Fibers.mkFiber [3; 1] [1; 0] [0; 0] 2]) 0).
  - apply collection_single_wf. unfold Fibers.Fiber_wf. simpl.
    repeat split; reflexivity.
  - unfold Fibers.Fiber_wf. simpl. repeat split; reflexivity.
  - simpl. lia.
  - simpl. lia.
Defined.

(** X2.  Every entry of [fiberDistance] lies between 0 and the
    corresponding entry of [_fiberDistance_internal], and entry j is 0
    exactly when fiber j has the points of the single fiber in the same
    or in the opposite order. *)
Theorem fiberDistance_bounds_definite
        (f : Fibers.Fiber) (fa : Fibers.FiberArray) (j : nat) :
  Fibers.FiberArray_wf fa ->
  Fibers.Fiber_wf (Fibers.pts_per_fiber fa) f ->
  (1 <= Fibers.pts_per_fiber fa)%nat ->
  (j < Fibers.no_of_fibers fa)%nat ->
  0 <= nth j (fiberDistance f fa) 0
       <= nth j (_fiberDistance_internal f fa) 0
  /\ (nth j (fiberDistance f fa) 0 = 0
      <-> (Fibers.x (Fibers.getFiber fa j) = Fibers.x f
           /\ Fibers.y (Fibers.getFiber fa j) = Fibers.y f
           /\ Fibers.z (Fibers.getFiber fa j) = Fibers.z f)
          \/ (Fibers.x (Fibers.getFiber fa j) = rev (Fibers.x f)
              /\ Fibers.y (Fibers.getFiber fa j) = rev (Fibers.y f)
              /\ Fibers.z (Fibers.getFiber fa j) = rev (Fibers.z f))).
Proof.
  intros Hfa Hf HP Hj.
  pose proof (getFiber_wf fa j Hfa Hj) as Hg.
  pose proof (getReverseFiber_wf _ f Hf) as Hr.
  rewrite (fiberDistance_nth f fa j Hfa Hf Hj).
  rewrite (fiberDistance_internal_nth f fa j Hfa Hf Hj).
  unfold Spec.pairDistance.
  set (P := Fibers.pts_per_fiber fa) in *.
  set (g := Fibers.getFiber fa j) in *.
  pose proof (meanSquared_nonneg P f g) as H1.
  pose proof (meanSquared_nonneg P (Fibers.getReverseFiber f) g) as H2.
  pose proof (meanSquared_zero_iff P f g HP Hf Hg) as Z1.
  pose proof (meanSquared_zero_iff P (Fibers.getReverseFiber f) g HP Hr Hg)
    as Z2.
  cbn [Fibers.getReverseFiber Fibers.x Fibers.y Fibers.z] in Z2.
  split.
  - split; [apply Rmin_glb; assumption | apply Rmin_l].
  - split.
    + intros E. unfold Rmin in E.
      destruct (Rle_dec (Spec.meanSquared P f g)
                        (Spec.meanSquared P (Fibers.getReverseFiber f) g)).
      * left. apply Z1, E.
      * right. apply Z2, E.
    + intros [E | E].
      * apply Z1 in E. rewrite E. apply Rmin_left, H2.
      * apply Z2 in E. rewrite E. apply Rmin_right, H1.
Qed.

Lemma fiberDistance_bounds_definite_witness :
  0 <= nth 0 (fiberDistance
                (Fibers.mkFiber [0; 1] [0; 0] [0; 2] 2)
                (Fibers.collection 2 [Fibers.mkFiber [1; 0] [0; 0] [2; 0] 2]))
             0
       <= nth 0 (_fiberDistance_internal
                   (Fibers.mkFiber [0; 1] [0; 0] [0; 2] 2)
                   (Fibers.collection 2
                      [Fibers.mkFiber [1; 0] [0; 0] [2; 0] 2]))
                0.
Proof.
  apply (fiberDistance_bounds_definite
           (Fibers.mkFiber [0; 1] [0; 0] [0; 2] 2)
           (Fibers.collection 2 [Fibers.mkFiber [1; 0] [0; 0] [2; 0] 2]) 0).
  - apply collection_single_wf. unfold Fibers.Fiber_wf. simpl.
    repeat split; reflexivity.
  - unfold Fibers.Fiber_wf. simpl. repeat split; reflexivity.
  - simpl. lia.
  - simpl. lia.
Defined.

Lemma zipWith_comm {A B} (f : A -> A -> B) (a b : list A) :
  (forall u v, f u v = f v u) -> Np.zipWith f a b = Np.zipWith f b a.
Proof.
  intros Hf. revert b; induction a as [|u a IH]; intros [|v b];
    try reflexivity.
  cbn [Np.zipWith]. rewrite Hf, IH. reflexivity.
Qed.

(** X3.  Reversing the single fiber does not change [fiberDistance]: the
    two orientations are looked at either way. *)
Theorem fiberDistance_reverse_query
        (f : Fibers.Fiber) (fa : Fibers.FiberArray) :
  fiberDistance (Fibers.getReverseFiber f) fa = fiberDistance f fa.
Proof.
  unfold fiberDistance, Np.minimum.
  assert (E : _fiberDistance_internal
                (Fibers.getReverseFiber (Fibers.getReverseFiber f)) fa
              = _fiberDistance_internal f fa).
  { unfold _fiberDistance_internal, Fibers.getReverseFiber.
    cbn [Fibers.x Fibers.y Fibers.z]. rewrite !rev_involutive.
    reflexivity. }
  rewrite E. apply zipWith_comm. intros u v. apply Rmin_comm.
Qed.

(** ** The scalar distance *)

Lemma scalarDistance_length (q : Np.vector) (A : Np.matrix) :
  length (scalarDistance q A) = length A.
Proof.
  unfold scalarDistance, _scalarDistance_internal, Np.div_scalar,
    Np.sum_axis1, Np.square, Np.sub_rows.
  rewrite !length_map. reflexivity.
Qed.

Lemma scalarDistance_nth (q : Np.vector) (A : Np.matrix) (j : nat) :
  (j < length A)%nat ->
  nth j (scalarDistance q A) 0 = Spec.ssd (nth j A []) q / INR (length q).
Proof.
  intros Hj.
  unfold scalarDistance, _scalarDistance_internal, Np.div_scalar,
    Np.sum_axis1, Np.square, Np.sub_rows.
  rewrite !map_map.
  rewrite (nth_map_in _ A j [] 0 Hj). reflexivity.
Qed.

Lemma ssd_over_nonneg (a b : Np.vector) (n : nat) : 0 <= Spec.ssd a b / INR n.
Proof.
  pose proof (ssd_nonneg a b) as H. destruct n as [|n].
  - cbn [INR]. unfold Rdiv. rewrite Rinv_0. lra.
  - apply Rmult_le_pos; [exact H|].
    left. apply Rinv_0_lt_compat, lt_0_INR. lia.
Qed.

Lemma ssd_over_zero_iff (a b : Np.vector) (n : nat) :
  (1 <= n)%nat -> length a = length b ->
  (Spec.ssd a b / INR n = 0 <-> a = b).
Proof.
  intros Hn Hlen.
  assert (Hpos : 0 < INR n) by (apply lt_0_INR; lia).
  rewrite <- (ssd_zero_iff a b Hlen). split.
  - intros E. apply (f_equal (fun t => t * INR n)) in E.
    unfold Rdiv in E. rewrite Rmult_assoc, Rinv_l in E by lra. lra.
  - intros ->. unfold Rdiv. ring.
Qed.

(** X5.  For a table of scalar profiles of one length [P >= 1], the
    scalar distance of profile i to profile j is non-negative, equals the
    distance of profile j to profile i, and is 0 exactly when the two
    profiles are equal (point by point: a reversed profile is a
    different one). *)
Theorem scalarDistance_metric_like (A : Np.matrix) (P i j : nat) :
  (1 <= P)%nat -> Np.row_len P A ->
  (i < length A)%nat -> (j < length A)%nat ->
  0 <= nth j (scalarDistance (nth i A []) A) 0
  /\ nth j (scalarDistance (nth i A []) A) 0
     = nth i (scalarDistance (nth j A []) A) 0
  /\ (nth j (scalarDistance (nth i A []) A) 0 = 0 <-> nth i A [] = nth j A []).
Proof.
  intros HP Hrows Hi Hj.
  pose proof (row_len_nth P A i Hrows Hi) as Li.
  pose proof (row_len_nth P A j Hrows Hj) as Lj.
  rewrite !scalarDistance_nth by assumption. rewrite Li, Lj.
  split; [apply ssd_over_nonneg|]. split.
  - rewrite (ssd_sym (nth j A []) (nth i A [])). reflexivity.
  - rewrite (ssd_over_zero_iff _ _ P HP) by congruence.
    split; intros E; symmetry; exact E.
Qed.

Lemma scalarDistance_metric_like_witness :
  nth 1 (scalarDistance (nth 0 [[1; 2]; [4; 6]] []) [[1; 2]; [4; 6]]) 0
  = nth 0 (scalarDistance (nth 1 [[1; 2]; [4; 6]] []) [[1; 2]; [4; 6]]) 0.
Proof.
  apply (scalarDistance_metric_like [[1; 2]; [4; 6]] 2 0 1).
  - lia.
  - repeat constructor.
  - simpl. lia.
  - simpl. lia.
Defined.

(* ================================================================= *)
(** * Further properties of cluster.py *)

(** ** Bounds on the similarity matrix and on the degrees *)

Lemma pairwiseDistance_unit
      (convertFromVTK : Vtk.vtkPolyData -> nat -> Fibers.FiberArray)
      (inputVTK : Vtk.vtkPolyData) (sigma : R) (no_of_jobs : Z) (i j : nat) :
  let fiberArray := convertFromVTK inputVTK 20%nat in
  Fibers.FiberArray_wf fiberArray ->
  (i < Fibers.no_of_fibers fiberArray)%nat ->
  (j < Fibers.no_of_fibers fiberArray)%nat ->
  0 <= Np.at2 (Cluster._pairwiseDistance_matrix convertFromVTK inputVTK
                 sigma no_of_jobs) i j <= 1.
Proof.
  intros fa Hwf Hi Hj. unfold Cluster._pairwiseDistance_matrix. fold fa.
  rewrite (MinMaxScaler_at2 _ (Fibers.no_of_fibers fa) i j);
    [ | apply distance_rows_row_len, Hwf
      | rewrite distance_rows_length; exact Hi
      | exact Hj ].
  cbv zeta. apply scaled_in_unit.
  - apply vmin_le, col_in. rewrite distance_rows_length. exact Hi.
  - apply vmax_ge, col_in. rewrite distance_rows_length. exact Hi.
Qed.

Lemma pairwiseSimilarity_diag
      (convertFromVTK : Vtk.vtkPolyData -> nat -> Fibers.FiberArray)
      (inputVTK : Vtk.vtkPolyData) (sigma : R) (no_of_jobs : Z) (i : nat) :
  let fiberArray := convertFromVTK inputVTK 20%nat in
  Fibers.FiberArray_wf fiberArray ->
  (i < Fibers.no_of_fibers fiberArray)%nat ->
  Np.at2 (Cluster._pairwiseSimilarity_matrix convertFromVTK inputVTK
            sigma no_of_jobs) i i = 1.
Proof.
  intros fa Hwf Hi.
  rewrite (pairwiseSimilarity_at2 convertFromVTK inputVTK sigma no_of_jobs
             i i Hwf Hi Hi).
  rewrite (pairwiseDistance_at2 convertFromVTK inputVTK sigma no_of_jobs
             i i Hwf Hi Hi).
  fold fa. rewrite (distance_rows_diag fa i Hwf Hi).
  unfold Rdiv. rewrite Rmult_0_l. apply gausKernel_zero.
Qed.

Lemma pairwiseSimilarity_range
      (convertFromVTK : Vtk.vtkPolyData -> nat -> Fibers.FiberArray)
      (inputVTK : Vtk.vtkPolyData) (sigma : R) (no_of_jobs : Z) (i j : nat) :
  let fiberArray := convertFromVTK inputVTK 20%nat in
  Fibers.FiberArray_wf fiberArray ->
  (i < Fibers.no_of_fibers fiberArray)%nat ->
  (j < Fibers.no_of_fibers fiberArray)%nat ->
  sigma <> 0 ->
  gausKernel 1 (Np.sq sigma)
  <= Np.at2 (Cluster._pairwiseSimilarity_matrix convertFromVTK inputVTK
               sigma no_of_jobs) i j <= 1.
Proof.
  intros fa Hwf Hi Hj Hs.
  rewrite (pairwiseSimilarity_at2 convertFromVTK inputVTK sigma no_of_jobs
             i j Hwf Hi Hj).
  apply gausKernel_unit_range; [exact Hs|].
  apply pairwiseDistance_unit; assumption.
Qed.

(** X6.  Every entry of the similarity matrix of the pipeline lies
    between [exp(-1 / (2 sigma^2))] and 1: the distances are scaled to
    [0, 1] before the kernel is applied, so no similarity is smaller than
    the kernel's value at distance 1. *)
Theorem pairwiseSimilarity_bounds
        (convertFromVTK : Vtk.vtkPolyData -> nat -> Fibers.FiberArray)
        (inputVTK : Vtk.vtkPolyData) (sigma : R) (no_of_jobs : Z)
        (i j : nat) :
  let fiberArray := convertFromVTK inputVTK 20%nat in
  Fibers.FiberArray_wf fiberArray ->
  (i < Fibers.no_of_fibers fiberArray)%nat ->
  (j < Fibers.no_of_fibers fiberArray)%nat ->
  sigma <> 0 ->
  exp (- 1 / (2 * (sigma * sigma)))
  <= Np.at2 (Cluster._pairwiseSimilarity_matrix convertFromVTK inputVTK
               sigma no_of_jobs) i j <= 1.
Proof.
  intros fa Hwf Hi Hj Hs.
  apply (pairwiseSimilarity_range convertFromVTK inputVTK sigma no_of_jobs
           i j Hwf Hi Hj Hs).
Qed.

Lemma pairwiseSimilarity_bounds_witness :
  exp (- 1 / (2 * (60 * 60)))
  <= Np.at2 (Cluster._pairwiseSimilarity_matrix Example.resampled
               Example.polydata 60 2) 0 2 <= 1.
Proof.
  apply (pairwiseSimilarity_bounds Example.resampled Example.polydata
           60 2 0 2).
  - exact example_wf.
  - cbn. lia.
  - cbn. lia.
  - lra.
Defined.

Lemma sum_le_length (v : Np.vector) :
  Forall (fun t => t <= 1) v -> Np.sum v <= INR (length v).
Proof.
  induction 1 as [|t v Ht Hv IH].
  - rewrite sum_nil. cbn. lra.
  - rewrite sum_cons. cbn [length]. rewrite S_INR. lra.
Qed.

Lemma sum_ge_scaled (v : Np.vector) (c : R) :
  Forall (fun t => c <= t) v -> INR (length v) * c <= Np.sum v.
Proof.
  induction 1 as [|t v Ht Hv IH].
  - rewrite sum_nil. cbn. lra.
  - rewrite sum_cons. cbn [length]. rewrite S_INR. lra.
Qed.

Lemma sum_ge_member (v : Np.vector) (t : R) :
  Forall (fun u => 0 <= u) v -> In t v -> t <= Np.sum v.
Proof.
  induction 1 as [|u v Hu Hv IH]; intros Hin; [destruct Hin|].
  rewrite sum_cons.
  assert (Hnn : 0 <= Np.sum v).
  { clear IH Hin. induction Hv as [|a v Ha Hv IH].
    - rewrite sum_nil. lra.
    - rewrite sum_cons. lra. }
  destruct Hin as [-> | Hin]; [lra|].
  specialize (IH Hin). lra.
Qed.

(** X7.  Every degree of the pipeline (the sum of a column of the
    similarity matrix, as [_degreeMatrix] takes it) lies between 1 and
    the number of fibers N, and is at least [N * exp(-1 / (2 sigma^2))]. *)
Theorem degree_bounds
        (convertFromVTK : Vtk.vtkPolyData -> nat -> Fibers.FiberArray)
        (inputVTK : Vtk.vtkPolyData) (sigma : R) (no_of_jobs : Z) (i : nat) :
  let fiberArray := convertFromVTK inputVTK 20%nat in
  let W := Cluster._pairwiseSimilarity_matrix convertFromVTK inputVTK
             sigma no_of_jobs in
  let degree := nth i (Np.sum_axis0 (Cluster._degreeMatrix W)) 0 in
  Fibers.FiberArray_wf fiberArray ->
  (i < Fibers.no_of_fibers fiberArray)%nat ->
  sigma <> 0 ->
  1 <= degree <= INR (Fibers.no_of_fibers fiberArray)
  /\ INR (Fibers.no_of_fibers fiberArray) * exp (- 1 / (2 * (sigma * sigma)))
     <= degree.
Proof.
  intros fa W degree Hwf Hi Hs.
  destruct (pairwiseSimilarity_shape convertFromVTK inputVTK sigma no_of_jobs
              Hwf) as [Hlen Hrows]; [unfold fa in Hi; lia|].
  fold fa in Hlen, Hrows. fold W in Hlen, Hrows.
  assert (Hdeg : degree = Np.sum (Np.col i W)).
  { unfold degree. rewrite degree_colsums.
    apply sum_axis0_nth. rewrite (W_ncols W _ Hlen Hrows) by lia. exact Hi. }
  assert (Hall : forall t, In t (Np.col i W) ->
                           gausKernel 1 (Np.sq sigma) <= t <= 1).
  { intros t Hin. destruct (In_nth _ _ 0 Hin) as (k & Hk & <-).
    rewrite col_length in Hk. rewrite col_nth by exact Hk.
    rewrite Hlen in Hk. unfold W.
    apply pairwiseSimilarity_range; assumption. }
  assert (Hcl : length (Np.col i W) = Fibers.no_of_fibers fa)
    by (rewrite col_length; exact Hlen).
  rewrite Hdeg. split; [split|].
  - rewrite <- (pairwiseSimilarity_diag convertFromVTK inputVTK sigma
                  no_of_jobs i Hwf Hi).
    fold W. apply sum_ge_member.
    + rewrite Forall_forall. intros t Hin.
      pose proof (Hall t Hin) as [Hlo _].
      pose proof (gausKernel_pos 1 (Np.sq sigma)). lra.
    + apply col_in. rewrite Hlen. exact Hi.
  - rewrite <- Hcl. apply sum_le_length.
    rewrite Forall_forall. intros t Hin. apply (Hall t Hin).
  - rewrite <- Hcl. apply (sum_ge_scaled _ (gausKernel 1 (Np.sq sigma))).
    rewrite Forall_forall. intros t Hin. apply (Hall t Hin).
Qed.

Lemma degree_bounds_witness :
  1 <= nth 1 (Np.sum_axis0
                (Cluster._degreeMatrix
                   (Cluster._pairwiseSimilarity_matrix Example.resampled
                      Example.polydata 60 2))) 0
  <= INR (Fibers.no_of_fibers (Example.resampled Example.polydata 20)).
Proof.
  apply (degree_bounds Example.resampled Example.polydata 60 2 1).
  - exact example_wf.
  - cbn. lia.
  - lra.
Defined.

(** ** The Laplacian, entry by entry *)

Lemma diag_at2 (c : Np.vector) (i j : nat) :
  (i < length c)%nat -> (j < length c)%nat ->
  Np.at2 (Np.diag 0 c) i j = if Nat.eqb i j then nth i c 0 else 0.
Proof.
  intros Hi Hj. unfold Np.at2. rewrite diag_nth by exact Hi.
  rewrite nth_map_seq by exact Hj. reflexivity.
Qed.

Lemma sub_at2 (A B : Np.matrix) (n i j : nat) :
  length A = length B -> Np.row_len n A -> Np.row_len n B ->
  (i < length A)%nat -> (j < n)%nat ->
  Np.at2 (Np.sub A B) i j = Np.at2 A i j - Np.at2 B i j.
Proof.
  intros HL HA HB Hi Hj. unfold Np.at2, Np.sub.
  rewrite (zipWith_nth (Np.zipWith Rminus) A B i [] [] []) by assumption.
  apply zipWith_nth.
  - rewrite (row_len_nth n A i HA Hi). exact Hj.
  - rewrite (row_len_nth n A i HA Hi).
    symmetry. apply row_len_nth; [exact HB | lia].
Qed.

Lemma col_sub (A B : Np.matrix) (n j : nat) :
  length A = length B -> Np.row_len n A -> Np.row_len n B -> (j < n)%nat ->
  Np.col j (Np.sub A B) = Np.zipWith Rminus (Np.col j A) (Np.col j B).
Proof.
  intros HL HA HB Hj.
  assert (Lsub : length (Np.sub A B) = length A)
    by (unfold Np.sub; apply zipWith_length; exact HL).
  apply (nth_ext _ _ 0 0).
  - rewrite col_length, Lsub, zipWith_length; rewrite !col_length; congruence.
  - intros i Hi. rewrite col_length, Lsub in Hi.
    rewrite col_nth by (rewrite Lsub; exact Hi).
    rewrite (zipWith_nth Rminus _ _ i 0 0 0)
      by (rewrite !col_length; congruence).
    rewrite !col_nth by congruence.
    apply (sub_at2 A B n i j); assumption.
Qed.

Section LaplacianEntries.

Variable W : Np.matrix.
Variable n : nat.
Hypothesis W_length : length W = n.
Hypothesis W_rows : Np.row_len n W.

(** Entry (i, j) of the random-walk Laplacian for a degree other
    than 0. *)
Lemma randomWalkLaplacian_at (i j : nat) :
  (i < n)%nat -> (j < n)%nat -> Np.sum (Np.col i W) <> 0 ->
  nth j (nth i (Cluster.randomWalkLaplacian W) []) NpFloat.NaN
  = NpFloat.Fin
      (((if Nat.eqb i j then Np.sum (Np.col i W) else 0) - Np.at2 W i j)
       / Np.sum (Np.col i W)).
Proof.
  intros Hi Hj Hc.
  assert (Hn : (0 < n)%nat) by lia.
  rewrite (randomWalkLaplacian_nth W n W_length W_rows Hn i Hi).
  rewrite nth_map_seq by exact Hj. cbn [Nat.add].
  unfold NpFloat.div.
  destruct (Req_dec_T (Np.sum (Np.col i W)) 0) as [E|_]; [contradiction|].
  rewrite vdot_indicator.
  replace (0 <=? i)%nat with true by (symmetry; apply Nat.leb_le; lia).
  replace (i <? 0 + n)%nat with true by (symmetry; apply Nat.ltb_lt; lia).
  cbn [andb]. rewrite Nat.sub_0_r.
  rewrite col_nth
    by (unfold Np.sub; rewrite zipWith_length;
        rewrite (degree_length W n W_length W_rows Hn); congruence).
  rewrite (sub_at2 _ _ n i j);
    [ | rewrite (degree_length W n W_length W_rows Hn); congruence
      | apply (degree_row_len W n W_length W_rows Hn)
      | exact W_rows
      | rewrite (degree_length W n W_length W_rows Hn); exact Hi
      | exact Hj ].
  unfold Cluster._degreeMatrix.
  rewrite diag_at2
    by (rewrite (degrees_length W n W_length W_rows Hn); assumption).
  rewrite sum_axis0_nth
    by (rewrite (W_ncols W n W_length W_rows Hn); exact Hi).
  f_equal. unfold Rdiv. ring.
Qed.

End LaplacianEntries.

Lemma pairwiseSimilarity_degree_ge_one
      (convertFromVTK : Vtk.vtkPolyData -> nat -> Fibers.FiberArray)
      (inputVTK : Vtk.vtkPolyData) (sigma : R) (no_of_jobs : Z) (i : nat) :
  let fiberArray := convertFromVTK inputVTK 20%nat in
  Fibers.FiberArray_wf fiberArray ->
  (i < Fibers.no_of_fibers fiberArray)%nat ->
  sigma <> 0 ->
  1 <= Np.sum (Np.col i (Cluster._pairwiseSimilarity_matrix convertFromVTK
                           inputVTK sigma no_of_jobs)).
Proof.
  intros fa Hwf Hi Hs.
  destruct (pairwiseSimilarity_shape convertFromVTK inputVTK sigma no_of_jobs
              Hwf) as [Hlen Hrows]; [unfold fa in Hi; lia|].
  fold fa in Hlen, Hrows.
  rewrite <- (pairwiseSimilarity_diag convertFromVTK inputVTK sigma
                no_of_jobs i Hwf Hi) at 1.
  apply sum_ge_member.
  - rewrite Forall_forall. intros t Hin.
    destruct (In_nth _ _ 0 Hin) as (k & Hk & <-).
    rewrite col_length in Hk. rewrite col_nth by exact Hk.
    rewrite Hlen in Hk.
    pose proof (pairwiseSimilarity_range convertFromVTK inputVTK sigma
                  no_of_jobs k i Hwf Hk Hi Hs) as [Hl _].
    pose proof (gausKernel_pos 1 (Np.sq sigma)). lra.
  - apply col_in. rewrite Hlen. exact Hi.
Qed.



(** X9.  For the similarity matrix of a nonempty fiber collection every
    entry of the random-walk Laplacian is a finite number: the diagonal
    entries lie in [0, 1] and all other entries in [-1, 0]. *)
Theorem randomWalkLaplacian_entries
        (convertFromVTK : Vtk.vtkPolyData -> nat -> Fibers.FiberArray)
        (inputVTK : Vtk.vtkPolyData) (sigma : R) (no_of_jobs : Z)
        (i j : nat) :
  let fiberArray := convertFromVTK inputVTK 20%nat in
  let W := Cluster._pairwiseSimilarity_matrix convertFromVTK inputVTK
             sigma no_of_jobs in
  Fibers.FiberArray_wf fiberArray ->
  (i < Fibers.no_of_fibers fiberArray)%nat ->
  (j < Fibers.no_of_fibers fiberArray)%nat ->
  sigma <> 0 ->
  exists t : R,
    nth j (nth i (Cluster.randomWalkLaplacian W) []) NpFloat.NaN
    = NpFloat.Fin t
    /\ (i = j -> 0 <= t <= 1)
    /\ (i <> j -> -1 <= t <= 0).
Proof.
  intros fa W Hwf Hi Hj Hs.
  destruct (pairwiseSimilarity_shape convertFromVTK inputVTK sigma no_of_jobs
              Hwf) as [Hlen Hrows]; [unfold fa in Hi; lia|].
  fold fa in Hlen, Hrows. fold W in Hlen, Hrows.
  pose proof (pairwiseSimilarity_range convertFromVTK inputVTK sigma
                no_of_jobs i j Hwf Hi Hj Hs) as [Hlo Hhi].
  fold W in Hlo, Hhi.
  pose proof (gausKernel_pos 1 (Np.sq sigma)) as Hkpos.
  pose proof (pairwiseSimilarity_degree_ge_one convertFromVTK inputVTK sigma
                no_of_jobs i Hwf Hi Hs) as Hd1.
  fold W in Hd1.
  set (degree := Np.sum (Np.col i W)) in *.
  assert (Hinv : 0 < / degree <= 1).
  { split; [apply Rinv_0_lt_compat; lra|].
    rewrite <- Rinv_1. apply Rinv_le_contravar; lra. }
  rewrite (randomWalkLaplacian_at W _ Hlen Hrows i j Hi Hj)
    by (fold degree; lra).
  fold degree. eexists. split; [reflexivity|]. split.
  - intros <-. rewrite Nat.eqb_refl.
    pose proof (pairwiseSimilarity_diag convertFromVTK inputVTK sigma
                  no_of_jobs i Hwf Hi) as Hdiag.
    fold W in Hdiag. rewrite Hdiag.
    assert (E : (degree - 1) / degree = 1 - / degree) by (field; lra).
    rewrite E. lra.
  - intros Hne. apply Nat.eqb_neq in Hne. rewrite Hne.
    unfold Rdiv. nra.
Qed.

Lemma randomWalkLaplacian_entries_witness :
  exists t : R,
    nth 2 (nth 0 (Cluster.randomWalkLaplacian
                    (Cluster._pairwiseSimilarity_matrix Example.resampled
                       Example.polydata 60 2)) []) NpFloat.NaN
    = NpFloat.Fin t.
Proof.
  destruct (randomWalkLaplacian_entries Example.resampled Example.polydata
              60 2 0 2) as (t & Ht & _).
  - exact example_wf.
  - cbn. lia.
  - cbn. lia.
  - lra.
  - exists t. exact Ht.
Defined.

(** ** A single fiber *)

Lemma singleton_matrix {A} (M : list (list A)) (d : A) :
  length M = 1%nat -> length (nth 0 M []) = 1%nat ->
  M = [[nth 0 (nth 0 M []) d]].
Proof.
  intros HM Hrow. destruct M as [|r [|r' M]]; try discriminate HM.
  cbn [nth] in *. destruct r as [|a [|b r]]; try discriminate Hrow.
  reflexivity.
Qed.

Lemma randomWalkLaplacian_length (W : Np.matrix) (n : nat) :
  length W = n -> Np.row_len n W -> (0 < n)%nat ->
  length (Cluster.randomWalkLaplacian W) = n.
Proof.
  intros Hlen Hrows Hn. unfold Cluster.randomWalkLaplacian, NpFloat.dot.
  rewrite length_map, diag_length, length_map, degree_colsums.
  apply (degrees_length W n Hlen Hrows Hn).
Qed.

(** X10.  For a collection of a single fiber the normalised distance
    matrix is [[0]] (the zero range of the only column counts as 1), the
    similarity matrix is [[1]] and the random-walk Laplacian is [[0]]. *)
Theorem single_fiber_matrices
        (convertFromVTK : Vtk.vtkPolyData -> nat -> Fibers.FiberArray)
        (inputVTK : Vtk.vtkPolyData) (sigma : R) (no_of_jobs : Z) :
  let fiberArray := convertFromVTK inputVTK 20%nat in
  let W := Cluster._pairwiseSimilarity_matrix convertFromVTK inputVTK
             sigma no_of_jobs in
  Fibers.FiberArray_wf fiberArray ->
  Fibers.no_of_fibers fiberArray = 1%nat ->
  sigma <> 0 ->
  Cluster._pairwiseDistance_matrix convertFromVTK inputVTK sigma no_of_jobs
  = [[0]]
  /\ W = [[1]]
  /\ Cluster.randomWalkLaplacian W = [[NpFloat.Fin 0]].
Proof.
  intros fa W Hwf HN Hs.
  assert (H0 : (0 < Fibers.no_of_fibers fa)%nat) by lia.
  destruct (pairwiseDistance_shape convertFromVTK inputVTK sigma no_of_jobs
              Hwf H0) as [HDlen HDrows].
  destruct (pairwiseSimilarity_shape convertFromVTK inputVTK sigma no_of_jobs
              Hwf H0) as [HWlen HWrows].
  fold fa in HDlen, HDrows, HWlen, HWrows. fold W in HWlen, HWrows.
  rewrite HN in HDlen, HDrows, HWlen, HWrows.
  assert (HD : Cluster._pairwiseDistance_matrix convertFromVTK inputVTK
                 sigma no_of_jobs = [[0]]).
  { rewrite (singleton_matrix _ 0 HDlen)
      by (apply (row_len_nth 1 _ 0 HDrows); lia).
    fold (Np.at2 (Cluster._pairwiseDistance_matrix convertFromVTK inputVTK
                    sigma no_of_jobs) 0 0).
    rewrite (pairwiseDistance_at2 convertFromVTK inputVTK sigma no_of_jobs
               0 0 Hwf H0 H0).
    fold fa. rewrite (distance_rows_diag fa 0 Hwf H0).
    unfold Rdiv. rewrite Rmult_0_l. reflexivity. }
  assert (HW : W = [[1]]).
  { rewrite (singleton_matrix W 0 HWlen)
      by (apply (row_len_nth 1 _ 0 HWrows); lia).
    fold (Np.at2 W 0 0). unfold W.
    rewrite (pairwiseSimilarity_diag convertFromVTK inputVTK sigma
               no_of_jobs 0 Hwf H0).
    reflexivity. }
  split; [exact HD|]. split; [exact HW|].
  rewrite HW.
  assert (S1 : length [[1]] = 1%nat) by reflexivity.
  assert (S2 : Np.row_len 1 [[1]]) by (repeat constructor).
  assert (Hc : Np.sum (Np.col 0 [[1]]) = 1)
    by (unfold Np.col; cbn [map nth]; rewrite sum_cons, sum_nil; lra).
  rewrite (singleton_matrix (Cluster.randomWalkLaplacian [[1]]) NpFloat.NaN).
  - rewrite (randomWalkLaplacian_at [[1]] 1 S1 S2 0 0) by (lia || lra).
    rewrite Hc. cbn [Nat.eqb]. unfold Np.at2. cbn [nth].
    do 3 f_equal. unfold Rdiv. lra.
  - apply (randomWalkLaplacian_length [[1]] 1 S1 S2). lia.
  - apply (randomWalkLaplacian_row_length [[1]] 1 S1 S2); lia.
Qed.

Lemma single_fiber_matrices_witness :
  Cluster._pairwiseSimilarity_matrix Example.resampled
    (Vtk.mkPolyData [Example.line_at 2] [] None) 60 2
  = [[1]].
Proof.
  apply (single_fiber_matrices Example.resampled
           (Vtk.mkPolyData [Example.line_at 2] [] None) 60 2).
  - unfold Fibers.FiberArray_wf, Np.row_len. cbn.
    repeat split; repeat constructor.
  - reflexivity.
  - lra.
Defined.

(** ** The colour table *)

Lemma nth_firstn_lt {A} (l : list A) (k m : nat) (d : A) :
  (k < m)%nat -> nth k (firstn m l) d = nth k l d.
Proof.
  revert l k; induction m as [|m IH]; intros l k Hk; [lia|].
  destruct l as [|a l]; [destruct k; reflexivity|].
  cbn [firstn]. destruct k as [|k]; [reflexivity|].
  cbn [nth]. apply IH. lia.
Qed.

Lemma nan_component (t : R) :
  NpFloat.add (NpFloat.Fin 127.5)
    (NpFloat.mul (NpFloat.div (NpFloat.Fin 0) (NpFloat.Fin 0))
                 (NpFloat.Fin t))
  = NpFloat.NaN.
Proof.
  unfold NpFloat.div. destruct (Req_dec_T 0 0) as [_|E]; [|contradiction].
  unfold NpFloat.signed_inf.
  destruct (total_order_T 0 0) as [[H|_]|H]; try (exfalso; lra).
  reflexivity.
Qed.

(** X11.  [_cluster_to_rgb] keeps the number of rows; the colour of a
    row has as many components as the row has among its first three;
    when these are not all 0 every component is a number in [0, 255],
    and when they are all 0 (a centroid at the origin) every component
    is NaN. *)
Theorem cluster_to_rgb_table (data : Np.matrix) (c : nat) (drow : Np.vector) :
  nth_error data c = Some drow ->
  length (Cluster._cluster_to_rgb data) = length data
  /\ exists row : list NpFloat.npfloat,
       nth_error (Cluster._cluster_to_rgb data) c = Some row
       /\ length row = Nat.min 3 (length drow)
       /\ (Spec.colour_norm drow <> 0 ->
           Forall (fun v => exists t : R,
                       v = NpFloat.Fin t /\ 0 <= t <= 255) row)
       /\ (Spec.colour_norm drow = 0 ->
           Forall (fun v => v = NpFloat.NaN) row).
Proof.
  intros Hd. rewrite cluster_to_rgb_rows. split; [apply length_map|].
  rewrite nth_error_map. unfold Np.matrix, Np.vector in *. rewrite Hd.
  cbn [option_map]. eexists. split; [reflexivity|].
  split; [rewrite length_map; apply length_firstn|].
  assert (Hin : forall u, In u (firstn 3 drow) ->
                  exists k, (k < 3)%nat /\ (k < length drow)%nat
                            /\ u = nth k drow 0).
  { intros u Hu. destruct (In_nth _ _ 0 Hu) as (k & Hk & <-).
    rewrite length_firstn in Hk. exists k.
    split; [lia|]. split; [lia|]. apply nth_firstn_lt. lia. }
  split.
  - intros Hn. rewrite Forall_forall. intros v Hv.
    apply in_map_iff in Hv. destruct Hv as (u & <- & Hu).
    destruct (Hin u Hu) as (k & Hk3 & Hk & ->).
    destruct (rgb_component_range drow k Hk3 Hk Hn) as (t & Ht & Hr & _).
    exists t. split; [exact Ht | exact Hr].
  - intros Hn. rewrite Forall_forall. intros v Hv.
    apply in_map_iff in Hv. destruct Hv as (u & <- & Hu).
    destruct (Hin u Hu) as (k & Hk3 & Hk & ->).
    pose proof (abs_le_colour_norm drow k Hk3 Hk) as Habs.
    rewrite Hn in Habs |- *.
    assert (E : nth k drow 0 = 0).
    { pose proof (Rabs_pos (nth k drow 0)) as Hp.
      assert (Hz : Rabs (nth k drow 0) = 0) by lra.
      destruct (Req_dec_T (nth k drow 0) 0) as [E|E]; [exact E|].
      apply Rabs_no_R0 in E. contradiction. }
    rewrite E. apply nan_component.
Qed.

Lemma cluster_to_rgb_table_witness :
  length (Cluster._cluster_to_rgb [[3; 4; 0; 7]; [0; 0; 0; 1]]) = 2%nat.
Proof.
  apply (cluster_to_rgb_table [[3; 4; 0; 7]; [0; 0; 0; 1]] 1 [0; 0; 0; 1]).
  reflexivity.
Defined.

(** ** The output loop: when it raises and what it attaches *)

Lemma format_rows_total (clusterIdx : list nat)
      (colour : list (list NpFloat.npfloat)) (fidxs : list nat) :
  (forall f, In f fidxs ->
             exists c row, nth_error clusterIdx f = Some c
                           /\ nth_error colour c = Some row
                           /\ (3 <= length row)%nat) ->
  exists tuples numbers,
    Cluster.format_rows fidxs clusterIdx colour = Some (tuples, numbers)
    /\ length tuples = length fidxs
    /\ length numbers = length fidxs
    /\ Forall (fun t => length t = 3%nat
                        /\ Forall (fun b => (0 <= b <= 255)%Z) t) tuples.
Proof.
  induction fidxs as [|f fidxs IH]; intros Hok.
  - exists [], []. repeat split; constructor.
  - destruct (Hok f (or_introl eq_refl)) as (c & row & Hc & Hrow & Hlen).
    destruct IH as (tuples & numbers & Hfmt & Lt & Ln & Hb).
    { intros g Hg. apply Hok. right. exact Hg. }
    cbn [Cluster.format_rows]. rewrite Hc, Hrow.
    destruct row as [|c0 [|c1 [|c2 row]]]; simpl in Hlen; try lia.
    cbn [nth_error]. rewrite Hfmt.
    eexists. eexists. split; [reflexivity|].
    cbn [length]. split; [congruence|]. split; [congruence|].
    constructor; [|exact Hb].
    split; [reflexivity|].
    repeat constructor; apply to_uchar_byte.
Qed.

Lemma format_rows_some_ok (clusterIdx : list nat)
      (colour : list (list NpFloat.npfloat)) (n : nat)
      (tuples : list (list Z)) (numbers : list Z) :
  Cluster.format_rows (seq 0 n) clusterIdx colour = Some (tuples, numbers) ->
  forall fidx, (fidx < n)%nat ->
    exists c row, nth_error clusterIdx fidx = Some c
                  /\ nth_error colour c = Some row
                  /\ (3 <= length row)%nat.
Proof.
  intros Hfmt fidx Hf.
  destruct (format_rows_nth _ _ _ _ _ Hfmt fidx fidx (nth_error_seq0 _ _ Hf))
    as (c & row & c0 & c1 & c2 & Hc & Hrow & _ & _ & H2 & _).
  exists c, row. split; [exact Hc|]. split; [exact Hrow|].
  assert (2 < length row)%nat by (apply nth_error_Some; congruence). lia.
Qed.

(** X13.  [_format_outputVTK] raises [IndexError], and leaves the
    geometry and everything else as it was, unless every line of the
    polydata has a label and the label's row of the colour table has at
    least three components; in that case it attaches one colour array of
    N three-byte tuples and one cluster-number array of N numbers, N the
    number of lines, and changes nothing else. *)
Theorem format_outputVTK_all_or_nothing
        (clusterIdx : list nat) (colour : list (list NpFloat.npfloat))
        (w : Cluster.world) :
  let N := Vtk.GetNumberOfLines (Cluster.geometry w) in
  let ok := forall fidx, (fidx < N)%nat ->
              exists c row, nth_error clusterIdx fidx = Some c
                            /\ nth_error colour c = Some row
                            /\ (3 <= length row)%nat in
  (ok ->
   exists tuples numbers,
     let pd := Vtk.SetScalars
                 (Vtk.vtkUnsignedCharArray "DataColour" 3 tuples)
                 (Vtk.AddArray (Vtk.vtkIntArray "ClusterNumber" numbers)
                    (Vtk.AddArray
                       (Vtk.vtkUnsignedCharArray "DataColour" 3 tuples)
                       (Cluster.geometry w))) in
     Cluster._format_outputVTK clusterIdx colour w
     = (Cluster.Val pd,
        Cluster.mkWorld (Cluster.stdout w) pd (Cluster.entered w))
     /\ length tuples = N /\ length numbers = N
     /\ Forall (fun t => length t = 3%nat
                         /\ Forall (fun b => (0 <= b <= 255)%Z) t) tuples
     /\ Vtk.lines pd = Vtk.lines (Cluster.geometry w))
  /\ (~ ok ->
      Cluster._format_outputVTK clusterIdx colour w
      = (Cluster.Exc Cluster.IndexError, w)).
Proof.
  intros N ok. split.
  - intros Hok.
    destruct (format_rows_total clusterIdx colour (seq 0 N))
      as (tuples & numbers & Hfmt & Lt & Ln & Hb).
    { intros f Hf. apply in_seq in Hf. apply Hok. lia. }
    rewrite length_seq in Lt, Ln.
    exists tuples, numbers. cbv zeta.
    split; [|repeat split; assumption].
    unfold Cluster._format_outputVTK. run_step. fold N.
    rewrite Hfmt. run_step. reflexivity.
  - intros Hnot. unfold Cluster._format_outputVTK. run_step. fold N.
    destruct (Cluster.format_rows (seq 0 N) clusterIdx colour)
      as [[tuples numbers]|] eqn:Hfmt; run_step.
    + exfalso. apply Hnot. intros fidx Hf.
      apply (format_rows_some_ok _ _ _ _ _ Hfmt fidx Hf).
    + destruct w. reflexivity.
Qed.

Lemma format_outputVTK_all_or_nothing_witness :
  exists tuples numbers,
    length tuples = 3%nat /\ length numbers = 3%nat
    /\ Cluster._format_outputVTK Example.labels Example.colours Example.world
       = (Cluster.Val
            (Vtk.SetScalars (Vtk.vtkUnsignedCharArray "DataColour" 3 tuples)
               (Vtk.AddArray (Vtk.vtkIntArray "ClusterNumber" numbers)
                  (Vtk.AddArray
                     (Vtk.vtkUnsignedCharArray "DataColour" 3 tuples)
                     Example.polydata))),
          Cluster.mkWorld []
            (Vtk.SetScalars (Vtk.vtkUnsignedCharArray "DataColour" 3 tuples)
               (Vtk.AddArray (Vtk.vtkIntArray "ClusterNumber" numbers)
                  (Vtk.AddArray
                     (Vtk.vtkUnsignedCharArray "DataColour" 3 tuples)
                     Example.polydata)))
            []).
Proof.
  destruct (proj1 (format_outputVTK_all_or_nothing Example.labels
                     Example.colours Example.world))
    as (tuples & numbers & Hrun & Lt & Ln & _).
  - intros fidx Hf.
    change (Vtk.GetNumberOfLines (Cluster.geometry Example.world))
      with 3%nat in Hf.
    destruct fidx as [|[|[|fidx]]]; try lia;
      eexists; eexists; (split; [reflexivity|]);
      (split; [reflexivity|]); simpl; lia.
  - exists tuples, numbers. split; [exact Lt|]. split; [exact Ln|].
    exact Hrun.
Defined.

(** ** Runs that do not return a result *)

Section Atomicity.

Variable convertFromVTK : Vtk.vtkPolyData -> nat -> Fibers.FiberArray.
Variable eig : list (list NpFloat.npfloat) -> option Np.matrix.
Variable kmeans2 : Np.matrix -> Z -> option (Np.matrix * list nat).
Variables (k_clusters no_of_eigvec : Z) (sigma : R) (no_of_jobs : Z).

(** X14.  Whatever the solver and k-means answer, a run of
    [spectralClustering] never changes the lines of the geometry, and a
    run that does not return a result (a rejected configuration, an
    empty input, or an exception of the solver, of k-means or of the
    output loop) leaves the geometry exactly as it was: no array is
    attached. *)
Theorem spectralClustering_all_or_nothing
        (w w' : Cluster.world)
        (r : Cluster.res (option (Vtk.vtkPolyData * list nat
                                  * list (list NpFloat.npfloat)
                                  * Np.matrix))) :
  Cluster.spectralClustering convertFromVTK eig kmeans2
    k_clusters no_of_eigvec sigma no_of_jobs w = (r, w') ->
  Vtk.lines (Cluster.geometry w') = Vtk.lines (Cluster.geometry w)
  /\ ((forall out, r <> Cluster.Val (Some out)) ->
      Cluster.geometry w' = Cluster.geometry w).
Proof.
  unfold Cluster.spectralClustering.
  destruct (no_of_eigvec =? 1)%Z eqn:HK1; run_step.
  { intros H. apply (f_equal snd) in H. cbn [snd] in H. subst w'.
    split; [reflexivity | intros _; reflexivity]. }
  destruct (Vtk.GetNumberOfLines (Cluster.geometry w) =? 0)%nat eqn:HN;
    run_step.
  { intros H. apply (f_equal snd) in H. cbn [snd] in H. subst w'.
    split; [reflexivity | intros _; reflexivity]. }
  destruct (eig (Cluster.randomWalkLaplacian
                   (Cluster._pairwiseSimilarity_matrix convertFromVTK
                      (Cluster.geometry w) sigma no_of_jobs)))
    as [eigvec|] eqn:Heig; run_step.
  2:{ intros H. apply (f_equal snd) in H. cbn [snd] in H. subst w'.
      split; [reflexivity | intros _; reflexivity]. }
  destruct (kmeans2 (map (Cluster.slice_to no_of_eigvec) eigvec) k_clusters)
    as [[cen idx]|] eqn:Hkm; run_step.
  2:{ intros H. apply (f_equal snd) in H. cbn [snd] in H. subst w'.
      split; [reflexivity | intros _; reflexivity]. }
  destruct (Cluster.format_rows
              (seq 0 (Vtk.GetNumberOfLines (Cluster.geometry w))) idx
              (if (no_of_eigvec =? 2)%Z
               then Cluster._cluster_to_rgb
                      (map (Cluster.slice_to no_of_eigvec) eigvec)
               else Cluster._cluster_to_rgb cen))
    as [[tuples numbers]|] eqn:Hfmt; run_step.
  2:{ intros H. apply (f_equal snd) in H. cbn [snd] in H. subst w'.
      split; [reflexivity | intros _; reflexivity]. }
  intros H.
  pose proof (f_equal snd H) as Hw. cbn [snd] in Hw. subst w'.
  pose proof (f_equal fst H) as Hr. cbn [fst] in Hr. subst r.
  split; [reflexivity|].
  intros Hno. exfalso. eapply Hno. reflexivity.
Qed.

End Atomicity.

Lemma spectralClustering_all_or_nothing_witness :
  exists w' : Cluster.world,
    Cluster.spectralClustering Example.resampled Example.eig
      Example.kmeans2_two 2 2 60 2 Example.world
    = (Cluster.Exc Cluster.IndexError, w')
    /\ Cluster.geometry w' = Cluster.geometry Example.world.
Proof.
  assert (Hrun : exists w' : Cluster.world,
             Cluster.spectralClustering Example.resampled Example.eig
               Example.kmeans2_two 2 2 60 2 Example.world
             = (Cluster.Exc Cluster.IndexError, w')).
  { eexists.
    apply (spectralClustering_index_error Example.resampled Example.eig
             Example.kmeans2_two 2 2 60 2 Example.world Example.eigvec
             [[1; 0]; [0; 1 / 2]] [0; 1; 1]%nat).
    - discriminate.
    - discriminate.
    - reflexivity.
    - reflexivity.
    - apply format_rows_needs_three; [discriminate|].
      change (if (2 =? 2)%Z
              then map (Cluster.slice_to 2) Example.eigvec
              else [[1; 0]; [0; 1 / 2]])
        with [[1; 0]; [0; 1]; [0; 0]].
      rewrite cluster_to_rgb_rows. cbn [map firstn length].
      repeat constructor. }
  destruct Hrun as (w' & Hrun). exists w'. split; [exact Hrun|].
  apply (spectralClustering_all_or_nothing Example.resampled Example.eig
           Example.kmeans2_two 2 2 60 2 Example.world w' _ Hrun).
  intros out. discriminate.
Defined.

(** ** The scalar distance matrix *)

Section QDistance.

Variable table : Np.matrix.
Variables N P : nat.
Hypothesis table_length : length table = N.
Hypothesis table_rows : Np.row_len P table.
Hypothesis P_pos : (1 <= P)%nat.

Lemma getScalars_all : Cluster.getScalars table (seq 0 N) = table.
Proof.
  unfold Cluster.getScalars. rewrite <- table_length. apply map_nth_seq.
Qed.

Lemma qdistance_rows_length : length (Cluster.qdistance_rows table N) = N.
Proof.
  unfold Cluster.qdistance_rows. rewrite length_map, length_seq. reflexivity.
Qed.

Lemma qdistance_rows_row_len : Np.row_len N (Cluster.qdistance_rows table N).
Proof.
  unfold Np.row_len, Cluster.qdistance_rows. rewrite Forall_forall.
  intros row Hin. apply in_map_iff in Hin. destruct Hin as (i & <- & _).
  rewrite scalarDistance_length, getScalars_all. exact table_length.
Qed.

Lemma qdistance_rows_at2 (i j : nat) :
  (i < N)%nat -> (j < N)%nat ->
  Np.at2 (Cluster.qdistance_rows table N) i j
  = Spec.ssd (nth j table []) (nth i table []) / INR P.
Proof.
  intros Hi Hj. unfold Np.at2, Cluster.qdistance_rows.
  rewrite nth_map_seq by exact Hi. cbn [Nat.add].
  rewrite getScalars_all. unfold Cluster.getScalar.
  rewrite scalarDistance_nth by (rewrite table_length; exact Hj).
  rewrite (row_len_nth P table i table_rows)
    by (rewrite table_length; exact Hi).
  reflexivity.
Qed.

Lemma qdistance_rows_sym (i j : nat) :
  (i < N)%nat -> (j < N)%nat ->
  Np.at2 (Cluster.qdistance_rows table N) i j
  = Np.at2 (Cluster.qdistance_rows table N) j i.
Proof.
  intros Hi Hj. rewrite !qdistance_rows_at2 by assumption.
  rewrite ssd_sym. reflexivity.
Qed.

Lemma qdistance_rows_nonneg (i j : nat) :
  (i < N)%nat -> (j < N)%nat ->
  0 <= Np.at2 (Cluster.qdistance_rows table N) i j.
Proof.
  intros Hi Hj. rewrite qdistance_rows_at2 by assumption.
  apply ssd_over_nonneg.
Qed.

Lemma qdistance_rows_diag (i : nat) :
  (i < N)%nat -> Np.at2 (Cluster.qdistance_rows table N) i i = 0.
Proof.
  intros Hi. rewrite qdistance_rows_at2 by assumption.
  rewrite ssd_refl. unfold Rdiv. ring.
Qed.

Lemma qdistance_rows_col_min (j : nat) :
  (j < N)%nat -> Np.vmin (Np.col j (Cluster.qdistance_rows table N)) = 0.
Proof.
  intros Hj. apply vmin_zero.
  - rewrite <- (qdistance_rows_diag j Hj).
    apply col_in. rewrite qdistance_rows_length. exact Hj.
  - rewrite Forall_forall. intros t Hin.
    destruct (In_nth _ _ 0 Hin) as (i & Hi & <-).
    rewrite col_length, qdistance_rows_length in Hi.
    rewrite col_nth by (rewrite qdistance_rows_length; exact Hi).
    apply qdistance_rows_nonneg; assumption.
Qed.

Lemma at2_le_max_all (M : Np.matrix) (i j : nat) :
  (i < length M)%nat -> (j < length (nth i M []))%nat ->
  Np.at2 M i j <= Cluster.max_all M.
Proof.
  intros Hi Hj. unfold Cluster.max_all. apply vmax_ge.
  apply in_concat. exists (nth i M []). split.
  - apply nth_In, Hi.
  - unfold Np.at2. apply nth_In, Hj.
Qed.

Lemma normalized_q_at2 (i j : nat) :
  (i < N)%nat -> (j < N)%nat ->
  let raw := Cluster.qdistance_rows table N in
  Np.at2 (Cluster.normalize_if_above_one raw) i j
  = if Rlt_dec 1 (Cluster.max_all raw)
    then Np.at2 raw i j
         / (if Req_dec_T (Np.vmax (Np.col j raw)) 0 then 1
            else Np.vmax (Np.col j raw))
    else Np.at2 raw i j.
Proof.
  intros Hi Hj raw. unfold Cluster.normalize_if_above_one. fold raw.
  destruct (Rlt_dec 1 (Cluster.max_all raw)) as [Hgt|Hle]; [|reflexivity].
  rewrite (MinMaxScaler_at2 raw N i j);
    [ | apply qdistance_rows_row_len
      | unfold raw; rewrite qdistance_rows_length; exact Hi
      | exact Hj ].
  cbv zeta. unfold raw. rewrite (qdistance_rows_col_min j Hj).
  rewrite !Rminus_0_r. reflexivity.
Qed.

Lemma normalized_q_unit (i j : nat) :
  (i < N)%nat -> (j < N)%nat ->
  0 <= Np.at2 (Cluster.normalize_if_above_one
                 (Cluster.qdistance_rows table N)) i j <= 1.
Proof.
  intros Hi Hj. rewrite (normalized_q_at2 i j Hi Hj). cbv zeta.
  set (raw := Cluster.qdistance_rows table N).
  pose proof (qdistance_rows_nonneg i j Hi Hj) as Hnn. fold raw in Hnn.
  assert (Hlen : length raw = N) by apply qdistance_rows_length.
  destruct (Rlt_dec 1 (Cluster.max_all raw)) as [Hgt|Hle].
  - assert (Hin : In (Np.at2 raw i j) (Np.col j raw))
      by (apply col_in; rewrite Hlen; exact Hi).
    pose proof (vmax_ge _ _ Hin) as Hmax.
    pose proof (scaled_in_unit (Np.at2 raw i j) 0 (Np.vmax (Np.col j raw))
                  Hnn Hmax) as H.
    rewrite !Rminus_0_r in H. exact H.
  - split; [exact Hnn|].
    pose proof (at2_le_max_all raw i j) as H.
    rewrite Hlen in H. specialize (H Hi).
    rewrite (row_len_nth N raw i qdistance_rows_row_len) in H
      by (rewrite Hlen; exact Hi).
    specialize (H Hj). lra.
Qed.

End QDistance.

(** X16.  For a scalar table of N profiles of [P >= 1] values each, the
    matrix returned by [_pairwiseQDistance_matrix] has every entry in
    [0, 1] and a zero diagonal; when no raw scalar distance exceeds 1 the
    matrix is returned as computed, and it is symmetric. *)
Theorem pairwiseQDistance_properties
        (convertFromVTK : Vtk.vtkPolyData -> nat -> Fibers.FiberArray)
        (ScalarData ScalarType : Type)
        (addScalar : Vtk.vtkPolyData -> Fibers.FiberArray ->
                     ScalarData -> ScalarType -> Np.matrix)
        (inputVTK : Vtk.vtkPolyData) (scalarData : ScalarData)
        (scalarType : ScalarType) (no_of_jobs : Z) (P i j : nat) :
  let fiberArray := convertFromVTK inputVTK 20%nat in
  let N := Fibers.no_of_fibers fiberArray in
  let table := addScalar inputVTK fiberArray scalarData scalarType in
  let Q := Cluster._pairwiseQDistance_matrix convertFromVTK ScalarData
             ScalarType addScalar inputVTK scalarData scalarType
             no_of_jobs in
  length table = N -> Np.row_len P table -> (1 <= P)%nat ->
  (i < N)%nat -> (j < N)%nat ->
  0 <= Np.at2 Q i j <= 1
  /\ Np.at2 Q i i = 0
  /\ (Cluster.max_all (Cluster.qdistance_rows table N) <= 1 ->
      Q = Cluster.qdistance_rows table N
      /\ Np.at2 Q i j = Np.at2 Q j i).
Proof.
  intros fa N table Q Hlen Hrows HP Hi Hj.
  unfold Q, Cluster._pairwiseQDistance_matrix. fold fa. fold N. fold table.
  split; [apply (normalized_q_unit table N P Hlen Hrows i j Hi Hj)|].
  split.
  - rewrite (normalized_q_at2 table N P Hlen Hrows i i Hi Hi). cbv zeta.
    rewrite (qdistance_rows_diag table N P Hlen Hrows i Hi).
    destruct (Rlt_dec 1 _); [|reflexivity].
    unfold Rdiv. apply Rmult_0_l.
  - intros Hmax. unfold Cluster.normalize_if_above_one.
    destruct (Rlt_dec 1 (Cluster.max_all (Cluster.qdistance_rows table N)))
      as [Hgt|_]; [lra|].
    split; [reflexivity|].
    apply (qdistance_rows_sym table N P Hlen Hrows i j Hi Hj).
Qed.

Lemma pairwiseQDistance_properties_witness :
  0 <= Np.at2 (Cluster._pairwiseQDistance_matrix Example.resampled
                 unit unit
                 (fun _ _ _ _ => [[1; 2]; [4; 6]; [0; 0]])
                 Example.polydata tt tt 2) 0 1 <= 1.
Proof.
  apply (pairwiseQDistance_properties Example.resampled unit unit
           (fun _ _ _ _ => [[1; 2]; [4; 6]; [0; 0]])
           Example.polydata tt tt 2 2 0 1).
  - reflexivity.
  - repeat constructor.
  - lia.
  - cbn. lia.
  - cbn. lia.
Defined.

(** X17.  Under the same conditions, and for a kernel width other than
    0, every entry of the matrix returned by
    [_pairwiseQSimilarity_matrix] lies between [exp(-1 / (2 sigma^2))]
    and 1, and its diagonal entries are 1. *)
Theorem pairwiseQSimilarity_bounds
        (convertFromVTK : Vtk.vtkPolyData -> nat -> Fibers.FiberArray)
        (ScalarData ScalarType : Type)
        (addScalar : Vtk.vtkPolyData -> Fibers.FiberArray ->
                     ScalarData -> ScalarType -> Np.matrix)
        (inputVTK : Vtk.vtkPolyData) (scalarData : ScalarData)
        (scalarType : ScalarType) (sigma : R) (no_of_jobs : Z)
        (P i j : nat) :
  let fiberArray := convertFromVTK inputVTK 20%nat in
  let N := Fibers.no_of_fibers fiberArray in
  let table := addScalar inputVTK fiberArray scalarData scalarType in
  let S := Cluster._pairwiseQSimilarity_matrix convertFromVTK ScalarData
             ScalarType addScalar inputVTK scalarData scalarType sigma
             no_of_jobs in
  length table = N -> Np.row_len P table -> (1 <= P)%nat ->
  (i < N)%nat -> (j < N)%nat -> sigma <> 0 ->
  exp (- 1 / (2 * (sigma * sigma))) <= Np.at2 S i j <= 1
  /\ Np.at2 S i i = 1.
Proof.
  intros fa N table S Hlen Hrows HP Hi Hj Hs.
  set (Q := Cluster._pairwiseQDistance_matrix convertFromVTK ScalarData
              ScalarType addScalar inputVTK scalarData scalarType
              no_of_jobs).
  assert (HQ : Q = Cluster.normalize_if_above_one
                     (Cluster.qdistance_rows table N)) by reflexivity.
  assert (HQlen : length Q = N).
  { rewrite HQ. unfold Cluster.normalize_if_above_one.
    destruct (Rlt_dec 1 _);
      rewrite ?MinMaxScaler_length; apply qdistance_rows_length. }
  assert (HQrows : Np.row_len N Q).
  { rewrite HQ. unfold Cluster.normalize_if_above_one.
    destruct (Rlt_dec 1 _).
    - apply MinMaxScaler_row_len.
      + apply (qdistance_rows_row_len table N Hlen).
      + rewrite qdistance_rows_length. lia.
    - apply (qdistance_rows_row_len table N Hlen). }
  assert (Hat : forall a b, (a < N)%nat -> (b < N)%nat ->
                  Np.at2 S a b = gausKernel (Np.at2 Q a b) (Np.sq sigma)).
  { intros a b Ha Hb. unfold S, Cluster._pairwiseQSimilarity_matrix.
    fold Q. apply gausKernel_similarity_at2.
    - rewrite HQlen. exact Ha.
    - rewrite (row_len_nth N Q a HQrows) by (rewrite HQlen; exact Ha).
      exact Hb. }
  split.
  - rewrite (Hat i j Hi Hj).
    apply (gausKernel_unit_range (Np.at2 Q i j) sigma Hs).
    rewrite HQ. apply (normalized_q_unit table N P Hlen Hrows i j Hi Hj).
  - rewrite (Hat i i Hi Hi).
    replace (Np.at2 Q i i) with 0; [apply gausKernel_zero|].
    symmetry. rewrite HQ.
    rewrite (normalized_q_at2 table N P Hlen Hrows i i Hi Hi). cbv zeta.
    rewrite (qdistance_rows_diag table N P Hlen Hrows i Hi).
    destruct (Rlt_dec 1 _); [|reflexivity].
    unfold Rdiv. apply Rmult_0_l.
Qed.

Lemma pairwiseQSimilarity_bounds_witness :
  Np.at2 (Cluster._pairwiseQSimilarity_matrix Example.resampled
            unit unit
            (fun _ _ _ _ => [[1; 2]; [4; 6]; [0; 0]])
            Example.polydata tt tt 60 2) 1 1 = 1.
Proof.
  apply (pairwiseQSimilarity_bounds Example.resampled unit unit
           (fun _ _ _ _ => [[1; 2]; [4; 6]; [0; 0]])
           Example.polydata tt tt 60 2 2 1 1).
  - reflexivity.
  - repeat constructor.
  - lia.
  - cbn. lia.
  - cbn. lia.
  - lra.
Defined.

(* ================================================================= *)
(** * Floating-point rounding

    The statements above are proved over exact real arithmetic.  The
    statements of this part are those that rounding decides: they are
    evaluated on float64 itself, or proved for every arithmetic that
    rounds each result with a bounded relative error and for every
    order in which [np.sum] adds the entries of a row. *)

(** ** The array code, entry by entry, for any arithmetic *)

Section RoundedArrays.

Context {T : Type} {A : Rounded.Arith T}.

Lemma rounded_rows_length (fx fy fz : list T) (X Y Z : list (list T)) :
  length X = length Y -> length Y = length Z ->
  length (Np.zipWith (Np.zipWith Rounded.add)
            (Np.zipWith (Np.zipWith Rounded.add)
               (map (map Rounded.square)
                    (map (fun row => Np.zipWith Rounded.sub row fx) X))
               (map (map Rounded.square)
                    (map (fun row => Np.zipWith Rounded.sub row fy) Y)))
            (map (map Rounded.square)
                 (map (fun row => Np.zipWith Rounded.sub row fz) Z)))
  = length X.
Proof.
  intros HXY HYZ.
  rewrite zipWith_length; rewrite zipWith_length; rewrite !length_map;
    congruence.
Qed.

Lemma rounded_rows_nth (fx fy fz : list T) :
  forall (X Y Z : list (list T)) (j : nat),
    length X = length Y -> length Y = length Z -> (j < length X)%nat ->
    nth j (Np.zipWith (Np.zipWith Rounded.add)
             (Np.zipWith (Np.zipWith Rounded.add)
                (map (map Rounded.square)
                     (map (fun row => Np.zipWith Rounded.sub row fx) X))
                (map (map Rounded.square)
                     (map (fun row => Np.zipWith Rounded.sub row fy) Y)))
             (map (map Rounded.square)
                  (map (fun row => Np.zipWith Rounded.sub row fz) Z))) []
    = Np.zipWith Rounded.add
        (Np.zipWith Rounded.add
           (map Rounded.square (Np.zipWith Rounded.sub (nth j X []) fx))
           (map Rounded.square (Np.zipWith Rounded.sub (nth j Y []) fy)))
        (map Rounded.square (Np.zipWith Rounded.sub (nth j Z []) fz)).
Proof.
  induction X as [|rx X IH]; intros [|ry Y] [|rz Z] j HXY HYZ Hj;
    simpl in HXY, HYZ, Hj; try lia.
  destruct j as [|j]; [reflexivity|].
  cbn [map Np.zipWith nth]. apply IH; lia.
Qed.

Lemma rounded_internal_length (f : Rounded.Fiber T) (fa : Rounded.FiberArray T) :
  Rounded.FiberArray_wf fa ->
  length (Rounded._fiberDistance_internal f fa) = Rounded.no_of_fibers fa.
Proof.
  intros (Hx & Hy & Hz & _). unfold Rounded._fiberDistance_internal.
  rewrite !length_map, rounded_rows_length; congruence.
Qed.

Lemma rounded_internal_nth (f : Rounded.Fiber T) (fa : Rounded.FiberArray T)
      (j : nat) (d : T) :
  Rounded.FiberArray_wf fa -> (j < Rounded.no_of_fibers fa)%nat ->
  nth j (Rounded._fiberDistance_internal f fa) d
  = Rounded.meanSquared (Rounded.pts_per_fiber fa) f (Rounded.getFiber fa j).
Proof.
  intros (Hx & Hy & Hz & _) Hj.
  unfold Rounded._fiberDistance_internal, Rounded.meanSquared, Rounded.sqdist.
  cbn [Rounded.getFiber Rounded.x Rounded.y Rounded.z].
  rewrite (nth_map_in _ _ j Rounded.zero d)
    by (rewrite length_map, rounded_rows_length; congruence).
  rewrite (nth_map_in _ _ j [] Rounded.zero)
    by (rewrite rounded_rows_length; congruence).
  rewrite rounded_rows_nth by congruence.
  reflexivity.
Qed.

Lemma rounded_fiberDistance_length (f : Rounded.Fiber T)
      (fa : Rounded.FiberArray T) :
  Rounded.FiberArray_wf fa ->
  length (Rounded.fiberDistance f fa) = Rounded.no_of_fibers fa.
Proof.
  intros H. unfold Rounded.fiberDistance.
  rewrite zipWith_length; rewrite !rounded_internal_length by exact H;
    reflexivity.
Qed.

Lemma rounded_fiberDistance_nth (f : Rounded.Fiber T)
      (fa : Rounded.FiberArray T) (j : nat) (d : T) :
  Rounded.FiberArray_wf fa -> (j < Rounded.no_of_fibers fa)%nat ->
  nth j (Rounded.fiberDistance f fa) d
  = Rounded.pairDistance (Rounded.pts_per_fiber fa) f (Rounded.getFiber fa j).
Proof.
  intros Hwf Hj. unfold Rounded.fiberDistance.
  rewrite (zipWith_nth Rounded.minimum _ _ j d d d).
  - rewrite !rounded_internal_nth by assumption. reflexivity.
  - rewrite rounded_internal_length; assumption.
  - rewrite !rounded_internal_length; auto.
Qed.

Lemma rounded_fiberDistance_single (P : nat) (f g : Rounded.Fiber T) :
  Rounded.fiberDistance f (Rounded.collection P [g])
  = [Rounded.pairDistance P f g].
Proof. reflexivity. Qed.

Lemma rounded_getFiber_wf (fa : Rounded.FiberArray T) (i : nat) :
  Rounded.FiberArray_wf fa -> (i < Rounded.no_of_fibers fa)%nat ->
  Rounded.Fiber_wf (Rounded.pts_per_fiber fa) (Rounded.getFiber fa i).
Proof.
  intros (Hx & Hy & Hz & Rx & Ry & Rz) Hi.
  unfold Rounded.Fiber_wf. cbn.
  rewrite Forall_forall in Rx, Ry, Rz.
  repeat split; try reflexivity;
    [apply Rx | apply Ry | apply Rz]; apply nth_In; lia.
Qed.

Lemma rounded_distance_rows_at (fa : Rounded.FiberArray T) (i j : nat)
      (d : T) :
  Rounded.FiberArray_wf fa ->
  (i < Rounded.no_of_fibers fa)%nat -> (j < Rounded.no_of_fibers fa)%nat ->
  nth j (nth i (Rounded.distance_rows fa) []) d
  = Rounded.pairDistance (Rounded.pts_per_fiber fa)
      (Rounded.getFiber fa i) (Rounded.getFiber fa j).
Proof.
  intros Hwf Hi Hj. unfold Rounded.distance_rows.
  rewrite nth_map_seq by exact Hi. cbn [Nat.add].
  apply rounded_fiberDistance_nth; assumption.
Qed.

End RoundedArrays.

(** ** Rounded real arithmetic *)

Lemma Forall_zipWith {A B C} (f : A -> B -> C)
      (Qa : A -> Prop) (Qb : B -> Prop) (Q : C -> Prop)
      (a : list A) (b : list B) :
  (forall s t, Qa s -> Qb t -> Q (f s t)) ->
  Forall Qa a -> Forall Qb b -> Forall Q (Np.zipWith f a b).
Proof.
  intros H Ha. revert b; induction Ha as [|s a Hs Ha IH];
    intros b Hb; [constructor|].
  destruct Hb as [|t b Ht Hb]; cbn [Np.zipWith]; constructor; auto.
Qed.

Lemma Rmin_tolerance (a b b' rho : R) :
  0 <= a -> 1 <= rho -> b <= rho * b' -> Rmin a b <= rho * Rmin a b'.
Proof.
  intros Ha Hr Hb. unfold Rmin.
  destruct (Rle_dec a b), (Rle_dec a b'); nra.
Qed.

Lemma sum_nonneg (l : Np.vector) :
  Forall (fun t => 0 <= t) l -> 0 <= Np.sum l.
Proof.
  induction 1 as [|t l Ht Hl IH].
  - rewrite sum_nil. lra.
  - rewrite sum_cons. lra.
Qed.

Lemma sum_permutation (l l' : Np.vector) :
  Permutation l l' -> Np.sum l = Np.sum l'.
Proof.
  induction 1 as [| t l l' H IH | a b l | l l' l'' H1 IH1 H2 IH2].
  - reflexivity.
  - rewrite !sum_cons, IH. reflexivity.
  - rewrite !sum_cons. lra.
  - congruence.
Qed.

Section Rounding.

Variable u : R.
Variable rnd : R -> R.
Variable row_sum : list R -> R.
Hypothesis Hrnd : Rounded.rounding u rnd.
Hypothesis Hsum : Rounded.summation rnd row_sum.

Let A : Rounded.Arith R := Rounded.rounded rnd row_sum.
#[local] Existing Instance A.

Lemma rnd_zero : rnd 0 = 0.
Proof.
  destruct Hrnd as (_ & Hrel & _). specialize (Hrel 0).
  rewrite Rabs_R0, Rmult_0_r, Rminus_0_r in Hrel.
  pose proof (Rabs_pos (rnd 0)).
  destruct (Req_dec (rnd 0) 0) as [E|E]; [exact E|].
  pose proof (Rabs_pos_lt _ E). lra.
Qed.

Lemma rnd_bounds (t : R) :
  0 <= t -> (1 - u) * t <= rnd t <= (1 + u) * t.
Proof.
  intros Ht. destruct Hrnd as (_ & Hrel & _). specialize (Hrel t).
  rewrite (Rabs_pos_eq t Ht) in Hrel.
  unfold Rabs in Hrel. destruct (Rcase_abs (rnd t - t)); lra.
Qed.

Lemma rnd_nonneg (t : R) : 0 <= t -> 0 <= rnd t.
Proof.
  intros Ht. pose proof (rnd_bounds t Ht) as [Hlo _].
  destruct Hrnd as ([_ Hu] & _). nra.
Qed.

Lemma rounded_square_nonneg (t : R) : 0 <= Rounded.square t.
Proof.
  unfold Rounded.square. cbn. apply rnd_nonneg.
  pose proof (Rle_0_sqr t) as H. unfold Rsqr in H. exact H.
Qed.

Lemma rounded_square_sub_sym (a b : R) :
  Rounded.square (Rounded.sub a b)
  = Rounded.square (Rounded.sub b a).
Proof.
  destruct Hrnd as (_ & _ & Hopp).
  unfold Rounded.square. cbn.
  replace (b - a) with (- (a - b)) by ring.
  rewrite Hopp. f_equal. ring.
Qed.

Lemma rounded_sq_diff_sym (a b : list R) :
  map (Rounded.square) (Np.zipWith Rounded.sub a b)
  = map (Rounded.square) (Np.zipWith Rounded.sub b a).
Proof.
  revert b; induction a as [|s a IH]; intros [|t b]; try reflexivity.
  cbn [Np.zipWith map]. rewrite rounded_square_sub_sym, IH. reflexivity.
Qed.

(** The squared distances of corresponding points do not depend on
    which of the two fibers is the single one. *)
Lemma rounded_sqdist_sym (f g : Rounded.Fiber R) :
  Rounded.sqdist g f = Rounded.sqdist f g.
Proof.
  unfold Rounded.sqdist.
  rewrite (rounded_sq_diff_sym (Rounded.x g)),
    (rounded_sq_diff_sym (Rounded.y g)), (rounded_sq_diff_sym (Rounded.z g)).
  reflexivity.
Qed.

Lemma rounded_sqdist_length (P : nat) (f g : Rounded.Fiber R) :
  Rounded.Fiber_wf P f -> Rounded.Fiber_wf P g ->
  length (Rounded.sqdist g f) = P.
Proof.
  intros (Fx & Fy & Fz & _) (Gx & Gy & Gz & _). unfold Rounded.sqdist.
  assert (Lx : length (map (Rounded.square)
                         (Np.zipWith Rounded.sub (Rounded.x g) (Rounded.x f)))
               = P)
    by (rewrite length_map, zipWith_length; congruence).
  assert (Ly : length (map (Rounded.square)
                         (Np.zipWith Rounded.sub (Rounded.y g) (Rounded.y f)))
               = P)
    by (rewrite length_map, zipWith_length; congruence).
  assert (Lz : length (map (Rounded.square)
                         (Np.zipWith Rounded.sub (Rounded.z g) (Rounded.z f)))
               = P)
    by (rewrite length_map, zipWith_length; congruence).
  rewrite zipWith_length; rewrite zipWith_length; congruence.
Qed.

(** Reversing one fiber of the pair reverses the list of squared
    distances obtained by reversing the other one. *)
Lemma rounded_sqdist_rev (P : nat) (f g : Rounded.Fiber R) :
  Rounded.Fiber_wf P f -> Rounded.Fiber_wf P g ->
  Rounded.sqdist (Rounded.getReverseFiber g) f
  = rev (Rounded.sqdist g (Rounded.getReverseFiber f)).
Proof.
  intros (Fx & Fy & Fz & _) (Gx & Gy & Gz & _).
  unfold Rounded.sqdist, Rounded.getReverseFiber.
  cbn [Rounded.x Rounded.y Rounded.z].
  rewrite <- (rev_involutive (Rounded.x f)) at 1.
  rewrite <- (rev_involutive (Rounded.y f)) at 1.
  rewrite <- (rev_involutive (Rounded.z f)) at 1.
  rewrite !zipWith_rev by (rewrite ?length_rev; congruence).
  rewrite !map_rev.
  rewrite !zipWith_rev; try reflexivity;
    rewrite ?zipWith_length; rewrite ?length_map, ?zipWith_length;
    rewrite ?length_map, ?zipWith_length, ?length_rev; congruence.
Qed.

Lemma rounded_squares_nonneg (l : list R) :
  Forall (fun t => 0 <= t) (map (Rounded.square) l).
Proof.
  rewrite Forall_forall. intros t Hin.
  apply in_map_iff in Hin. destruct Hin as (s & <- & _).
  apply rounded_square_nonneg.
Qed.

Lemma rounded_sqdist_nonneg (f g : Rounded.Fiber R) :
  Forall (fun t => 0 <= t) (Rounded.sqdist g f).
Proof.
  assert (Hadd : forall s t, 0 <= s -> 0 <= t -> 0 <= Rounded.add s t).
  { intros s t Hs Ht. cbn. apply rnd_nonneg. lra. }
  unfold Rounded.sqdist.
  apply (Forall_zipWith _ (fun t => 0 <= t) (fun t => 0 <= t)); [exact Hadd| |].
  - apply (Forall_zipWith _ (fun t => 0 <= t) (fun t => 0 <= t));
      [exact Hadd | apply rounded_squares_nonneg | apply rounded_squares_nonneg].
  - apply rounded_squares_nonneg.
Qed.

(** A sum by rounded additions of non-negative numbers, none of which
    passes through more than [k] additions, lies within the factors
    [(1 - u)^k] and [(1 + u)^k] of their exact sum. *)
Lemma Summed_bounds (k : nat) (l : list R) (s : R) :
  Rounded.Summed rnd k l s ->
  Forall (fun t => 0 <= t) l ->
  (1 - u) ^ k * Np.sum l <= s <= (1 + u) ^ k * Np.sum l.
Proof.
  destruct Hrnd as ([Hu0 Hu1] & _).
  assert (Hp : forall n, 1 <= (1 + u) ^ n)
    by (intros n; apply pow_R1_Rle; lra).
  assert (Hq0 : forall n, 0 <= (1 - u) ^ n)
    by (intros n; apply pow_le; lra).
  assert (Hq1 : forall n, (1 - u) ^ n <= 1).
  { intros n. apply Rle_trans with (1 ^ n); [apply pow_incr; lra|].
    rewrite pow1. lra. }
  induction 1 as [k | k t | k l1 l2 s1 s2 H1 IH1 H2 IH2 | k l l' s Hperm H IH];
    intros Hl.
  - rewrite sum_nil. lra.
  - inversion Hl; subst. rewrite sum_cons, sum_nil, Rplus_0_r.
    specialize (Hp k). specialize (Hq0 k). specialize (Hq1 k). nra.
  - apply Forall_app in Hl. destruct Hl as [Hl1 Hl2].
    specialize (IH1 Hl1). specialize (IH2 Hl2).
    pose proof (sum_nonneg l1 Hl1) as T1.
    pose proof (sum_nonneg l2 Hl2) as T2.
    rewrite sum_app. cbn [pow].
    specialize (Hp k). specialize (Hq0 k).
    set (p := (1 + u) ^ k) in *. set (q := (1 - u) ^ k) in *.
    assert (Hs : 0 <= s1 + s2) by nra.
    pose proof (rnd_bounds (s1 + s2) Hs) as [Hlo Hhi].
    split.
    + apply Rle_trans with ((1 - u) * (s1 + s2)); [|exact Hlo].
      rewrite Rmult_assoc. apply Rmult_le_compat_l; lra.
    + apply Rle_trans with ((1 + u) * (s1 + s2)); [exact Hhi|].
      rewrite Rmult_assoc. apply Rmult_le_compat_l; lra.
  - rewrite <- (sum_permutation l l' Hperm). apply IH.
    apply (Permutation_Forall (Permutation_sym Hperm)). exact Hl.
Qed.

Lemma rounded_sum_bounds (l : list R) :
  Forall (fun t => 0 <= t) l ->
  (1 - u) ^ S (length l) * Np.sum l
  <= Rounded.sum l
  <= (1 + u) ^ S (length l) * Np.sum l.
Proof.
  intros Hl. change (@Rounded.sum R A l) with (row_sum l).
  apply Summed_bounds; [apply Hsum | exact Hl].
Qed.

Lemma rounded_of_nat_pos (P : nat) :
  (1 <= P)%nat -> 0 < Rounded.of_nat P.
Proof.
  intros HP. destruct Hrnd as ([Hu0 Hu1] & _).
  assert (Hp : 1 <= INR P) by (apply (le_INR 1); exact HP).
  pose proof (rnd_bounds (INR P) ltac:(lra)) as [Hlo _].
  change (Rounded.of_nat P) with (rnd (INR P)). nra.
Qed.

Lemma rounded_sum_nonneg (l : list R) :
  Forall (fun t => 0 <= t) l -> 0 <= Rounded.sum l.
Proof.
  intros Hl. destruct Hrnd as ([Hu0 Hu1] & _).
  pose proof (rounded_sum_bounds l Hl) as [Hlo _].
  pose proof (sum_nonneg l Hl) as HT.
  assert (Hq : 0 <= (1 - u) ^ S (length l)) by (apply pow_le; lra).
  nra.
Qed.

(** The mean a fiber distance returns: the rounded sum divided by the
    rounded number of points. *)
Lemma rounded_mean_nonneg (P : nat) (l : list R) :
  (1 <= P)%nat -> Forall (fun t => 0 <= t) l ->
  0 <= Rounded.div (Rounded.sum l) (Rounded.of_nat P).
Proof.
  intros HP Hl. change (0 <= rnd (Rounded.sum l / Rounded.of_nat P)).
  apply rnd_nonneg.
  pose proof (rounded_sum_nonneg l Hl).
  pose proof (rounded_of_nat_pos P HP).
  apply Rmult_le_pos; [assumption|].
  left. apply Rinv_0_lt_compat. assumption.
Qed.

Lemma rounded_mean_bounds (P : nat) (l : list R) :
  (1 <= P)%nat -> length l = P -> Forall (fun t => 0 <= t) l ->
  (1 - u) ^ S (S P) * (Np.sum l / Rounded.of_nat P)
  <= Rounded.div (Rounded.sum l) (Rounded.of_nat P)
  <= (1 + u) ^ S (S P) * (Np.sum l / Rounded.of_nat P).
Proof.
  intros HP Hlen Hl. destruct Hrnd as ([Hu0 Hu1] & _).
  pose proof (rounded_sum_bounds l Hl) as [Slo Shi]. rewrite Hlen in Slo, Shi.
  pose proof (rounded_sum_nonneg l Hl) as HS.
  pose proof (rounded_of_nat_pos P HP) as Hc.
  assert (Hic : 0 < / Rounded.of_nat P) by (apply Rinv_0_lt_compat; exact Hc).
  change (Rounded.div (Rounded.sum l) (Rounded.of_nat P))
    with (rnd (Rounded.sum l / Rounded.of_nat P)).
  assert (Hq0 : 0 <= Rounded.sum l / Rounded.of_nat P)
    by (apply Rmult_le_pos; lra).
  pose proof (rnd_bounds _ Hq0) as [Hlo Hhi].
  change ((1 - u) ^ S (S P)) with ((1 - u) * (1 - u) ^ S P).
  change ((1 + u) ^ S (S P)) with ((1 + u) * (1 + u) ^ S P).
  unfold Rdiv in *.
  set (c := / Rounded.of_nat P) in *.
  set (p := (1 + u) ^ S P) in *. set (q := (1 - u) ^ S P) in *.
  assert (H1 : q * Np.sum l * c <= Rounded.sum l * c)
    by (apply Rmult_le_compat_r; lra).
  assert (H2 : Rounded.sum l * c <= p * Np.sum l * c)
    by (apply Rmult_le_compat_r; lra).
  split.
  - apply Rle_trans with ((1 - u) * (Rounded.sum l * c)); [|exact Hlo].
    replace ((1 - u) * q * (Np.sum l * c))
      with ((1 - u) * (q * Np.sum l * c)) by ring.
    apply Rmult_le_compat_l; lra.
  - apply Rle_trans with ((1 + u) * (Rounded.sum l * c)); [exact Hhi|].
    replace ((1 + u) * p * (Np.sum l * c))
      with ((1 + u) * (p * Np.sum l * c)) by ring.
    apply Rmult_le_compat_l; lra.
Qed.

Lemma tolerance_ge_1 (P : nat) : 1 <= Rounded.tolerance u P.
Proof.
  destruct Hrnd as ([Hu0 Hu1] & _). unfold Rounded.tolerance.
  apply pow_R1_Rle. unfold Rdiv.
  assert (Hi : 0 < / (1 - u)) by (apply Rinv_0_lt_compat; lra).
  assert (E : (1 - u) * / (1 - u) = 1) by (apply Rinv_r; lra).
  nra.
Qed.

Lemma tolerance_cancel (P : nat) :
  Rounded.tolerance u P * (1 - u) ^ S (S P) = (1 + u) ^ S (S P).
Proof.
  destruct Hrnd as ([Hu0 Hu1] & _). unfold Rounded.tolerance.
  rewrite <- Rpow_mult_distr. f_equal. field. lra.
Qed.

(** Adding the same non-negative numbers in the opposite order changes
    the rounded mean by the factor [tolerance u P] at most. *)
Lemma rounded_mean_rev (P : nat) (l : list R) :
  (1 <= P)%nat -> length l = P -> Forall (fun t => 0 <= t) l ->
  Rounded.div (Rounded.sum (rev l)) (Rounded.of_nat P)
  <= Rounded.tolerance u P
     * Rounded.div (Rounded.sum l) (Rounded.of_nat P).
Proof.
  intros HP Hlen Hl.
  assert (Hrev : Forall (fun t => 0 <= t) (rev l)) by (apply Forall_rev, Hl).
  pose proof (rounded_mean_bounds P (rev l) HP
                ltac:(rewrite length_rev; exact Hlen) Hrev) as [_ Hhi].
  pose proof (rounded_mean_bounds P l HP Hlen Hl) as [Hlo _].
  rewrite sum_rev in Hhi.
  pose proof (tolerance_ge_1 P) as Ht.
  pose proof (tolerance_cancel P) as Hc.
  set (m := Np.sum l / Rounded.of_nat P) in *.
  apply Rle_trans with ((1 + u) ^ S (S P) * m); [exact Hhi|].
  rewrite <- Hc, Rmult_assoc.
  apply Rmult_le_compat_l; lra.
Qed.

(** *** The distance of a pair of fibers *)

Lemma rounded_meanSquared_nonneg (P : nat) (f g : Rounded.Fiber R) :
  (1 <= P)%nat -> 0 <= Rounded.meanSquared P f g.
Proof.
  intros HP. unfold Rounded.meanSquared.
  apply rounded_mean_nonneg; [exact HP | apply rounded_sqdist_nonneg].
Qed.

Lemma rounded_meanSquared_sym (P : nat) (f g : Rounded.Fiber R) :
  Rounded.meanSquared P f g = Rounded.meanSquared P g f.
Proof.
  unfold Rounded.meanSquared. rewrite (rounded_sqdist_sym f g). reflexivity.
Qed.

Lemma rounded_getReverseFiber_wf (P : nat) (f : Rounded.Fiber R) :
  Rounded.Fiber_wf P f -> Rounded.Fiber_wf P (Rounded.getReverseFiber f).
Proof.
  intros (Hx & Hy & Hz & Hp). unfold Rounded.Fiber_wf. cbn.
  rewrite !length_rev. auto.
Qed.

Lemma rounded_meanSquared_rev (P : nat) (f g : Rounded.Fiber R) :
  (1 <= P)%nat -> Rounded.Fiber_wf P f -> Rounded.Fiber_wf P g ->
  Rounded.meanSquared P (Rounded.getReverseFiber g) f
  <= Rounded.tolerance u P
     * Rounded.meanSquared P (Rounded.getReverseFiber f) g.
Proof.
  intros HP Hf Hg. unfold Rounded.meanSquared.
  rewrite (rounded_sqdist_sym (Rounded.getReverseFiber g) f).
  rewrite (rounded_sqdist_rev P f g Hf Hg).
  apply rounded_mean_rev; [exact HP | | apply rounded_sqdist_nonneg].
  apply rounded_sqdist_length;
    [apply rounded_getReverseFiber_wf; exact Hf | exact Hg].
Qed.

Lemma rounded_pairDistance_nonneg (P : nat) (f g : Rounded.Fiber R) :
  (1 <= P)%nat -> 0 <= Rounded.pairDistance P f g.
Proof.
  intros HP. unfold Rounded.pairDistance.
  change (@Rounded.minimum R A) with Rmin.
  apply Rmin_glb; apply rounded_meanSquared_nonneg; exact HP.
Qed.

Lemma rounded_pairDistance_tolerance (P : nat) (f g : Rounded.Fiber R) :
  (1 <= P)%nat -> Rounded.Fiber_wf P f -> Rounded.Fiber_wf P g ->
  Rounded.pairDistance P f g
  <= Rounded.tolerance u P * Rounded.pairDistance P g f.
Proof.
  intros HP Hf Hg. unfold Rounded.pairDistance.
  change (@Rounded.minimum R A) with Rmin.
  rewrite (rounded_meanSquared_sym P g f).
  apply Rmin_tolerance.
  - apply rounded_meanSquared_nonneg; exact HP.
  - apply tolerance_ge_1.
  - apply rounded_meanSquared_rev; assumption.
Qed.

Lemma rounded_sum_zero (l : list R) :
  Forall (fun t => t = 0) l -> Rounded.sum l = 0.
Proof.
  intros Hl.
  assert (Hnn : Forall (fun t => 0 <= t) l)
    by (apply (Forall_impl _ (P := fun t => t = 0)); [intros t ->; lra | exact Hl]).
  assert (Hz : Np.sum l = 0).
  { clear Hnn. induction Hl as [|t l Ht Hl IH]; [reflexivity|].
    rewrite sum_cons, IH, Ht. lra. }
  pose proof (rounded_sum_bounds l Hnn) as [Hlo Hhi].
  rewrite Hz, Rmult_0_r in Hlo, Hhi. lra.
Qed.

Lemma rounded_sq_diff_self (a : list R) :
  Forall (fun t => t = 0) (map Rounded.square (Np.zipWith Rounded.sub a a)).
Proof.
  induction a as [|s a IH]; [constructor|].
  cbn [Np.zipWith map]. constructor; [|exact IH].
  unfold Rounded.square. cbn.
  unfold Rminus. rewrite Rplus_opp_r, rnd_zero, Rmult_0_r. apply rnd_zero.
Qed.

Lemma rounded_meanSquared_refl (P : nat) (f : Rounded.Fiber R) :
  Rounded.meanSquared P f f = 0.
Proof.
  assert (Hadd : forall s t : R, s = 0 -> t = 0 -> Rounded.add s t = 0).
  { intros s t -> ->. cbn. rewrite Rplus_0_r. apply rnd_zero. }
  unfold Rounded.meanSquared.
  rewrite rounded_sum_zero.
  - cbn. unfold Rdiv. rewrite Rmult_0_l. apply rnd_zero.
  - unfold Rounded.sqdist.
    apply (Forall_zipWith _ (fun t => t = 0) (fun t => t = 0));
      [exact Hadd | | apply rounded_sq_diff_self].
    apply (Forall_zipWith _ (fun t => t = 0) (fun t => t = 0));
      [exact Hadd | apply rounded_sq_diff_self | apply rounded_sq_diff_self].
Qed.

Lemma rounded_pairDistance_refl (P : nat) (f : Rounded.Fiber R) :
  (1 <= P)%nat -> Rounded.pairDistance P f f = 0.
Proof.
  intros HP. unfold Rounded.pairDistance.
  change (@Rounded.minimum R A) with Rmin.
  rewrite rounded_meanSquared_refl.
  apply Rmin_left. apply rounded_meanSquared_nonneg. exact HP.
Qed.

(** C1, amended.  For fibers [F] and [G] of [P >= 1] points each, for
    every arithmetic that rounds each result with a relative error of
    at most [u] (float64: u = 2^-53) and whatever the order in which
    [np.sum] adds: [fiberDistance(F, {G})] and [fiberDistance(G, {F})]
    are non-negative and each is at most [((1 + u) / (1 - u))^(P + 2)]
    times the other, so they agree up to rounding and are equal when
    nothing is rounded; and [fiberDistance(F, {F})] is 0.  The distance
    is the code's [fiberDistance], the element-wise minimum of the
    positional mean squared distance for [F] as stored and for [F]
    reversed. *)
Theorem fiberDistance_symmetric_up_to_rounding (P : nat)
        (F G : Rounded.Fiber R) :
  (1 <= P)%nat -> Rounded.Fiber_wf P F -> Rounded.Fiber_wf P G ->
  exists a b : R,
    Rounded.fiberDistance F (Rounded.collection P [G]) = [a]
    /\ Rounded.fiberDistance G (Rounded.collection P [F]) = [b]
    /\ 0 <= a /\ 0 <= b
    /\ a <= Rounded.tolerance u P * b
    /\ b <= Rounded.tolerance u P * a
    /\ Rounded.fiberDistance F (Rounded.collection P [F]) = [0].
Proof.
  intros HP HF HG.
  exists (Rounded.pairDistance P F G), (Rounded.pairDistance P G F).
  rewrite !rounded_fiberDistance_single.
  rewrite (rounded_pairDistance_refl P F HP).
  repeat split; try reflexivity;
    auto using rounded_pairDistance_nonneg, rounded_pairDistance_tolerance.
Qed.

(** C3, amended.  For a nonempty fiber collection of [P >= 1] points per
    fiber, for every arithmetic that rounds each result with a relative
    error of at most [u] and whatever the order in which [np.sum] adds,
    the matrix of fiber distances built row by row is symmetric up to
    rounding before the normalisation: its entries are non-negative,
    the entries (i, j) and (j, i) are each at most
    [((1 + u) / (1 - u))^(P + 2)] times the other, and its diagonal is
    0.  (After the column-wise normalisation the two entries are scaled
    by the ranges of different columns and differ, as the three parallel
    fibers show.) *)
Theorem distance_rows_symmetric_up_to_rounding
        (fa : Rounded.FiberArray R) (i j : nat) :
  let raw := Rounded.distance_rows fa in
  let P := Rounded.pts_per_fiber fa in
  Rounded.FiberArray_wf fa -> (1 <= P)%nat ->
  (i < Rounded.no_of_fibers fa)%nat -> (j < Rounded.no_of_fibers fa)%nat ->
  0 <= nth j (nth i raw []) 0
  /\ nth j (nth i raw []) 0 <= Rounded.tolerance u P * nth i (nth j raw []) 0
  /\ nth i (nth j raw []) 0 <= Rounded.tolerance u P * nth j (nth i raw []) 0
  /\ nth i (nth i raw []) 0 = 0.
Proof.
  intros raw P Hwf HP Hi Hj. unfold raw.
  rewrite !rounded_distance_rows_at by assumption. fold P.
  pose proof (rounded_getFiber_wf fa i Hwf Hi) as Wi.
  pose proof (rounded_getFiber_wf fa j Hwf Hj) as Wj.
  fold P in Wi, Wj.
  repeat split;
    auto using rounded_pairDistance_nonneg, rounded_pairDistance_tolerance,
      rounded_pairDistance_refl.
Qed.

End Rounding.

(** ** The arithmetics and the summations covered *)

(** Exact arithmetic is one of the arithmetics covered, with any bound
    on the error. *)
Lemma exact_rounding (u : R) :
  0 <= u < 1 -> Rounded.rounding u (fun t => t).
Proof.
  intros Hu. split; [exact Hu|]. split; [|reflexivity].
  intros t. unfold Rminus. rewrite Rplus_opp_r, Rabs_R0.
  pose proof (Rabs_pos t). nra.
Qed.

(** So is an arithmetic that really rounds: one that returns every
    result too large by the factor [1 + u]. *)
Lemma inflating_rounding (u : R) :
  0 <= u < 1 -> Rounded.rounding u (fun t => t * (1 + u)).
Proof.
  intros Hu. split; [exact Hu|]. split.
  - intros t. replace (t * (1 + u) - t) with (u * t) by ring.
    rewrite Rabs_mult, (Rabs_pos_eq u) by lra. lra.
  - intros t. ring.
Qed.

(** Adding in index order is one of the summations covered. *)
Lemma Summed_weaken (rnd : R -> R) (k : nat) (l : list R) (s : R) :
  Rounded.Summed rnd k l s -> Rounded.Summed rnd (S k) l s.
Proof.
  induction 1 as [k | k t | k l1 l2 s1 s2 H1 IH1 H2 IH2 | k l l' s Hperm H IH].
  - constructor.
  - constructor.
  - constructor; assumption.
  - apply (Rounded.Summed_perm rnd (S k) l l' s Hperm IH).
Qed.

Lemma Summed_fold (rnd : R -> R) (l : list R) :
  forall (k : nat) (l0 : list R) (acc : R),
    Rounded.Summed rnd k l0 acc ->
    Rounded.Summed rnd (k + length l) (l0 ++ l)
      (fold_left (fun a b => rnd (a + b)) l acc).
Proof.
  induction l as [|t l IH]; intros k l0 acc H.
  - cbn [length fold_left]. rewrite Nat.add_0_r, app_nil_r. exact H.
  - cbn [length fold_left].
    replace (k + S (length l))%nat with (S k + length l)%nat by lia.
    replace (l0 ++ t :: l) with ((l0 ++ [t]) ++ l)
      by (rewrite <- app_assoc; reflexivity).
    apply IH. constructor; [exact H | constructor].
Qed.

Lemma sum_in_order_summation (rnd : R -> R) :
  Rounded.summation rnd (Rounded.sum_in_order (fun a b => rnd (a + b)) 0).
Proof.
  intros l. apply Summed_weaken. unfold Rounded.sum_in_order.
  apply (Summed_fold rnd l 0 [] 0). constructor.
Qed.

Lemma Summed_le (rnd : R -> R) (k k' : nat) (l : list R) (s : R) :
  (k <= k')%nat -> Rounded.Summed rnd k l s -> Rounded.Summed rnd k' l s.
Proof.
  intros Hk H. induction Hk as [|k' Hk IH]; [exact H|].
  apply Summed_weaken. exact IH.
Qed.

Section NumpySum.

Variable rnd : R -> R.

Let radd (a b : R) : R := rnd (a + b).

(** The 8 accumulators: accumulator j holds a sum of the entries [Ls j]. *)
Lemma accumulators_step (k : nat) (Ls : list (list R)) (r b : list R) :
  Forall2 (Rounded.Summed rnd k) Ls r ->
  Forall2 (Rounded.Summed rnd (S k))
          (Np.zipWith (fun els t => els ++ [t]) Ls b)
          (Np.zipWith radd r b).
Proof.
  intros H. revert b. induction H as [|els rj Ls r Hj H IH]; intros b.
  - constructor.
  - destruct b as [|t b]; cbn [Np.zipWith]; constructor.
    + apply Rounded.Summed_add; [exact Hj | constructor].
    + apply IH.
Qed.

Lemma accumulators_entries (Ls : list (list R)) (b : list R) :
  length Ls = length b ->
  Permutation (concat (Np.zipWith (fun els t => els ++ [t]) Ls b))
              (concat Ls ++ b).
Proof.
  revert b. induction Ls as [|els Ls IH]; intros [|t b] H;
    try discriminate H; [constructor|].
  cbn [Np.zipWith concat]. rewrite <- !app_assoc.
  apply Permutation_app_head. cbn [app].
  apply Permutation_cons_app. apply IH. simpl in H. lia.
Qed.

Lemma sum8_Summed (k : nat) (Ls : list (list R)) (r : list R) :
  Forall2 (Rounded.Summed rnd k) Ls r -> length r = 8%nat ->
  Rounded.Summed rnd (3 + k) (concat Ls) (Rounded.sum8 radd 0 r).
Proof.
  intros H Hlen.
  do 8 (destruct H as [|? ? ? ? ? H]; [discriminate Hlen|]).
  destruct H; [|discriminate Hlen].
  cbn [Rounded.sum8 concat]. rewrite app_nil_r.
  match goal with
  | |- Rounded.Summed _ _ (?a ++ ?b ++ ?c ++ ?d ++ ?e ++ ?f ++ ?g ++ ?h) _ =>
      replace (a ++ b ++ c ++ d ++ e ++ f ++ g ++ h)
        with (((a ++ b) ++ (c ++ d)) ++ ((e ++ f) ++ (g ++ h)))
        by (rewrite <- !app_assoc; reflexivity)
  end.
  repeat (apply Rounded.Summed_add); assumption.
Qed.

Lemma add_blocks_Summed (fuel : nat) :
  forall (k : nat) (Ls : list (list R)) (r l : list R),
    Forall2 (Rounded.Summed rnd k) Ls r -> length r = 8%nat ->
    exists (k' : nat) (Ls' : list (list R)),
      Forall2 (Rounded.Summed rnd k') Ls' (fst (Rounded.add_blocks radd fuel r l))
      /\ length (fst (Rounded.add_blocks radd fuel r l)) = 8%nat
      /\ Permutation
           (concat Ls' ++ snd (Rounded.add_blocks radd fuel r l))
           (concat Ls ++ l)
      /\ (8 * k' + length (snd (Rounded.add_blocks radd fuel r l))
          <= 8 * k + length l)%nat.
Proof.
  induction fuel as [|fuel IH]; intros k Ls r l H Hlen.
  - exists k, Ls. cbn. repeat split; auto.
  - cbn [Rounded.add_blocks].
    destruct (8 <=? length l)%nat eqn:E.
    + apply Nat.leb_le in E.
      assert (Hb : length (firstn 8 l) = 8%nat)
        by (rewrite length_firstn; lia).
      destruct (IH (S k) (Np.zipWith (fun els t => els ++ [t]) Ls (firstn 8 l))
                   (Np.zipWith radd r (firstn 8 l)) (skipn 8 l))
        as (k' & Ls' & H1 & H2 & H3 & H4).
      * apply accumulators_step. exact H.
      * rewrite zipWith_length; congruence.
      * exists k', Ls'. split; [exact H1|]. split; [exact H2|]. split.
        -- apply (Permutation_trans H3).
           rewrite <- (firstn_skipn 8 l) at 3. rewrite app_assoc.
           apply Permutation_app_tail. apply accumulators_entries.
           rewrite (Forall2_length H). congruence.
        -- rewrite length_skipn in H4. lia.
    + exists k, Ls. cbn. repeat split; auto.
Qed.

Lemma sum_block_Summed (l : list R) :
  (8 <= length l)%nat ->
  Rounded.Summed rnd (length l) l (Rounded.sum_block radd 0 l).
Proof.
  intros Hn. unfold Rounded.sum_block.
  assert (H0 : Forall2 (Rounded.Summed rnd 0)
                 (map (fun t => [t]) (firstn 8 l)) (firstn 8 l)).
  { induction (firstn 8 l) as [|t v IH]; cbn [map]; constructor;
      [constructor | exact IH]. }
  assert (L0 : length (firstn 8 l) = 8%nat) by (rewrite length_firstn; lia).
  destruct (add_blocks_Summed (length l) 0 _ _ (skipn 8 l) H0 L0)
    as (k' & Ls' & H1 & H2 & H3 & H4).
  destruct (Rounded.add_blocks radd (length l) (firstn 8 l) (skipn 8 l))
    as [r rest].
  cbn [fst snd] in *.
  rewrite length_skipn in H4.
  apply (Rounded.Summed_perm rnd _ (concat Ls' ++ rest)).
  - apply (Permutation_trans H3).
    replace (concat (map (fun t => [t]) (firstn 8 l))) with (firstn 8 l).
    + rewrite firstn_skipn. apply Permutation_refl.
    + clear. induction (firstn 8 l) as [|t v IH]; [reflexivity|].
      cbn [map concat app]. rewrite <- IH. reflexivity.
  - apply (Summed_le rnd (3 + k' + length rest)); [lia|].
    apply (Summed_fold rnd rest (3 + k') (concat Ls') (Rounded.sum8 radd 0 r)).
    apply sum8_Summed; assumption.
Qed.

Lemma pairwise_sum_Summed (fuel : nat) :
  forall l : list R,
    (length l <= fuel)%nat ->
    Rounded.Summed rnd (length l) l (Rounded.pairwise_sum radd 0 fuel l).
Proof.
  induction fuel as [|fuel IH]; intros l Hf.
  - destruct l; [|simpl in Hf; lia]. cbn. constructor.
  - cbn [Rounded.pairwise_sum].
    destruct (length l <? 8)%nat eqn:E8.
    + apply (Summed_fold rnd l 0 [] 0). constructor.
    + apply Nat.ltb_ge in E8.
      destruct (length l <=? 128)%nat eqn:E128.
      * apply sum_block_Summed. exact E8.
      * apply Nat.leb_gt in E128.
        set (n2 := (length l / 2 - (length l / 2) mod 8)%nat).
        assert (Hn2 : (1 <= n2 < length l)%nat).
        { unfold n2.
          pose proof (Nat.div_mod_eq (length l) 2).
          pose proof (Nat.mod_upper_bound (length l) 2 ltac:(lia)).
          pose proof (Nat.mod_upper_bound (length l / 2) 8 ltac:(lia)).
          lia. }
        rewrite <- (firstn_skipn n2 l) at 2.
        replace (length l) with (S (length l - 1)) at 1 by lia.
        apply Rounded.Summed_add.
        -- apply (Summed_le rnd (length (firstn n2 l)));
             [rewrite length_firstn; lia|].
           apply IH. rewrite length_firstn. lia.
        -- apply (Summed_le rnd (length (skipn n2 l)));
             [rewrite length_skipn; lia|].
           apply IH. rewrite length_skipn. lia.
Qed.

End NumpySum.

(** numpy's order is one of the summations covered, for rows of any
    length. *)
Lemma np_sum_summation (rnd : R -> R) :
  Rounded.summation rnd (Rounded.np_sum (fun a b => rnd (a + b)) 0).
Proof.
  intros l. unfold Rounded.np_sum.
  apply (Rounded.Summed_add rnd (length l) [] l 0).
  - constructor.
  - apply pairwise_sum_Summed. lia.
Qed.

Lemma unit_roundoff : 0 <= / 2 ^ 53 < 1.
Proof.
  assert (H : 1 < 2 ^ 53) by (apply Rlt_pow_R1; [lra | lia]).
  split.
  - left. apply Rinv_0_lt_compat. lra.
  - rewrite <- Rinv_1. apply Rinv_lt_contravar; lra.
Qed.

Lemma fiberDistance_symmetric_up_to_rounding_witness :
  exists a b : R,
    Rounded.fiberDistance (A := Rounded.rounded_numpy (fun t => t))
      (Rounded.mkFiber [0; 1] [0; 0] [0; 2] 2)
      (Rounded.collection 2 [Rounded.mkFiber [3; 1] [1; 0] [0; 0] 2]) = [a]
    /\ Rounded.fiberDistance (A := Rounded.rounded_numpy (fun t => t))
         (Rounded.mkFiber [3; 1] [1; 0] [0; 0] 2)
         (Rounded.collection 2 [Rounded.mkFiber [0; 1] [0; 0] [0; 2] 2]) = [b]
    /\ 0 <= a /\ 0 <= b
    /\ a <= Rounded.tolerance (/ 2 ^ 53) 2 * b
    /\ b <= Rounded.tolerance (/ 2 ^ 53) 2 * a
    /\ Rounded.fiberDistance (A := Rounded.rounded_numpy (fun t => t))
         (Rounded.mkFiber [0; 1] [0; 0] [0; 2] 2)
         (Rounded.collection 2 [Rounded.mkFiber [0; 1] [0; 0] [0; 2] 2]) = [0].
Proof.
  apply (fiberDistance_symmetric_up_to_rounding (/ 2 ^ 53) (fun t => t) _
           (exact_rounding _ unit_roundoff) (np_sum_summation _) 2
           (Rounded.mkFiber [0; 1] [0; 0] [0; 2] 2)
           (Rounded.mkFiber [3; 1] [1; 0] [0; 0] 2)).
  - lia.
  - unfold Rounded.Fiber_wf. simpl. repeat split; reflexivity.
  - unfold Rounded.Fiber_wf. simpl. repeat split; reflexivity.
Defined.

Lemma distance_rows_symmetric_up_to_rounding_witness :
  let fa := Rounded.collection 2
              [Rounded.mkFiber [0; 1] [0; 0] [0; 2] 2;
               Rounded.mkFiber [3; 1] [1; 0] [0; 0] 2] in
  let raw := Rounded.distance_rows
               (A := Rounded.rounded_in_order (fun t => t * (1 + / 2 ^ 53))) fa in
  0 <= nth 1 (nth 0 raw []) 0
  /\ nth 1 (nth 0 raw []) 0
     <= Rounded.tolerance (/ 2 ^ 53) 2 * nth 0 (nth 1 raw []) 0
  /\ nth 0 (nth 1 raw []) 0
     <= Rounded.tolerance (/ 2 ^ 53) 2 * nth 1 (nth 0 raw []) 0
  /\ nth 0 (nth 0 raw []) 0 = 0.
Proof.
  apply (distance_rows_symmetric_up_to_rounding (/ 2 ^ 53)
           (fun t => t * (1 + / 2 ^ 53)) _
           (inflating_rounding _ unit_roundoff) (sum_in_order_summation _)
           (Rounded.collection 2
              [Rounded.mkFiber [0; 1] [0; 0] [0; 2] 2;
               Rounded.mkFiber [3; 1] [1; 0] [0; 0] 2]) 0 1).
  - unfold Rounded.FiberArray_wf. simpl.
    repeat split; repeat constructor.
  - simpl. lia.
  - simpl. lia.
  - simpl. lia.
Defined.

(** ** The two call directions on float64 *)

(** C1, as stated, fails on float64: for the fiber [fiberA] along the z
    axis and the fiber [fiberB] running the other way at x = 0.2, 0.7
    and 1, the code returns 0.5099999999999999 for
    [fiberDistance(fiberA, {fiberB})] and 0.51 for
    [fiberDistance(fiberB, {fiberA})]: the squared distances of the
    reversed orientation are added in opposite orders. *)
Lemma fiberDistance_float64_not_symmetric :
  Rounded.fiberDistance (A := Rounded.float64) Example.fiberA
    (Rounded.collection 3 [Example.fiberB]) = [0.5099999999999999%float]
  /\ Rounded.fiberDistance (A := Rounded.float64) Example.fiberB
       (Rounded.collection 3 [Example.fiberA]) = [0.51%float]
  /\ Rounded.fiberDistance (A := Rounded.float64) Example.fiberA
       (Rounded.collection 3 [Example.fiberB])
     <> Rounded.fiberDistance (A := Rounded.float64) Example.fiberB
          (Rounded.collection 3 [Example.fiberA]).
Proof.
  split; [vm_compute; reflexivity|]. split; [vm_compute; reflexivity|].
  intros H.
  apply (f_equal (fun l => match l with
                           | [a] => PrimFloat.eqb a 0.51%float
                           | _ => true
                           end)) in H.
  vm_compute in H. discriminate H.
Qed.

(** ** The kernel with the underflow and the saturation of np.exp *)

Lemma exp_INR_mult (n : nat) (t : R) : exp (INR n * t) = exp t ^ n.
Proof.
  induction n as [|n IH].
  - cbn. rewrite Rmult_0_l. apply exp_0.
  - rewrite S_INR, Rmult_plus_distr_r, Rmult_1_l, exp_plus, IH.
    cbn [pow]. ring.
Qed.

(** [exp(-500000)] is below half of the smallest positive float64. *)
Lemma exp_underflow : exp (- 500000) <= / 2 ^ 1075.
Proof.
  assert (H2 : 2 ^ 1075 <= exp 500000).
  { replace 500000 with (INR 1075 * (500000 / INR 1075)).
    - rewrite exp_INR_mult. apply pow_incr. split; [lra|].
      pose proof (exp_ineq1_le (500000 / INR 1075)) as H.
      assert (1 <= 500000 / INR 1075).
      { apply Rmult_le_reg_r with (INR 1075).
        - apply lt_0_INR. lia.
        - unfold Rdiv. rewrite Rmult_assoc, Rinv_l, Rmult_1_r, Rmult_1_l.
          + rewrite INR_IZR_INZ. apply IZR_le. cbn. lia.
          + apply not_0_INR. lia. }
      lra.
    - field. apply not_0_INR. lia. }
  replace (- 500000) with (Ropp 500000) by lra.
  rewrite exp_Ropp.
  apply Rinv_le_contravar; [|exact H2].
  apply pow_lt. lra.
Qed.

Lemma inv_pow2_small (n : nat) : (1 <= n)%nat -> 0 < / 2 ^ n <= / 2.
Proof.
  intros Hn.
  assert (H2 : 2 <= 2 ^ n).
  { replace 2 with (2 ^ 1) at 1 by (cbn; lra). apply Rle_pow; [lra | exact Hn]. }
  split.
  - apply Rinv_0_lt_compat. lra.
  - apply Rinv_le_contravar; lra.
Qed.

Lemma inv_pow2_antitone (m n : nat) : (m <= n)%nat -> / 2 ^ n <= / 2 ^ m.
Proof.
  intros Hmn. apply Rinv_le_contravar.
  - apply pow_lt. lra.
  - apply Rle_pow; [lra | exact Hmn].
Qed.

Lemma np_exp_range (t : R) : t <= 0 -> 0 <= Rounded.np_exp t <= 1.
Proof.
  intros Ht. unfold Rounded.np_exp.
  assert (He : 0 < exp t <= 1).
  { split; [apply exp_pos|]. rewrite <- exp_0.
    destruct Ht as [Ht | ->]; [left; apply exp_increasing; exact Ht | lra]. }
  destruct (Rle_dec (exp t) (/ 2 ^ 1075)); [lra|].
  destruct (Rle_dec (1 - / 2 ^ 54) (exp t)); [|lra].
  destruct (Rle_dec (exp t) (1 + / 2 ^ 53)); lra.
Qed.

Lemma np_exp_0 : Rounded.np_exp 0 = 1.
Proof.
  unfold Rounded.np_exp. rewrite exp_0.
  pose proof (inv_pow2_small 1075 ltac:(lia)).
  pose proof (inv_pow2_small 54 ltac:(lia)).
  pose proof (inv_pow2_small 53 ltac:(lia)).
  destruct (Rle_dec 1 (/ 2 ^ 1075)); [lra|].
  destruct (Rle_dec (1 - / 2 ^ 54) 1); [|lra].
  destruct (Rle_dec 1 (1 + / 2 ^ 53)); [reflexivity | lra].
Qed.

Lemma np_exp_monotone (s t : R) :
  s <= t -> Rounded.np_exp s <= Rounded.np_exp t.
Proof.
  intros Hst. unfold Rounded.np_exp.
  assert (He : exp s <= exp t).
  { destruct Hst as [Hst | ->]; [left; apply exp_increasing; exact Hst | lra]. }
  pose proof (exp_pos s). pose proof (exp_pos t).
  pose proof (inv_pow2_small 1075 ltac:(lia)).
  pose proof (inv_pow2_small 54 ltac:(lia)).
  pose proof (inv_pow2_small 53 ltac:(lia)).
  destruct (Rle_dec (exp s) (/ 2 ^ 1075)),
    (Rle_dec (exp t) (/ 2 ^ 1075)),
    (Rle_dec (1 - / 2 ^ 54) (exp s)),
    (Rle_dec (1 - / 2 ^ 54) (exp t)),
    (Rle_dec (exp s) (1 + / 2 ^ 53)),
    (Rle_dec (exp t) (1 + / 2 ^ 53)); lra.
Qed.

(** C10, as stated, fails on float64: at distance 10^6 and kernel width
    1 the similarity is exactly 0, outside (0, 1], because
    [exp(-500000)] underflows; and at the distance 2^-60, which is not
    0, the similarity is exactly 1, as it is at distance 0, so that it
    is neither 1 at 0 only nor strictly decreasing. *)
Lemma gausKernel_zero_and_one :
  Rounded.gausKernel 1000000 (Np.sq 1) = 0
  /\ Rounded.gausKernel (/ 2 ^ 60) (Np.sq 1) = 1
  /\ / 2 ^ 60 <> 0.
Proof.
  pose proof (inv_pow2_small 1075 ltac:(lia)) as H1075.
  pose proof (inv_pow2_small 54 ltac:(lia)) as H54.
  pose proof (inv_pow2_small 53 ltac:(lia)) as H53.
  pose proof (inv_pow2_small 60 ltac:(lia)) as H60.
  pose proof (inv_pow2_antitone 54 60 ltac:(lia)) as Hle.
  split; [|split].
  - unfold Rounded.gausKernel, Rounded.np_exp, Np.sq.
    replace (- (1000000) / (2 * (1 * 1))) with (- 500000) by lra.
    destruct (Rle_dec (exp (- 500000)) (/ 2 ^ 1075)) as [_|H];
      [reflexivity|].
    exfalso. apply H, exp_underflow.
  - unfold Rounded.gausKernel, Rounded.np_exp, Np.sq.
    set (t := - / 2 ^ 60 / (2 * (1 * 1))).
    assert (Ht : - / 2 ^ 54 <= t <= 0) by (unfold t; lra).
    pose proof (exp_ineq1_le t) as Hlo.
    assert (Hhi : exp t <= 1).
    { rewrite <- exp_0. destruct Ht as [_ [Ht | ->]]; [|lra].
      left. apply exp_increasing. exact Ht. }
    destruct (Rle_dec (exp t) (/ 2 ^ 1075)); [lra|].
    destruct (Rle_dec (1 - / 2 ^ 54) (exp t)); [|lra].
    destruct (Rle_dec (exp t) (1 + / 2 ^ 53)); [reflexivity | lra].
  - lra.
Qed.

(** C10, amended.  For a distance [d >= 0] and a kernel width
    [sigma > 0] the similarity lies in the closed interval [0, 1], is
    1 at [d = 0], and is not larger at a larger distance. *)
Theorem gausKernel_unit_interval_monotone (d d' sigma : R) :
  0 <= d -> 0 < sigma ->
  (0 <= Rounded.gausKernel d (Np.sq sigma) <= 1)
  /\ (d = 0 -> Rounded.gausKernel d (Np.sq sigma) = 1)
  /\ (d <= d' ->
      Rounded.gausKernel d' (Np.sq sigma) <= Rounded.gausKernel d (Np.sq sigma)).
Proof.
  intros Hd Hs. unfold Rounded.gausKernel, Np.sq.
  assert (Hinv : 0 < / (2 * (sigma * sigma)))
    by (apply Rinv_0_lt_compat; nra).
  repeat split.
  - apply np_exp_range. unfold Rdiv. nra.
  - apply np_exp_range. unfold Rdiv. nra.
  - intros ->. unfold Rdiv. rewrite Ropp_0, Rmult_0_l. apply np_exp_0.
  - intros Hle. apply np_exp_monotone. unfold Rdiv. nra.
Qed.

Lemma gausKernel_unit_interval_monotone_witness :
  (0 <= Rounded.gausKernel 2 (Np.sq 1) <= 1)
  /\ (2 = 0 -> Rounded.gausKernel 2 (Np.sq 1) = 1)
  /\ (2 <= 3 ->
      Rounded.gausKernel 3 (Np.sq 1) <= Rounded.gausKernel 2 (Np.sq 1)).
Proof.
  apply (gausKernel_unit_interval_monotone 2 3 1); lra.
Defined.
